(** * tex2beam: the LaTeX document model and the evaluation metrics

    A shallow embedding of the parts of [tex2beam] that build the document
    and presentation models ([tex2beam/utils.py],
    [tex2beam/classes/latex_base.py],
    [tex2beam/classes/latex_presentation.py]) and of the element matcher
    ([tex2beam/metrics/utils.py]), with the properties the specification
    states about them.

    Conventions.
    - A Python [str] is a [string]; a character is an [ascii] (code points
      below 256).
    - A Python [float] is idealised as a rational ([Q]); [round] is the
      round-half-even of the exact value.  The scores computed from the
      confusion matrix are the exception: they are double-precision
      numbers ([float], with the arithmetic of the machine).
    - A raised exception is a value [Raise e] of the [result] monad; a
      [try ... except Exception] block is [try_except].
    - The markup tree comes from an external parsing library; module
      [TexSoup] records the narrow interface the repository consumes. *)

From Stdlib Require Import String Ascii List ZArith QArith Lia Bool.
From Corelib Require PrimInt63 PrimFloat.
From stdpp Require Import base option list gmap sets strings sorting.

Import ListNotations.
Open Scope string_scope.
Open Scope list_scope.

(** ** Python built-ins on strings *)

Module Py.

(** [str.isspace] on one character: TAB..CR, FS..US and SPACE, NEL, NBSP. *)
Definition isspace (c : ascii) : bool :=
  let n := nat_of_ascii c in
  (Nat.leb 9 n && Nat.leb n 13) || (Nat.leb 28 n && Nat.leb n 32)
  || Nat.eqb n 133 || Nat.eqb n 160.

Definition newline : ascii := ascii_of_nat 10.
Definition nl : string := String newline EmptyString.

(** [s.split(sep)] for a one-character separator: never the empty list. *)
Fixpoint split_on (sep : ascii) (s : string) : list string :=
  match s with
  | EmptyString => [EmptyString]
  | String c s' =>
      if Ascii.eqb c sep then EmptyString :: split_on sep s'
      else match split_on sep s' with
           | [] => [String c EmptyString]
           | p :: ps => String c p :: ps
           end
  end.

(** [s.lstrip()], [s.rstrip()], [s.strip()]. *)
Fixpoint lstrip (s : string) : string :=
  match s with
  | EmptyString => EmptyString
  | String c s' => if isspace c then lstrip s' else s
  end.

Fixpoint rstrip (s : string) : string :=
  match s with
  | EmptyString => EmptyString
  | String c s' =>
      match rstrip s' with
      | EmptyString => if isspace c then EmptyString else String c EmptyString
      | r => String c r
      end
  end.

Definition strip (s : string) : string := rstrip (lstrip s).

(** [s.strip(chars)] for a one-character set. *)
Fixpoint lstrip_char (ch : ascii) (s : string) : string :=
  match s with
  | EmptyString => EmptyString
  | String c s' => if Ascii.eqb c ch then lstrip_char ch s' else s
  end.

Fixpoint rstrip_char (ch : ascii) (s : string) : string :=
  match s with
  | EmptyString => EmptyString
  | String c s' =>
      match rstrip_char ch s' with
      | EmptyString => if Ascii.eqb c ch then EmptyString else String c EmptyString
      | r => String c r
      end
  end.

Definition strip_char (ch : ascii) (s : string) : string :=
  rstrip_char ch (lstrip_char ch s).

(** [s.startswith(p)], [s.endswith(p)], [p in s]. *)
Definition startswith (p s : string) : bool := String.prefix p s.

Fixpoint contains (p s : string) : bool :=
  String.prefix p s
  || match s with
     | EmptyString => false
     | String _ s' => contains p s'
     end.

Fixpoint endswith (p s : string) : bool :=
  String.eqb p s
  || match s with
     | EmptyString => false
     | String _ s' => endswith p s'
     end.

(** [sep.join(parts)]. *)
Definition join (sep : string) (parts : list string) : string :=
  String.concat sep parts.

(** [s.replace("\n", "")]. *)
Fixpoint remove_char (ch : ascii) (s : string) : string :=
  match s with
  | EmptyString => EmptyString
  | String c s' =>
      if Ascii.eqb c ch then remove_char ch s' else String c (remove_char ch s')
  end.

(** [s.split()]: the maximal runs of non-whitespace characters.  [cur] holds
    the word being read, reversed. *)
Definition flush_word (cur : list ascii) : list string :=
  match cur with
  | [] => []
  | _ => [string_of_list_ascii (rev cur)]
  end.

Fixpoint split_ws_aux (cur : list ascii) (s : string) : list string :=
  match s with
  | EmptyString => flush_word cur
  | String c s' =>
      if isspace c then flush_word cur ++ split_ws_aux [] s'
      else split_ws_aux (c :: cur) s'
  end.

Definition split (s : string) : list string := split_ws_aux [] s.

(** [re.sub(r" +", " ", s)]: every maximal run of spaces becomes one space.
    [in_run] tells that the previous character was a space of the run
    already replaced. *)
Fixpoint re_sub_spaces_aux (in_run : bool) (s : string) : string :=
  match s with
  | EmptyString => EmptyString
  | String c s' =>
      if Ascii.eqb c " " then
        if in_run then re_sub_spaces_aux true s'
        else String " " (re_sub_spaces_aux true s')
      else String c (re_sub_spaces_aux false s')
  end.

Definition re_sub_spaces (s : string) : string := re_sub_spaces_aux false s.

(** Truthiness of a [str], and of an optional one ([None] is falsy). *)
Definition truthy (s : string) : bool := negb (String.eqb s "").

Definition truthy_opt (o : option string) : bool :=
  match o with Some s => truthy s | None => false end.

(** [str(x)] for [x] a [str] or [None]. *)
Definition str_opt (o : option string) : string :=
  match o with Some s => s | None => "None" end.

(** [x in xs] for a list of strings. *)
Definition mem (x : string) (xs : list string) : bool :=
  existsb (String.eqb x) xs.

(** [os.path.dirname] and the two-argument [os.path.join] (POSIX). *)
Fixpoint head_of_path (p : string) : option string :=
  match p with
  | EmptyString => None
  | String c p' =>
      match head_of_path p' with
      | Some d => Some (String c d)
      | None => if Ascii.eqb c "/" then Some (String c EmptyString) else None
      end
  end.

Definition os_path_dirname (p : string) : string :=
  match head_of_path p with
  | None => ""
  | Some hd =>
      if String.eqb (lstrip_char "/" hd) "" then hd else rstrip_char "/" hd
  end.

Definition os_path_join (a b : string) : string :=
  if startswith "/" b then b
  else if String.eqb a "" || endswith "/" a then a +:+ b
  else a +:+ "/" +:+ b.

(** [s.strip(chars)] for a set of characters given as a string. *)
Fixpoint in_chars (c : ascii) (chars : string) : bool :=
  match chars with
  | EmptyString => false
  | String c' chars' => Ascii.eqb c c' || in_chars c chars'
  end.

Fixpoint lstrip_chars (chars s : string) : string :=
  match s with
  | EmptyString => EmptyString
  | String c s' => if in_chars c chars then lstrip_chars chars s' else s
  end.

Fixpoint rstrip_chars (chars s : string) : string :=
  match s with
  | EmptyString => EmptyString
  | String c s' =>
      match rstrip_chars chars s' with
      | EmptyString =>
          if in_chars c chars then EmptyString else String c EmptyString
      | r => String c r
      end
  end.

Definition strip_chars (chars s : string) : string :=
  rstrip_chars chars (lstrip_chars chars s).

(** [s.lower()]: the capital letters A..Z and, among the code points
    below 256, U+00C0..U+00DE but the multiplication sign. *)
Definition lower_char (c : ascii) : ascii :=
  let n := nat_of_ascii c in
  if (Nat.leb 65 n && Nat.leb n 90)
     || (Nat.leb 192 n && Nat.leb n 222 && negb (Nat.eqb n 215))
  then ascii_of_nat (n + 32) else c.

Fixpoint lower (s : string) : string :=
  match s with
  | EmptyString => EmptyString
  | String c s' => String (lower_char c) (lower s')
  end.

(** [re.search(pattern, s, re.IGNORECASE)] for a pattern that matches one
    literal text [lit] of ASCII characters: some substring of [s] equals
    [lit] up to the case of its letters. *)
Definition re_search_ignorecase (lit s : string) : bool :=
  contains (lower lit) (lower s).

(** [s.replace(old, new)] for a non-empty [old]: the occurrences of [old]
    are replaced from left to right, none overlapping another.  [skip]
    counts the characters of the occurrence being replaced that are still
    to pass. *)
Fixpoint replace_aux (old new : string) (skip : nat) (s : string) : string :=
  match s with
  | EmptyString => EmptyString
  | String c s' =>
      match skip with
      | S skip' => replace_aux old new skip' s'
      | 0 =>
          if String.prefix old s
          then new +:+ replace_aux old new (String.length old - 1) s'
          else String c (replace_aux old new 0 s')
      end
  end.

Definition replace (old new s : string) : string := replace_aux old new 0 s.

(** [os.path.basename] (POSIX): what follows the last slash. *)
Definition os_path_basename (p : string) : string :=
  List.last (split_on "/" p) "".

End Py.

(** ** Exceptions *)

Inductive exn : Type :=
| ValueError | TypeError | IndexError | KeyError | AttributeError
| FileNotFoundError | RecursionError
| IsADirectoryError | PermissionError | UnicodeDecodeError.

Inductive result (A : Type) : Type :=
| Ok (a : A)
| Raise (e : exn).
Arguments Ok {A} a.
Arguments Raise {A} e.

(** The exception monad: [x ← m; k] runs [m] and, unless it raised, [k]. *)
#[global] Instance result_ret : MRet result := @Ok.
#[global] Instance result_bind : MBind result := fun A B k m =>
  match m with
  | Ok a => k a
  | Raise e => Raise e
  end.

(** [try: return body  except Exception: return handler]. *)
Definition try_except {A} (body : result A) (handler : A) : A :=
  match body with
  | Ok a => a
  | Raise _ => handler
  end.

(** [xs[i]] for a list and a non-negative index. *)
Definition getitem {A} (xs : list A) (i : nat) : result A :=
  match xs !! i with
  | Some x => Ok x
  | None => Raise IndexError
  end.

(** ** The markup tree (external parsing library) *)

Module TexSoup.

(** Modelled from the spec: the markup-parsing library (TexSoup) is not
    part of the repository.  The Markup Tree Abstraction of section 2
    (component 1) and MarkupNode of section 3 describe it: a mutable tree
    of typed nodes -- commands, environments and text -- with named-child
    lookup ([find], [find_all]), [text], [args] and in-place mutation
    ([replace_with], [delete]), traversed in document order (depth-first,
    pre-order).  The repository's own code is embedded against this
    interface.  [uid] stands for the identity of the Python object, which
    [delete] needs to tell one node from an equal one. *)
Inductive TexKind : Type := TexCmd | TexNamedEnv | TexGroup | TexRoot.

#[local] Unset Elimination Schemes.
Inductive TexNode : Type :=
| TexText (value : string)
| TexExpr (kind : TexKind) (uid : nat) (name : string)
    (args : list TexNode) (children : list TexNode).
#[local] Set Elimination Schemes.

Section TexNode_induction.
Variable P : TexNode -> Prop.
Hypothesis P_text : forall s, P (TexText s).
Hypothesis P_expr : forall k u nm args ch,
  Forall P args -> Forall P ch -> P (TexExpr k u nm args ch).

Fixpoint TexNode_ind (n : TexNode) : P n :=
  match n with
  | TexText s => P_text s
  | TexExpr k u nm args ch =>
      P_expr k u nm args ch
        ((fix go (l : list TexNode) : Forall P l :=
            match l with
            | [] => @List.Forall_nil _ P
            | x :: l' => @List.Forall_cons _ P x l' (TexNode_ind x) (go l')
            end) args)
        ((fix go (l : list TexNode) : Forall P l :=
            match l with
            | [] => @List.Forall_nil _ P
            | x :: l' => @List.Forall_cons _ P x l' (TexNode_ind x) (go l')
            end) ch)
  end.
End TexNode_induction.

(** Modelled from the spec: [isinstance(node, TexNode)]; text fragments
    are plain [str] tokens. *)
Definition is_TexNode (n : TexNode) : bool :=
  match n with TexText _ => false | TexExpr _ _ _ _ _ => true end.

(** Modelled from the spec: [node.name], and the test [node.name == nm]
    on a node. *)
Definition name (n : TexNode) : option string :=
  match n with TexText _ => None | TexExpr _ _ nm _ _ => Some nm end.

Definition named (nm : string) (n : TexNode) : bool :=
  match n with TexText _ => false | TexExpr _ _ nm' _ _ => String.eqb nm' nm end.

Definition uid_of (n : TexNode) : option nat :=
  match n with TexText _ => None | TexExpr _ u _ _ _ => Some u end.

(** Modelled from the spec: [node.args], the ordered argument list. *)
Definition args (n : TexNode) : list TexNode :=
  match n with TexText _ => [] | TexExpr _ _ _ a _ => a end.

(** Modelled from the spec: [node.contents], also what [for child in node]
    yields: the contents of the arguments, then the children. *)
Fixpoint contents (n : TexNode) : list TexNode :=
  match n with
  | TexText _ => []
  | TexExpr _ _ _ a ch => flat_map contents a ++ ch
  end.

(** Modelled from the spec: [node.descendants], in document order
    (depth-first, pre-order). *)
Fixpoint descendants (n : TexNode) : list TexNode :=
  match n with
  | TexText _ => []
  | TexExpr _ _ _ a ch =>
      flat_map descendants a ++ flat_map (fun c => c :: descendants c) ch
  end.

(** Modelled from the spec: [node.find_all(name)], the descendants of that
    name in document order, and [node.find(name)] (also [node.<name>]),
    the first of them or [None]. *)
Definition find_all (nm : string) (n : TexNode) : list TexNode :=
  List.filter (named nm) (descendants n).

Definition find (nm : string) (n : TexNode) : option TexNode :=
  head (find_all nm n).

(** Modelled from the spec: [node.text], the text fragments below the
    node, in document order. *)
Definition text (n : TexNode) : list string :=
  omap (fun d => match d with TexText s => Some s | _ => None end)
       (descendants n).

(** Modelled from the spec: [str(node)], the literal re-serialization of
    the node. *)
Fixpoint str (n : TexNode) : string :=
  match n with
  | TexText s => s
  | TexExpr k _ nm a ch =>
      let inner := String.concat "" (map str a) +:+ String.concat "" (map str ch) in
      match k with
      | TexCmd => "\" +:+ nm +:+ inner
      | TexNamedEnv => "\begin{" +:+ nm +:+ "}" +:+ inner +:+ "\end{" +:+ nm +:+ "}"
      | TexGroup => "{" +:+ String.concat "" (map str ch) +:+ "}"
      | TexRoot => inner
      end
  end.

(** Modelled from the spec: [arg.string], the string content of an
    argument: all that the argument holds, text and markup alike,
    re-serialized and joined.  An argument is an object of the parsing
    library (a brace or bracket group); [None] stands for the outcome on
    anything else, which is not a [str]. *)
Definition arg_string (a : TexNode) : option string :=
  match a with
  | TexText _ => None
  | TexExpr _ _ _ _ _ => Some (String.concat "" (map str (contents a)))
  end.

(** Modelled from the spec: [node.string], the string of the only
    argument. *)
Definition node_string (n : TexNode) : option string :=
  match args n with
  | [a] => arg_string a
  | _ => None
  end.

(** Modelled from the spec: [node.delete()], the node of identity [u]
    leaves its parent. *)
Definition keeps (u : nat) (n : TexNode) : bool :=
  match uid_of n with Some u' => negb (Nat.eqb u' u) | None => true end.

Fixpoint delete_uid (u : nat) (soup : TexNode) : TexNode :=
  match soup with
  | TexText s => TexText s
  | TexExpr k id nm a ch =>
      TexExpr k id nm (map (delete_uid u) a)
        ((fix go (l : list TexNode) : list TexNode :=
            match l with
            | [] => []
            | c :: l' => if keeps u c then delete_uid u c :: go l' else go l'
            end) ch)
  end.

Definition delete (target soup : TexNode) : TexNode :=
  match uid_of target with
  | Some u => delete_uid u soup
  | None => soup
  end.

(** Builders for examples. *)
Definition brace (u : nat) (s : string) : TexNode :=
  TexExpr TexGroup u "BraceGroup" [] [TexText s].
Definition cmd (u : nat) (nm : string) (a : list TexNode) : TexNode :=
  TexExpr TexCmd u nm a [].
Definition env (u : nat) (nm : string) (a ch : list TexNode) : TexNode :=
  TexExpr TexNamedEnv u nm a ch.
Definition root (ch : list TexNode) : TexNode :=
  TexExpr TexRoot 0 "[tex]" [] ch.

End TexSoup.

(** ** tex2beam/utils.py *)

Module utils.

(** [clean_texfile], lines 14-33. *)
Definition clean_texfile (texfile : string) : string :=
  let tmp := Py.split_on Py.newline texfile in
  let tmp := map Py.strip
               (List.filter (fun line => negb (Py.startswith "%" line)) tmp) in
  let tmp := List.filter (fun line => Nat.ltb 0 (String.length line)) tmp in
  let tmp := map Py.re_sub_spaces tmp in
  Py.join Py.nl tmp.

(** [group_files_by_folder], lines 500-516.  [folder_of] is the
    expression [file.strip(parent_path).split("/")[1]]. *)
Definition folder_of (parent_path file : string) : result string :=
  getitem (Py.split_on "/" (Py.strip_chars parent_path file)) 1.

Fixpoint group_loop (parent_path : string) (files : list string)
  (folders : gmap string (list string))
  : result (gmap string (list string)) :=
  match files with
  | [] => Ok folders
  | file :: rest =>
      folder ← folder_of parent_path file;
      let folders :=
        match folders !! folder with
        | None => <[folder := []]> folders
        | Some _ => folders
        end in
      match folders !! folder with
      | Some l => group_loop parent_path rest (<[folder := l ++ [file]]> folders)
      | None => Raise KeyError
      end
  end.

Definition group_files_by_folder (files : list string) (parent_path : string)
  : result (gmap string (list string)) :=
  group_loop parent_path files ∅.

(** [determine_main_tex_file], lines 519-539, over the files [fs] of the
    file system: a file that cannot be read is passed over. *)
Fixpoint determine_main_tex_file (fs : gmap string string)
  (files : list string) : option string :=
  match files with
  | [] => None
  | file :: rest =>
      if Py.endswith ".tex" file then
        match fs !! file with
        | Some text =>
            if Py.re_search_ignorecase "\begin{document}" text then Some file
            else determine_main_tex_file fs rest
        | None => determine_main_tex_file fs rest
        end
      else determine_main_tex_file fs rest
  end.

End utils.

(** ** tex2beam/classes/latex_base.py *)

Module LatexBase.
Import TexSoup.

(** [clean_and_merge], lines 28-32: the argument is a [str] or a list. *)
Inductive str_or_list : Type :=
| Str (s : string)
| Strs (l : list string).

Definition clean_and_merge (content : str_or_list) : string :=
  match content with
  | Str s => s
  | Strs l => Py.strip (Py.remove_char Py.newline (Py.join " " l))
  end.

(** [bibliography], lines 34-36. *)
Definition bibliography (soup : TexNode) : option TexNode :=
  find "thebibliography" soup.

(** [bibitems], lines 38-54.  The loop state is the dictionary, the
    flag and the last key bound. *)
Record bib_state : Type := mk_bib_state {
  items : gmap string (list TexNode);
  start_parse : bool;
  key : string
}.

Definition bibitems_step (st : bib_state) (node : TexNode)
  : result bib_state :=
  st ← (if named "bibitem" node then
          a0 ← getitem (args node) 0;
          let key := Py.str_opt (arg_string a0) in
          Ok (mk_bib_state (<[key := [node]]> (items st)) true key)
        else Ok st);
  if start_parse st then
    match items st !! key st with
    | Some l =>
        Ok (mk_bib_state (<[key st := l ++ [node]]> (items st))
              (start_parse st) (key st))
    | None => Raise KeyError
    end
  else Ok st.

Fixpoint bibitems_loop (st : bib_state) (nodes : list TexNode)
  : result bib_state :=
  match nodes with
  | [] => Ok st
  | node :: rest => st' ← bibitems_step st node; bibitems_loop st' rest
  end.

Definition bibitems (soup : TexNode)
  : result (gmap string (list TexNode)) :=
  match bibliography soup with
  | None => Ok ∅
  | Some bib =>
      st ← bibitems_loop (mk_bib_state ∅ false "") (contents bib);
      Ok (items st)
  end.

(** [sections], lines 95-214. *)
Record Subsection : Type := mk_Subsection {
  sub_section : option string;
  sub_content : string;
  subsubsections : list TexNode;
  sub_figures : list TexNode
}.

Record Section : Type := mk_Section {
  section : option string;
  content : string;
  subsections : list Subsection;
  figures : list TexNode
}.

Definition labels : list string :=
  ["label"; "footnote"; "cite"; "citet"; "citep"; "ref"; "$"; "emph";
   "textit"; "textbf"; "paragraph"; "tilde"].

Definition symbols : list string :=
  ["in"; "alpha"; "phi"; "perp"; "cdot"; "times"; "log"; "exp"; "right";
   "sqrt"; "theta"; "sum"; "Phi"; "tau"; "Theta"].

Definition stops : list string :=
  ["bibliography"; "bibliographystyle"; "appendix"].

Record sec_state : Type := mk_sec_state {
  secs : list Section;
  parse : bool;
  is_section : bool;
  is_subsection : bool
}.

(** [xs[-1] = f(xs[-1])]; on an empty list the [IndexError] is caught by
    the caller's [try] and nothing changes. *)
Fixpoint update_last {A} (f : A -> A) (xs : list A) : list A :=
  match xs with
  | [] => []
  | [x] => [f x]
  | x :: xs' => x :: update_last f xs'
  end.

Definition add_content (data : string) (s : Section) : Section :=
  mk_Section (section s) (content s +:+ data) (subsections s) (figures s).

Definition add_sub_content (data : string) (s : Subsection) : Subsection :=
  mk_Subsection (sub_section s) (sub_content s +:+ data)
    (subsubsections s) (sub_figures s).

Definition on_subsections (f : list Subsection -> list Subsection)
  (s : Section) : Section :=
  mk_Section (section s) (content s) (f (subsections s)) (figures s).

(** The inner [append(data)], lines 137-144. *)
Definition append (st : sec_state) (data : string) : sec_state :=
  if is_section st then
    mk_sec_state (update_last (add_content data) (secs st))
      (parse st) (is_section st) (is_subsection st)
  else if is_subsection st then
    mk_sec_state
      (update_last (on_subsections (update_last (add_sub_content data)))
         (secs st))
      (parse st) (is_section st) (is_subsection st)
  else st.

(** One turn of the loop over the descendants, lines 146-213. *)
Definition sections_step (st : sec_state) (node : TexNode) : sec_state :=
  let st :=
    if named "section" node
    then mk_sec_state (secs st) true (is_section st) (is_subsection st)
    else st in
  if negb (parse st) then st
  else if named "section" node then
    mk_sec_state (secs st ++ [mk_Section (node_string node) "" [] []])
      (parse st) true false
  else if named "subsection" node then
    mk_sec_state
      (update_last
         (on_subsections
            (fun subs => subs ++ [mk_Subsection (node_string node) "" [] []]))
         (secs st))
      (parse st) false true
  else
    match node with
    | TexText s => append st (Py.strip_char Py.newline s)
    | TexExpr _ _ nm _ _ =>
        if Py.mem nm labels then
          append st (Py.strip_char Py.newline (str node))
        else if String.eqb nm "figure" then append st (str node)
        else if Py.mem nm ["align"; "align*"] then append st (str node)
        else if Py.mem nm symbols then append st ("$" +:+ str node +:+ "$")
        else if Py.mem nm stops then
          mk_sec_state (secs st) false (is_section st) (is_subsection st)
        else append st (str node)
    end.

Definition sections_init : sec_state := mk_sec_state [] false false false.

Definition sections_loop (nodes : list TexNode) : sec_state :=
  fold_left sections_step nodes sections_init.

Definition sections (soup : TexNode) : list Section :=
  match find "document" soup with
  | None => []
  | Some document => secs (sections_loop (descendants document))
  end.

(** [title], lines 216-243.  The value is [None], a [str], or the empty
    list left when [title[0]] raised. *)
Inductive title_value : Type :=
| TitleNone
| TitleStr (s : string)
| TitleEmptyList.

Definition first_text (n : TexNode) : title_value :=
  match text n with
  | [] => TitleEmptyList
  | s :: _ => TitleStr s
  end.

Definition title (soup : TexNode) : title_value :=
  match find "title" soup with
  | Some n => first_text n
  | None =>
      match find "icmltitle" soup with
      | Some n => first_text n
      | None =>
          match find "icmltitlerunning" soup with
          | Some n => first_text n
          | None => TitleNone
          end
      end
  end.

(** [if self.title] and [str(self.title)] where the title is truthy. *)
Definition title_truthy (t : title_value) : bool :=
  match t with TitleStr s => Py.truthy s | _ => false end.

Definition title_str (t : title_value) : string :=
  match t with TitleStr s => s | TitleNone => "None" | TitleEmptyList => "[]" end.

(** [citations], lines 56-58. *)
Definition citations (soup : TexNode) : list TexNode := find_all "cite" soup.

(** [toc], lines 68-81. *)
Record TocEntry : Type := mk_TocEntry {
  toc_section : option string;
  toc_subsections : list (option string)
}.

Definition toc (soup : TexNode) : list TocEntry :=
  fold_left
    (fun toc s =>
       toc ++ [mk_TocEntry (section s) (map sub_section (subsections s))])
    (sections soup) [].

(** [word_count], lines 83-93: [None] without a document environment. *)
Definition word_count (soup : TexNode) : option nat :=
  match find "document" soup with
  | None => None
  | Some document => Some (length (Py.split (Py.join " " (text document))))
  end.

(** [authors], lines 245-267, [affiliations], lines 269-287, and
    [institutes], lines 289-311. *)
Definition authors (soup : TexNode) : list TexNode :=
  let authors :=
    if bool_decide (is_Some (find "author" soup))
    then Some (find_all "author" soup)
    else if bool_decide (is_Some (find "icmlauthor" soup))
    then Some (find_all "icmlauthor" soup)
    else None in
  match authors with
  | Some (a :: l) => a :: l
  | _ => []
  end.

Definition affiliations (soup : TexNode) : list TexNode :=
  if bool_decide (is_Some (find "affiliation" soup))
  then find_all "affiliation" soup
  else if bool_decide (is_Some (find "icmlaffiliation" soup))
  then find_all "icmlaffiliation" soup
  else [].

Definition institutes (soup : TexNode) : list TexNode :=
  let institutes :=
    if bool_decide (is_Some (find "institute" soup))
    then Some (find_all "institute" soup)
    else if bool_decide (is_Some (find "icmlinstitute" soup))
    then Some (find_all "icmlinstitute" soup)
    else None in
  match institutes with
  | Some (a :: l) => a :: l
  | _ => []
  end.

(** [get_section], lines 323-331: a section, a subsection, or the empty
    dictionary. *)
Inductive section_or_dict : Type :=
| FoundSection (s : Section)
| FoundSubsection (s : Subsection)
| EmptyDict.

Fixpoint get_subsection (subs : list Subsection) (section_title : string)
  : option Subsection :=
  match subs with
  | [] => None
  | subsection :: rest =>
      if bool_decide (sub_section subsection = Some section_title)
      then Some subsection
      else get_subsection rest section_title
  end.

Fixpoint get_section_loop (secs : list Section) (section_title : string)
  : section_or_dict :=
  match secs with
  | [] => EmptyDict
  | s :: rest =>
      if bool_decide (section s = Some section_title) then FoundSection s
      else match get_subsection (subsections s) section_title with
           | Some subsection => FoundSubsection subsection
           | None => get_section_loop rest section_title
           end
  end.

Definition get_section (soup : TexNode) (section_title : string)
  : section_or_dict :=
  get_section_loop (sections soup) section_title.

(** [get_citation], lines 377-381.  The loop runs over the keys of the
    dictionary [bibitems], which are [str]; a [str] has no attribute
    [string]. *)
Definition str_string (s : string) : result string := Raise AttributeError.

Fixpoint get_citation_loop (key : string) (keys : list string)
  : result (option string) :=
  match keys with
  | [] => Ok None
  | bibitem :: rest =>
      s ← str_string bibitem;
      if Py.contains key s then Ok (Some s)
      else get_citation_loop key rest
  end.

Definition get_citation (soup : TexNode) (key : string)
  : result (option string) :=
  items ← bibitems soup;
  get_citation_loop key (map fst (map_to_list items)).

(** [get_bibitem], lines 383-385. *)
Definition get_bibitem {A} (key : string) (bibliography : gmap string A)
  : option A :=
  bibliography !! key.

Section files.

(** The parser [TexSoup.TexSoup(text, tolerance)] and the file system:
    [fs path] is what opening the file at [path] and reading it gives, its
    text or the exception raised ([FileNotFoundError], [PermissionError],
    [IsADirectoryError], [ValueError] for a path with a null character,
    [UnicodeDecodeError] for a file that is no text, ...).  A file is
    read as soon as it is opened: by the parser, in the first statement of
    the resolver. *)
Variable TexSoup_parse : nat -> string -> TexNode.
Variable fs : string -> result string.

Record file : Type := mk_file { file_name : string; file_read : string }.

Definition open (path : string) : result file :=
  text ← fs path; Ok (mk_file path text).

(** The inner [check_filename], lines 340-343. *)
Definition check_filename (filename : string) : string :=
  if negb (Py.endswith ".tex" filename) then filename +:+ ".tex"
  else filename.

(** [arg.string] where a [str] method is called on it next. *)
Definition arg_str (a : TexNode) : result string :=
  match arg_string a with
  | Some s => Ok s
  | None => Raise AttributeError
  end.

(** [a + b] for two arguments of a directive, lines 350 (and line 234 of
    [utils.py]): the arguments themselves are added, not their strings,
    and an argument object has no [+]. *)
Definition add_args (a b : TexNode) : result string := Raise TypeError.

(** [for d in soup.find_all(name): d.replace_with( *f(d) )]: every node
    named [nm] gives way, in its parent and at its position, to the nodes
    [f] returns for it; the directives are met in document order. *)
Fixpoint replace_all (nm : string) (f : TexNode -> result (list TexNode))
  (n : TexNode) : result TexNode :=
  match n with
  | TexText s => Ok (TexText s)
  | TexExpr k u nm' a ch =>
      a' ← (fix go (l : list TexNode) : result (list TexNode) :=
              match l with
              | [] => Ok []
              | x :: l' =>
                  x' ← replace_all nm f x; r ← go l'; Ok (x' :: r)
              end) a;
      ch' ← (fix go (l : list TexNode) : result (list TexNode) :=
               match l with
               | [] => Ok []
               | c :: l' =>
                   if named nm c then
                     new ← f c; r ← go l'; Ok (new ++ r)
                   else
                     c' ← replace_all nm f c; r ← go l'; Ok (c' :: r)
               end) ch;
      Ok (TexExpr k u nm' a' ch')
  end.

(** [resolve_imports], lines 333-375.  [fuel] bounds the depth of the
    recursion through included files, as the interpreter's stack does. *)
Fixpoint resolve_imports (fuel : nat) (f : file) : result TexNode :=
  match fuel with
  | 0 => Raise RecursionError
  | S fuel' =>
      let soup := TexSoup_parse 1 (file_read f) in
      let cwd := Py.os_path_dirname (file_name f) in
      soup ← replace_all "subimport"
        (fun _subimport =>
           a0 ← getitem (args _subimport) 0;
           a1 ← getitem (args _subimport) 1;
           path ← add_args a0 a1;
           file ← open path;
           r ← resolve_imports fuel' file;
           Ok (contents r)) soup;
      soup ← replace_all "import"
        (fun _import =>
           a0 ← getitem (args _import) 0;
           s ← arg_str a0;
           file ← open (check_filename s);
           r ← resolve_imports fuel' file;
           Ok (contents r)) soup;
      soup ← replace_all "include"
        (fun _include =>
           a0 ← getitem (args _include) 0;
           s ← arg_str a0;
           file ← open (check_filename s);
           r ← resolve_imports fuel' file;
           Ok (contents r)) soup;
      soup ← replace_all "input"
        (fun _input =>
           a0 ← getitem (args _input) 0;
           s ← arg_str a0;
           file ← open (Py.os_path_join cwd (check_filename s));
           r ← resolve_imports fuel' file;
           Ok [r]) soup;
      Ok (TexSoup_parse 1 (utils.clean_texfile (str soup)))
  end.

(** [make_soup], lines 313-321, and [__init__], lines 13-26. *)
Definition make_soup (fuel : nat) (filepath : string) : result TexNode :=
  file ← open filepath; resolve_imports fuel file.

Definition init (fuel : nat) (filepath source : option string)
  : result TexNode :=
  match source, filepath with
  | Some src, _ =>
      if Py.truthy src then Ok (TexSoup_parse 0 src)
      else match filepath with
           | Some path =>
               if Py.truthy path then make_soup fuel path
               else Raise ValueError
           | None => Raise ValueError
           end
  | None, Some path =>
      if Py.truthy path then make_soup fuel path else Raise ValueError
  | None, None => Raise ValueError
  end.

End files.

End LatexBase.

(** ** tex2beam/classes/latex_presentation.py *)

Module LatexPresentation.
Import TexSoup.

(** [frames], lines 23-25, and [frame_count], lines 27-29. *)
Definition frames (soup : TexNode) : list TexNode := find_all "frame" soup.

Definition frame_count (soup : TexNode) : nat := length (frames soup).

(** [node.text] as [get_frame_contents] reads it: a text fragment is its
    own text, a node has the list of the texts below it. *)
Definition text_of (node : TexNode) : LatexBase.str_or_list :=
  match node with
  | TexText s => LatexBase.Str s
  | TexExpr _ _ _ _ _ => LatexBase.Strs (text node)
  end.

(** [get_frame_contents], lines 117-124. *)
Definition get_frame_contents (frame : TexNode) : option string :=
  if negb (is_TexNode frame) then None
  else
    let content :=
      map (fun node => LatexBase.clean_and_merge (text_of node))
          (contents frame) in
    Some (LatexBase.clean_and_merge (LatexBase.Strs content)).

(** [self.get_frame_contents(frame).split()]. *)
Definition frame_tokens (frame : TexNode) : result (list string) :=
  match get_frame_contents frame with
  | Some s => Ok (Py.split s)
  | None => Raise AttributeError
  end.

(** [[c for c in previous_content if c in content]]. *)
Definition common_content (previous_content content : list string)
  : list string :=
  List.filter (fun c => Py.mem c content) previous_content.

(** [len(common_content) / len(previous_content)], as an exact quotient
    (0 when the divisor is 0, a case the caller excludes).  For frames of
    fewer than 2^50 tokens the double-precision quotient compares with the
    double 0.9 as the exact quotient compares with 9/10. *)
Definition overlap_ratio (previous_content content : list string) : Q :=
  (inject_Z (Z.of_nat (length (common_content previous_content content)))
   / inject_Z (Z.of_nat (length previous_content)))%Q.

(** The body of the loop for [i > 0], lines 137-143: the tree after the
    comparison of the previous frame with the current one. *)
Definition compare_frames (threshold : Q) (previous_frame : option TexNode)
  (previous_content content : list string) (soup : TexNode) : TexNode :=
  match previous_frame with
  | Some previous =>
      if Nat.ltb 0 (length previous_content) then
        if Qle_bool threshold (overlap_ratio previous_content content)
        then delete previous soup
        else soup
      else soup
  | None => soup
  end.

(** [remove_sequential_frames], lines 126-146: the loop over
    [enumerate(self.soup.find_all("frame"))]. *)
Fixpoint remove_loop (threshold : Q) (i : nat) (todo : list TexNode)
  (previous_frame : option TexNode) (previous_content : list string)
  (soup : TexNode) : result TexNode :=
  match todo with
  | [] => Ok soup
  | frame :: rest =>
      content ← frame_tokens frame;
      if Nat.eqb i 0 then
        remove_loop threshold (S i) rest (Some frame) content soup
      else
        let soup :=
          compare_frames threshold previous_frame previous_content content
            soup in
        remove_loop threshold (S i) rest (Some frame) content soup
  end.

Definition remove_sequential_frames (threshold : Q) (soup : TexNode)
  : result TexNode :=
  remove_loop threshold 0 (frames soup) None [] soup.

Definition default_threshold : Q := 9 # 10.

(** [__init__], lines 10-12. *)
Definition init (TexSoup_parse : nat -> string -> TexNode)
  (fs : string -> result string) (fuel : nat) (filepath source : option string)
  : result TexNode :=
  soup ← LatexBase.init TexSoup_parse fs fuel filepath source;
  remove_sequential_frames default_threshold soup.

(** [index not in range(n)]. *)
Definition in_range (index : Z) (n : nat) : bool :=
  Z.leb 0 index && Z.ltb index (Z.of_nat n).

(** [frame], lines 159-172, and [slide], lines 148-157. *)
Definition frame (soup : TexNode) (index : Z) : result (option TexNode) :=
  if negb (in_range index (frame_count soup)) then Ok None
  else f ← getitem (frames soup) (Z.to_nat index); Ok (Some f).

Definition slide (soup : TexNode) (index : Z) : result (option TexNode) :=
  frame soup index.

(** Attribute access on the [frame] argument: a [str] has neither
    [.args] nor a named child. *)
Definition getattr_find (nm : string) (n : TexNode)
  : result (option TexNode) :=
  if is_TexNode n then Ok (find nm n) else Raise AttributeError.

Definition getattr_args (n : TexNode) : result (list TexNode) :=
  if is_TexNode n then Ok (args n) else Raise AttributeError.

(** [get_frame_title], lines 174-210: the body of the [try]. *)
Definition get_frame_title_try (soup frame : TexNode)
  : result (option string) :=
  let self_title := LatexBase.title soup in
  titlepage ← (if LatexBase.title_truthy self_title
               then getattr_find "titlepage" frame else Ok None);
  if LatexBase.title_truthy self_title && bool_decide (is_Some titlepage)
  then Ok (Some (LatexBase.title_str self_title))
  else
    title ← getattr_args frame;
    match title with
    | a0 :: _ =>
        match arg_string a0 with
        | None => Raise TypeError
        | Some title =>
            if Py.contains "\titlepage" title then
              Ok (if LatexBase.title_truthy self_title
                  then Some (LatexBase.title_str self_title) else None)
            else Ok (Some title)
        end
    | [] =>
        title ← getattr_find "frametitle" frame;
        match title with
        | Some title =>
            title ← getitem (text title) 0;
            Ok (Some title)
        | None => Ok None
        end
    end.

Definition get_frame_title (soup frame : TexNode) : option string :=
  try_except (get_frame_title_try soup frame) None.

(** [bullets], lines 31-33, [bullets_per_frame], lines 35-39, and
    [words_per_frame], lines 41-45.  Without a document environment
    [word_count] is [None], which cannot be divided. *)
Definition bullets (soup : TexNode) : list TexNode := find_all "item" soup.

Definition bullets_per_frame (soup : TexNode) : Q :=
  if Nat.eqb (length (frames soup)) 0 then 0%Q
  else (inject_Z (Z.of_nat (length (bullets soup)))
        / inject_Z (Z.of_nat (length (frames soup))))%Q.

Definition words_per_frame (soup : TexNode) : result Q :=
  if Nat.eqb (frame_count soup) 0 then Ok 0%Q
  else match LatexBase.word_count soup with
       | Some n =>
           Ok (inject_Z (Z.of_nat n)
               / inject_Z (Z.of_nat (frame_count soup)))%Q
       | None => Raise TypeError
       end.

(** [frame_titles], lines 47-67.  No call of the [try] block raises:
    [get_frame_title] handles its own exceptions. *)
Definition frame_titles (soup : TexNode) : list string :=
  fold_left
    (fun titles frame =>
       match get_frame_title soup frame with
       | Some title => if Py.truthy title then titles ++ [title] else titles
       | None => titles
       end)
    (frames soup) [].

(** [" ".join([node.string for node in nodes])]: a [TypeError] when the
    string of some node is not a [str]. *)
Definition join_strings (nodes : list TexNode) : result string :=
  if forallb (fun node => bool_decide (is_Some (node_string node))) nodes
  then Ok (Py.join " " (omap node_string nodes))
  else Raise TypeError.

(** [try: content.append(part)  except Exception: pass]. *)
Definition append_try (content : list string) (part : result string)
  : list string :=
  match part with
  | Ok s => content ++ [s]
  | Raise _ => content
  end.

(** [contents], lines 69-115. *)
Definition contents_step (soup : TexNode) (contents : list string)
  (frame : TexNode) : list string :=
  if LatexBase.title_truthy (LatexBase.title soup)
     && bool_decide (is_Some (find "titlepage" frame))
  then
    let content := [LatexBase.title_str (LatexBase.title soup)] in
    let content := append_try content (join_strings (LatexBase.authors soup)) in
    let content :=
      append_try content (join_strings (LatexBase.affiliations soup)) in
    let content :=
      append_try content (join_strings (LatexBase.institutes soup)) in
    contents ++ [LatexBase.clean_and_merge (LatexBase.Strs content)]
  else
    match get_frame_contents frame with
    | Some frame_content =>
        if Py.truthy frame_content then contents ++ [frame_content]
        else contents
    | None => contents
    end.

Definition contents (soup : TexNode) : list string :=
  fold_left (contents_step soup) (frames soup) [].

End LatexPresentation.

(** ** tex2beam/utils.py: the import resolver *)

Module utils_resolve.
Import TexSoup.

Section files.

Variable TexSoup_parse : nat -> string -> TexNode.
Variable fs : string -> result string.

(** [resolve], lines 213-257: the parser is called with its default
    tolerance, every directive gives way to the contents of the resolved
    tree (the path of a [subimport] being the sum of its two arguments,
    as in the resolver of the document class), and the tree is returned
    as it is.  [fuel] bounds the depth of the recursion through included
    files. *)
Fixpoint resolve (fuel : nat) (filehandle : LatexBase.file) : result TexNode :=
  match fuel with
  | 0 => Raise RecursionError
  | S fuel' =>
      let soup := TexSoup_parse 0 (LatexBase.file_read filehandle) in
      let cwd := Py.os_path_dirname (LatexBase.file_name filehandle) in
      soup ← LatexBase.replace_all "subimport"
        (fun _subimport =>
           a0 ← getitem (args _subimport) 0;
           a1 ← getitem (args _subimport) 1;
           path ← LatexBase.add_args a0 a1;
           file ← LatexBase.open fs path;
           r ← resolve fuel' file;
           Ok (contents r)) soup;
      soup ← LatexBase.replace_all "import"
        (fun _import =>
           a0 ← getitem (args _import) 0;
           s ← LatexBase.arg_str a0;
           file ← LatexBase.open fs (LatexBase.check_filename s);
           r ← resolve fuel' file;
           Ok (contents r)) soup;
      soup ← LatexBase.replace_all "include"
        (fun _include =>
           a0 ← getitem (args _include) 0;
           s ← LatexBase.arg_str a0;
           file ← LatexBase.open fs (LatexBase.check_filename s);
           r ← resolve fuel' file;
           Ok (contents r)) soup;
      soup ← LatexBase.replace_all "input"
        (fun _input =>
           a0 ← getitem (args _input) 0;
           s ← LatexBase.arg_str a0;
           file ← LatexBase.open fs
                    (Py.os_path_join cwd (LatexBase.check_filename s));
           r ← resolve fuel' file;
           Ok (contents r)) soup;
      Ok soup
  end.

End files.

End utils_resolve.

(** ** Double-precision arithmetic (numpy) *)

Module np.
Import PrimInt63 PrimFloat.

(** Modelled from the library: the numbers of numpy are not part of the
    repository.  A [float64] is a double of the machine, with its
    arithmetic (round to nearest, ties to even; a division by zero gives
    an infinity or not-a-number and raises nothing); an [int64] is an
    integer of 64 bits, whose sums wrap around. *)
Definition float64 : Set := float.

Definition zero : float64 := 0%float.
Definition two : float64 := 2%float.

Definition wrap_int64 (z : Z) : Z := ((z + 2 ^ 63) mod 2 ^ 64 - 2 ^ 63)%Z.

Definition add_int64 (a b : Z) : Z := wrap_int64 (a + b).

Fixpoint int_of_pos (p : positive) : int :=
  match p with
  | xH => 1%uint63
  | xO p' => lsl (int_of_pos p') 1%uint63
  | xI p' => lor (lsl (int_of_pos p') 1%uint63) 1%uint63
  end.

(** The double nearest to an [int64]. *)
Definition float_of_int64 (z : Z) : float64 :=
  match wrap_int64 z with
  | Z0 => 0%float
  | Zpos p => of_uint63 (int_of_pos p)
  | Zneg p =>
      if Pos.eqb p (2 ^ 63) then (- 9223372036854775808)%float
      else (- of_uint63 (int_of_pos p))%float
  end.

(** [a / b] on two [int64]: the quotient of their doubles. *)
Definition true_divide (a b : Z) : float64 :=
  (float_of_int64 a / float_of_int64 b)%float.

(** [np.rint]: the nearest integer, ties to the even one.  Below [2^52]
    in absolute value it is what adding and taking away [2^52] leaves;
    from there on every double is an integer. *)
Definition two52 : float64 := 4503599627370496%float.

Definition rint (x : float64) : float64 :=
  if (abs x <? two52)%float then
    let r := (abs x + two52 - two52)%float in
    if get_sign x then (- r)%float else r
  else x.

(** [round(x, decimals)] on a numpy double, for [decimals] up to 22 (the
    powers of ten that are doubles): [x] times the power of ten, to the
    nearest integer, divided by the power of ten. *)
Fixpoint power_of_ten (n : nat) : float64 :=
  match n with
  | 0 => 1%float
  | S n' => (10 * power_of_ten n')%float
  end.

Definition round (x : float64) (decimals : nat) : float64 :=
  let f := power_of_ten decimals in
  (rint (x * f) / f)%float.

End np.

(** ** tex2beam/metrics/utils.py *)

Module metrics.

(** [round(x, decimals)]: the nearest multiple of [10^-decimals], ties to
    the even one; the result is kept in lowest terms. *)
Definition round_half_even (x : Q) : Z :=
  let n := Qnum x in
  let d := Zpos (Qden x) in
  let f := (n / d)%Z in
  let r := (n mod d)%Z in
  match (2 * r ?= d)%Z with
  | Lt => f
  | Gt => (f + 1)%Z
  | Eq => if Z.even f then f else (f + 1)%Z
  end.

Definition round (x : Q) (decimals : nat) : Q :=
  let scale := (10 ^ Z.of_nat decimals)%Z in
  Qred (inject_Z (round_half_even (x * inject_Z scale)) / inject_Z scale)%Q.

Record Element : Type := mk_Element { element : string; index : nat }.

Record Score : Type := mk_Score { precision : Q; recall : Q; f1 : Q }.

Record MatchRecord : Type := mk_Match {
  candidate : Element;
  reference : Element;
  score : Score
}.

(** What the similarity scorer returns: one list per measure. *)
Record BertScore : Type := mk_BertScore {
  bs_precision : list Q;
  bs_recall : list Q;
  bs_f1 : list Q
}.

(** One call of the scorer: the predictions and the references. *)
Definition ScorerCall : Type := (list string * list string)%type.

(** [list(dict.fromkeys(xs))]: first occurrences, in order. *)
Fixpoint fromkeys_aux (seen xs : list string) : list string :=
  match xs with
  | [] => []
  | x :: xs' =>
      if Py.mem x seen then fromkeys_aux seen xs'
      else x :: fromkeys_aux (x :: seen) xs'
  end.

Definition fromkeys (xs : list string) : list string := fromkeys_aux [] xs.

(** [enumerate(xs)]. *)
Definition enumerate {A} (xs : list A) : list (nat * A) := imap pair xs.

(** The pairs [(ct, i, rt, j)] of lines 78-81. *)
Definition permutations (candidate_elements reference_elements : list string)
  : list (string * nat * string * nat) :=
  flat_map
    (fun '(i, ct) =>
       map (fun '(j, rt) => (ct, i, rt, j)) (enumerate reference_elements))
    (enumerate candidate_elements).

Section matching.

(** The similarity scorer ([calculate_bert_score]), an external service. *)
Variable calculate_bert_score : list string -> list string -> BertScore.

(** The inner [append], lines 90-101. *)
Definition append_match (decimals : nat) (matches : list MatchRecord)
  (cand : string) (i : nat) (ref : string) (j : nat) (p r f : Q)
  : list MatchRecord :=
  matches ++ [mk_Match (mk_Element cand i) (mk_Element ref j)
                (mk_Score (round p decimals) (round r decimals)
                   (round f decimals))].

(** The loop of lines 103-114 over [enumerate(permutations)]. *)
Fixpoint match_loop (bertscore : BertScore) (f1_threshold : Q)
  (decimals : nat) (k : nat) (perms : list (string * nat * string * nat))
  (matches : list MatchRecord) : result (list MatchRecord) :=
  match perms with
  | [] => Ok matches
  | (cand, i, ref, j) :: rest =>
      if String.eqb cand ref then
        match_loop bertscore f1_threshold decimals (S k) rest
          (append_match decimals matches cand i ref j 1 1 1)
      else
        p ← getitem (bs_precision bertscore) k;
        r ← getitem (bs_recall bertscore) k;
        f ← getitem (bs_f1 bertscore) k;
        if Qle_bool f1_threshold f then
          match_loop bertscore f1_threshold decimals (S k) rest
            (append_match decimals matches cand i ref j p r f)
        else
          match_loop bertscore f1_threshold decimals (S k) rest matches
  end.

(** [match_elements], lines 54-115.  The first component lists the calls
    made to the scorer, in order. *)
Definition match_elements (candidate_elements reference_elements : list string)
  (f1_threshold : Q) (decimals : nat)
  : list ScorerCall * result (list MatchRecord) :=
  let candidate_elements := fromkeys candidate_elements in
  let reference_elements := fromkeys reference_elements in
  let permutations := permutations candidate_elements reference_elements in
  let predictions := map (fun '(cand, _, ref, _) => cand) permutations in
  let references := map (fun '(cand, _, ref, _) => ref) permutations in
  let bertscore := calculate_bert_score predictions references in
  ([(predictions, references)],
   match_loop bertscore f1_threshold decimals 0 permutations []).

End matching.

(** [calculate_confusion_matrix], lines 118-141: [[TP, FP], [FN, TN]]. *)
Definition len_set (xs : list string) : Z :=
  Z.of_nat (size (list_to_set xs : gset string)).

Definition calculate_confusion_matrix (candidate_titles reference_titles
  : list string) (matches : list MatchRecord) : (Z * Z) * (Z * Z) :=
  let TP := Z.of_nat (length matches) in
  let FP := (len_set candidate_titles
             - len_set (map (fun m => element (candidate m)) matches))%Z in
  let FN := (len_set reference_titles
             - len_set (map (fun m => element (reference m)) matches))%Z in
  let TN := 0%Z in
  ((TP, FP), (FN, TN)).

(** Modelled from the spec: [scipy.stats.kendalltau] is an external
    routine; section 4.5 asks for Kendall's tau between the two index
    sequences, undefined when all of one sequence is tied.  This is the
    tau-b statistic in exact arithmetic: concordant minus discordant pairs
    over the square root of (pairs untied in x) * (pairs untied in y). *)
Record tau_stat : Type := mk_tau {
  con_minus_dis : Z;
  untied_x : Z;
  untied_y : Z
}.

Definition sgn_pair (p q : Z * Z) : Z :=
  (Z.sgn (fst q - fst p) * Z.sgn (snd q - snd p))%Z.

Definition differ (a b : Z) : Z := if Z.eqb a b then 0%Z else 1%Z.

Fixpoint tau_pairs (pts : list (Z * Z)) : tau_stat :=
  match pts with
  | [] => mk_tau 0 0 0
  | p :: rest =>
      let t := tau_pairs rest in
      mk_tau
        (con_minus_dis t + fold_right (fun q acc => sgn_pair p q + acc) 0 rest)%Z
        (untied_x t + fold_right (fun q acc => differ (fst p) (fst q) + acc) 0 rest)%Z
        (untied_y t + fold_right (fun q acc => differ (snd p) (snd q) + acc) 0 rest)%Z
  end.

(** A statistic [num / sqrt rad] with [0 < rad], or NaN. *)
Inductive statistic : Type :=
| NaN
| Tau (num : Z) (rad : Z).

Definition kendalltau (x y : list Z) : statistic :=
  let t := tau_pairs (zip x y) in
  if Z.eqb (untied_x t * untied_y t) 0 then NaN
  else Tau (con_minus_dis t) (untied_x t * untied_y t).

(** [round(num / sqrt rad, decimals)], in exact arithmetic. *)
Definition round_abs (s rad : Z) : Z :=
  let f := Z.sqrt (s * s / rad) in
  match (4 * s * s ?= (2 * f + 1) * (2 * f + 1) * rad)%Z with
  | Lt => f
  | Gt => (f + 1)%Z
  | Eq => if Z.even f then f else (f + 1)%Z
  end.

Definition round_tau (num rad : Z) (decimals : nat) : Q :=
  let scale := (10 ^ Z.of_nat decimals)%Z in
  let s := (Z.abs num * scale)%Z in
  Qred (inject_Z (Z.sgn num * round_abs s rad) / inject_Z scale)%Q.

(** [calculate_kendall_tau], lines 170-193, called with no further
    keyword argument for [kendalltau]. *)
Definition calculate_kendall_tau (matches : list MatchRecord)
  (decimals : nat) : Q :=
  if Nat.eqb (length matches) 1 then 1
  else
    let candidate_indices :=
      map (fun m => Z.of_nat (index (candidate m))) matches in
    let reference_indices :=
      map (fun m => Z.of_nat (index (reference m))) matches in
    match kendalltau candidate_indices reference_indices with
    | NaN => 0
    | Tau num rad => round_tau num rad decimals
    end.

Record PrecisionRecallF1 : Type := mk_PRF {
  prf_precision : np.float64;
  prf_recall : np.float64;
  prf_f1 : np.float64
}.

(** [calculate_precision_recall_f1], lines 144-167.  The entries of the
    matrix are 64-bit integers and the scores are doubles; where
    [precision + recall] is zero, [f1] is the integer 0, written here as
    the double. *)
Definition calculate_precision_recall_f1
  (confusion_matrix : (Z * Z) * (Z * Z)) (decimals : nat)
  : PrecisionRecallF1 :=
  let '((TP, FP), (FN, TN)) := confusion_matrix in
  let precision := np.true_divide TP (np.add_int64 TP FP) in
  let recall := np.true_divide TP (np.add_int64 TP FN) in
  let f1 :=
    if PrimFloat.eqb (PrimFloat.add precision recall) np.zero then np.zero
    else PrimFloat.div
           (PrimFloat.mul np.two (PrimFloat.mul precision recall))
           (PrimFloat.add precision recall) in
  mk_PRF (np.round precision decimals) (np.round recall decimals)
    (np.round f1 decimals).

Section scoring.

(** The two scorers, external services, and what they return. *)
Variable Scores : Type.
Variable calculate_bert_score : list string -> list string -> Scores.
Variable calculate_rouge_score : list string -> list string -> Scores.

(** [scoring], lines 17-51: the inner loop fills the row of [pred]. *)
Fixpoint scoring_row (method pred : string) (references : list string)
  (row : gmap string Scores) : result (gmap string Scores) :=
  match references with
  | [] => Ok row
  | ref :: rest =>
      if negb (Py.truthy ref) then Raise ValueError
      else
        let row :=
          if String.eqb (Py.lower method) "bert"
          then <[ref := calculate_bert_score [pred] [ref]]> row
          else if String.eqb (Py.lower method) "rouge"
          then <[ref := calculate_rouge_score [pred] [ref]]> row
          else row in
        scoring_row method pred rest row
  end.

Fixpoint scoring_loop (method : string) (predictions references : list string)
  (scores : gmap string (gmap string Scores))
  : result (gmap string (gmap string Scores)) :=
  match predictions with
  | [] => Ok scores
  | pred :: rest =>
      if negb (Py.truthy pred) then Raise ValueError
      else
        row ← scoring_row method pred references ∅;
        scoring_loop method rest references (<[pred := row]> scores)
  end.

Definition scoring (predictions references : list string) (method : string)
  : result (gmap string (gmap string Scores)) :=
  match predictions, references with
  | [], _ => Raise ValueError
  | _, [] => Raise ValueError
  | _, _ => scoring_loop method predictions references ∅
  end.

End scoring.

Section calculate_metrics.

(** The scorers, and [str(xs)] for a list of strings. *)
Variable Rouge : Type.
Variable calculate_bert_score : list string -> list string -> BertScore.
Variable calculate_rouge_score : list string -> list string -> Rouge.
Variable str_list : list string -> string.

Record Metrics : Type := mk_Metrics {
  metrics_candidates : list string;
  metrics_references : list string;
  metrics_matches : list MatchRecord;
  metrics_confusion_matrix : (Z * Z) * (Z * Z);
  metrics_precision_recall_f1 : PrecisionRecallF1;
  metrics_kendall_tau : Q
}.

Inductive scores_or_metrics : Type :=
| RougeScores (scores : Rouge)
| BertMetrics (metrics : Metrics).

(** [calculate_metrics], lines 196-230; the matcher, the scores and the
    rank correlation are called with their default [decimals], 3. *)
Definition calculate_metrics (candidates references : list string)
  (f1_threshold : Q) (scoring_method : string) : result scores_or_metrics :=
  if String.eqb scoring_method "rouge" then
    Ok (RougeScores
          (calculate_rouge_score [str_list candidates] [str_list references]))
  else
    matches ← (match_elements calculate_bert_score candidates references
                 f1_threshold 3).2;
    let confusion_matrix :=
      calculate_confusion_matrix candidates references matches in
    let precision_recall_f1 :=
      calculate_precision_recall_f1 confusion_matrix 3 in
    let kendall_tau := calculate_kendall_tau matches 3 in
    Ok (BertMetrics
          (mk_Metrics candidates references matches confusion_matrix
             precision_recall_f1 kendall_tau)).

End calculate_metrics.

(** The path of the reference file in [handle_metrics], the function
    [folder_metrics] hands to the folder walk, lines 331-349: [None] where
    the candidate file is skipped for being no LaTeX file. *)
Definition handle_metrics_reference_file (candidate_file reference_folder
  : string) : option string :=
  let basename :=
    if Py.endswith "-presentation-beamer.tex" candidate_file then
      Some (Py.replace "-presentation-beamer.tex" "-presentation.tex"
              (Py.os_path_basename candidate_file))
    else if Py.endswith ".tex" candidate_file then
      Some (Py.replace ".tex" "-presentation.tex"
              (Py.os_path_basename candidate_file))
    else None in
  match basename with
  | None => None
  | Some basename =>
      let reference_subfolder :=
        Py.os_path_join (Py.rstrip_chars "-presentation.tex" basename)
          "presentation-latex" in
      Some (Py.os_path_join (Py.os_path_join reference_folder reference_subfolder)
              basename)
  end.

End metrics.

(** ** tex2beam/metrics/noise.py *)

Module noise.

(** [utils.remove_duplicates], tex2beam/utils.py lines 542-543, which
    every function of this file calls first. *)
Definition remove_duplicates (elements : list string) : list string :=
  metrics.fromkeys elements.

(** [reverse_list], lines 53-55. *)
Definition reverse_list (elements : list string) : list string :=
  rev elements.

Section rng.

(** The random generator [rng], an external service with a state: the
    draw number [k] from a population of [m] indices, alone or as a
    pair, and the shuffle of an array. *)
Variable choice : nat -> nat -> nat.
Variable choice2 : nat -> nat -> nat * nat.
Variable shuffle : list nat -> list nat.

(** [rng.choice(range(m))] and [rng.choice(range(m), 2, replace=False)]:
    a [ValueError] when the population is too small. *)
Definition rng_choice (k m : nat) : result nat :=
  if Nat.eqb m 0 then Raise ValueError else Ok (choice k m).

Definition rng_choice2 (k m : nat) : result (nat * nat) :=
  if Nat.ltb m 2 then Raise ValueError else Ok (choice2 k m).

(** [elements[i] = v] and [elements.pop(i)] for a non-negative index. *)
Definition setitem (elements : list string) (i : nat) (v : string)
  : result (list string) :=
  if Nat.ltb i (length elements) then Ok (<[i := v]> elements)
  else Raise IndexError.

Definition pop (elements : list string) (i : nat) : result (list string) :=
  if Nat.ltb i (length elements) then Ok (delete i elements)
  else Raise IndexError.

(** [swap_random_elements], lines 6-19.  [k] counts the draws made. *)
Fixpoint swap_loop (count k : nat) (elements : list string)
  : result (list string) :=
  match count with
  | 0 => Ok elements
  | S count' =>
      '(i, j) ← rng_choice2 k (length elements);
      x ← getitem elements j;
      y ← getitem elements i;
      elements ← setitem elements i x;
      elements ← setitem elements j y;
      swap_loop count' (S k) elements
  end.

Definition swap_random_elements (elements : list string) (n : Z)
  : result (list string) :=
  let elements := remove_duplicates elements in
  if Z.leb (Z.of_nat (length elements)) n then Ok elements
  else swap_loop (Z.to_nat n) 0 elements.

(** [remove_random_elements], lines 22-33. *)
Fixpoint remove_loop (count k : nat) (elements : list string)
  : result (list string) :=
  match count with
  | 0 => Ok elements
  | S count' =>
      i ← rng_choice k (length elements);
      elements ← pop elements i;
      remove_loop count' (S k) elements
  end.

Definition remove_random_elements (elements : list string) (n : Z)
  : result (list string) :=
  let elements := remove_duplicates elements in
  if Z.leb (Z.of_nat (length elements)) n then Ok elements
  else remove_loop (Z.to_nat n) 0 elements.

(** [replace_random_elements], lines 36-50: the loop over [range(n)],
    [i] being the number of the turn. *)
Fixpoint replace_loop (count i : nat) (idxs : list nat)
  (replacements elements : list string) : result (list string) :=
  match count with
  | 0 => Ok elements
  | S count' =>
      r ← rng_choice i (length replacements);
      v ← getitem replacements r;
      idx ← getitem idxs i;
      elements ← setitem elements idx v;
      replace_loop count' (S i) idxs replacements elements
  end.

Definition replace_random_elements (elements replacements : list string)
  (n : Z) : result (list string) :=
  let elements := remove_duplicates elements in
  let replacements := remove_duplicates replacements in
  let n := if Z.leb (Z.of_nat (length elements)) n
           then Z.of_nat (length elements) else n in
  let idxs := shuffle (seq 0 (Z.to_nat n)) in
  replace_loop (Z.to_nat n) 0 idxs replacements elements.

End rng.

End noise.

(** * Specifications

    The definitions of this part follow the words of the specification;
    the theorems below compare them with the code above. *)

Module Spec.
Import TexSoup.

(** The number of distinct strings of a list. *)
Fixpoint count_distinct (xs : list string) : nat :=
  match xs with
  | [] => 0
  | x :: xs' =>
      if Py.mem x xs' then count_distinct xs' else S (count_distinct xs')
  end.

(** Deduplication of consecutive frames (section 3, Presentation).  The
    word-tokens of a frame; the overlap ratio of two frames: the number of
    the tokens of the earlier frame that occur among the tokens of the
    later one, divided by the number of tokens of the earlier frame;
    whether a frame collapses into the next one: it has tokens and the
    ratio reaches the threshold; and the frames left by one pass over the
    consecutive pairs, the earlier frame of a collapsing pair being
    deleted. *)
Definition tokens (frame : TexNode) : list string :=
  match LatexPresentation.get_frame_contents frame with
  | Some s => Py.split s
  | None => []
  end.

Fixpoint shared (earlier later : list string) : nat :=
  match earlier with
  | [] => 0
  | t :: rest =>
      if bool_decide (t ∈ later) then S (shared rest later)
      else shared rest later
  end.

Definition overlap (earlier later : TexNode) : Q :=
  Z.of_nat (shared (tokens earlier) (tokens later))
  # Pos.of_nat (length (tokens earlier)).

Definition collapses (threshold : Q) (earlier later : TexNode) : bool :=
  bool_decide (tokens earlier ≠ [])
  && Qle_bool threshold (overlap earlier later).

Fixpoint dedup (threshold : Q) (frames : list TexNode) : list TexNode :=
  match frames with
  | [] => []
  | earlier :: rest =>
      match rest with
      | [] => [earlier]
      | later :: _ =>
          if collapses threshold earlier later then dedup threshold rest
          else earlier :: dedup threshold rest
      end
  end.

(** Well-formed trees: every node has an identity of its own, and no
    frame lies inside another frame. *)
Definition unique_ids (soup : TexNode) : Prop :=
  NoDup (omap uid_of (descendants soup)).

Definition flat_frames (soup : TexNode) : Prop :=
  Forall (fun f => find_all "frame" f = []) (find_all "frame" soup).

(** The import resolver (section 4.1).  [Spliced nm repl t t'] says that
    [t'] is [t] where every node named [nm], at any depth, has given way,
    in its parent and at its position, to a list of nodes [new] with
    [repl d new]; all other nodes are kept. *)
Inductive Spliced (nm : string) (repl : TexNode -> list TexNode -> Prop)
  : TexNode -> TexNode -> Prop :=
| Spliced_text (s : string) : Spliced nm repl (TexText s) (TexText s)
| Spliced_expr (k : TexKind) (u : nat) (nm' : string)
    (a a' ch ch' : list TexNode) :
    SplicedArgs nm repl a a'
    -> SplicedChildren nm repl ch ch'
    -> Spliced nm repl (TexExpr k u nm' a ch) (TexExpr k u nm' a' ch')
with SplicedArgs (nm : string) (repl : TexNode -> list TexNode -> Prop)
  : list TexNode -> list TexNode -> Prop :=
| SplicedArgs_nil : SplicedArgs nm repl [] []
| SplicedArgs_cons (x x' : TexNode) (l l' : list TexNode) :
    Spliced nm repl x x'
    -> SplicedArgs nm repl l l'
    -> SplicedArgs nm repl (x :: l) (x' :: l')
with SplicedChildren (nm : string) (repl : TexNode -> list TexNode -> Prop)
  : list TexNode -> list TexNode -> Prop :=
| SplicedChildren_nil : SplicedChildren nm repl [] []
| SplicedChildren_directive (d : TexNode) (new l l' : list TexNode) :
    named nm d = true
    -> repl d new
    -> SplicedChildren nm repl l l'
    -> SplicedChildren nm repl (d :: l) (new ++ l')
| SplicedChildren_other (c c' : TexNode) (l l' : list TexNode) :
    named nm c = false
    -> Spliced nm repl c c'
    -> SplicedChildren nm repl l l'
    -> SplicedChildren nm repl (c :: l) (c' :: l').

(** The path a directive names: [import] and [include] name a file,
    [.tex] added when missing; [input] names one relative to the
    directory of the including file. *)
Definition import_path (d : TexNode) : result string :=
  a0 ← getitem (args d) 0;
  s ← LatexBase.arg_str a0;
  Ok (LatexBase.check_filename s).

Definition input_path (cwd : string) (d : TexNode) : result string :=
  a0 ← getitem (args d) 0;
  s ← LatexBase.arg_str a0;
  Ok (Py.os_path_join cwd (LatexBase.check_filename s)).

(** The file a directive names resolves, by the resolver itself, to the
    node [r]. *)
Definition resolves_to (parse : nat -> string -> TexNode)
  (fs : string -> result string) (fuel : nat)
  (path_of : TexNode -> result string) (d r : TexNode) : Prop :=
  ∃ path file,
    path_of d = Ok path
    ∧ LatexBase.open fs path = Ok file
    ∧ LatexBase.resolve_imports parse fs fuel file = Ok r.

(** The two ways a directive gives way to the resolved node [r]: to the
    children of [r], or to [r] itself. *)
Definition by_children (resolves : TexNode -> TexNode -> Prop)
  (d : TexNode) (new : list TexNode) : Prop :=
  ∃ r, resolves d r ∧ new = contents r.

Definition by_itself (resolves : TexNode -> TexNode -> Prop)
  (d : TexNode) (new : list TexNode) : Prop :=
  ∃ r, resolves d r ∧ new = [r].

(** The source cleaner (section 4.2), line by line.  A comment line has
    the comment marker as its first character; a blank line holds only
    whitespace; a kept line is stripped and its words, the maximal runs of
    characters other than the space, are joined by single spaces. *)
Definition comment_line (line : string) : bool :=
  match line with
  | String c _ => Ascii.eqb c "%"
  | EmptyString => false
  end.

Fixpoint blank_line (line : string) : bool :=
  match line with
  | EmptyString => true
  | String c line' => Py.isspace c && blank_line line'
  end.

Definition kept_line (line : string) : bool :=
  negb (comment_line line) && negb (blank_line line).

Definition words (line : string) : list string :=
  List.filter (fun w => negb (String.eqb w "")) (Py.split_on " " line).

Definition normalize_line (line : string) : string :=
  Py.join " " (words (Py.strip line)).

Definition clean (texfile : string) : string :=
  Py.join Py.nl
    (map normalize_line (List.filter kept_line (Py.split_on Py.newline texfile))).

(** The cleaner as the specification words it: a comment line is one
    whose first non-space character is the comment marker. *)
Definition comment_line_claimed (line : string) : bool :=
  comment_line (Py.lstrip_char " " line).

Definition clean_claimed (texfile : string) : string :=
  Py.join Py.nl
    (map normalize_line
       (List.filter
          (fun line => negb (comment_line_claimed line)
                       && negb (blank_line line))
          (Py.split_on Py.newline texfile))).

(** A command that stops the section scan (section 4.3): a
    bibliography, bibliographystyle or appendix command. *)
Definition is_stop (n : TexNode) : bool :=
  match name n with
  | Some nm =>
      String.eqb nm "bibliography" || String.eqb nm "bibliographystyle"
      || String.eqb nm "appendix"
  | None => false
  end.

(** The record of an exact match of the element [s], at position [i]
    among the candidates and [j] among the references: all scores 1.0. *)
Definition exact_match (s : string) (i j : nat) : metrics.MatchRecord :=
  metrics.mk_Match (metrics.mk_Element s i) (metrics.mk_Element s j)
    (metrics.mk_Score 1 1 1).

(** [q] is the value [num / sqrt rad] (for [0 < rad]). *)
Definition tau_equals (q : Q) (num rad : Z) : bool :=
  Z.eqb (Z.sgn (Qnum q)) (Z.sgn num)
  && Z.eqb (Qnum q * Qnum q * rad) (num * num * (Zpos (Qden q) * Zpos (Qden q))).

(** The integer [k] is nearest to [s / sqrt rad], for [0 <= s] and
    [0 < rad]: [k - 1/2 <= s / sqrt rad <= k + 1/2], squared. *)
Definition nearest_int (k s rad : Z) : Prop :=
  (0 ≤ k ∧ 4 * s * s ≤ (2 * k + 1) * (2 * k + 1) * rad
   ∧ (k = 0 ∨ (2 * k - 1) * (2 * k - 1) * rad ≤ 4 * s * s))%Z.

(** [q] is [num / sqrt rad] rounded to [decimals] places. *)
Definition is_rounded (q : Q) (num rad : Z) (decimals : nat) : Prop :=
  ∃ k : Z,
    nearest_int k (Z.abs num * 10 ^ Z.of_nat decimals) rad
    ∧ (q == inject_Z (Z.sgn num * k) / inject_Z (10 ^ Z.of_nat decimals))%Q.

(** Frame-title resolution (section 4.4), first match wins: (a) the
    document title for a title-page frame; (b) the string of the frame's
    first argument, or the document title when that string holds a
    title-page marker; (c) the first text segment of a nested frametitle;
    (d) nothing.  A failed extraction is "not found". *)
Definition document_title (soup : TexNode) : option string :=
  match LatexBase.title soup with
  | LatexBase.TitleStr s => if String.eqb s "" then None else Some s
  | _ => None
  end.

Definition frame_title (soup frame : TexNode) : option string :=
  match frame with
  | TexText _ => None
  | TexExpr _ _ _ frame_args _ =>
      match document_title soup, find "titlepage" frame with
      | Some t, Some _ => Some t
      | _, _ =>
          match frame_args with
          | a0 :: _ =>
              match arg_string a0 with
              | None => None
              | Some s =>
                  if Py.contains "\titlepage" s then document_title soup
                  else Some s
              end
          | [] =>
              match find "frametitle" frame with
              | Some ft => head (text ft)
              | None => None
              end
          end
      end
  end.

End Spec.

(** * Auxiliary definitions for the proofs *)

Module Aux.
Import TexSoup.

(** Deletion of all the nodes whose identity satisfies [p], at once. *)
Definition keeps_if (p : nat -> bool) (n : TexNode) : bool :=
  match uid_of n with Some u => negb (p u) | None => true end.

Fixpoint delete_if (p : nat -> bool) (soup : TexNode) : TexNode :=
  match soup with
  | TexText s => TexText s
  | TexExpr k id nm a ch =>
      TexExpr k id nm (map (delete_if p) a)
        ((fix go (l : list TexNode) : list TexNode :=
            match l with
            | [] => []
            | c :: l' => if keeps_if p c then delete_if p c :: go l' else go l'
            end) ch)
  end.

Definition among (us : list nat) (u : nat) : bool := existsb (Nat.eqb u) us.

(** The frames a pass deletes, in the order it deletes them. *)
Fixpoint doomed (threshold : Q) (frames : list TexNode) : list TexNode :=
  match frames with
  | [] => []
  | earlier :: rest =>
      match rest with
      | [] => []
      | later :: _ =>
          if Spec.collapses threshold earlier later
          then earlier :: doomed threshold rest
          else doomed threshold rest
      end
  end.

(** The suspended state of the section scan. *)
Definition suspended (st : LatexBase.sec_state) : LatexBase.sec_state :=
  LatexBase.mk_sec_state (LatexBase.secs st) false
    (LatexBase.is_section st) (LatexBase.is_subsection st).

(** The ends of a string. *)
Fixpoint last_char (s : string) : option ascii :=
  match s with
  | EmptyString => None
  | String c EmptyString => Some c
  | String _ s' => last_char s'
  end.

Definition first_char (s : string) : option ascii :=
  match s with
  | EmptyString => None
  | String c _ => Some c
  end.

Definition starts_with_space (s : string) : bool :=
  match s with
  | String c _ => Ascii.eqb c " "
  | EmptyString => false
  end.

(** The titles of all the subsections recorded so far, in order. *)
Definition sub_titles (secs : list LatexBase.Section) : list (option string) :=
  concat (map (fun s => map LatexBase.sub_section (LatexBase.subsections s)) secs).

(** The key of a [bibitem] command among [nodes]. *)
Definition bibitem_key (nodes : list TexNode) (k : string) : Prop :=
  ∃ n a0 a', n ∈ nodes ∧ named "bibitem" n = true ∧ args n = a0 :: a'
             ∧ k = Py.str_opt (arg_string a0).

(** A [bibitem] command without argument among [nodes]. *)
Definition bare_bibitem (nodes : list TexNode) : Prop :=
  ∃ n, n ∈ nodes ∧ named "bibitem" n = true ∧ args n = [].

(** A string without line break and without whitespace at its ends. *)
Definition tidy (s : string) : Prop :=
  Py.contains Py.nl s = false ∧ Py.strip s = s.

(** The pair a match record stands for. *)
Definition pair_of (m : metrics.MatchRecord) : string * nat * string * nat :=
  (metrics.element (metrics.candidate m), metrics.index (metrics.candidate m),
   metrics.element (metrics.reference m), metrics.index (metrics.reference m)).

(** The file a directive names resolves, by the resolver [resolver], to
    the node [r]. *)
Definition resolved_by (resolver : LatexBase.file -> result TexNode)
  (fs : string -> result string) (path_of : TexNode -> result string)
  (d r : TexNode) : Prop :=
  ∃ path file,
    path_of d = Ok path
    ∧ LatexBase.open fs path = Ok file
    ∧ resolver file = Ok r.

(** The file [file] falls into the folder [folder] of
    [utils.group_files_by_folder]. *)
Definition in_folder (parent_path folder file : string) : bool :=
  match utils.folder_of parent_path file with
  | Ok folder' => String.eqb folder' folder
  | Raise _ => false
  end.

End Aux.

(** * Example inputs *)

Module Examples.
Import TexSoup.

(** A bibliography with two entries. *)
Definition bibitem1 : TexNode := cmd 3 "bibitem" [brace 4 "knuth84"].
Definition bibtext1 : TexNode := TexText " D. Knuth. The TeXbook. ".
Definition bibitem2 : TexNode := cmd 5 "bibitem" [brace 6 "lamport94"].
Definition bibtext2 : TexNode := TexText " L. Lamport. LaTeX. ".

Definition bib_soup : TexNode :=
  root [env 1 "thebibliography" [brace 2 "9"]
          [bibitem1; bibtext1; bibitem2; bibtext2]].

(** [\section{A} text \bibliography{refs} \section{B} more]. *)
Definition sectionA : TexNode := cmd 11 "section" [brace 12 "A"].
Definition bibliography_cmd : TexNode := cmd 13 "bibliography" [brace 14 "refs"].
Definition sectionB : TexNode := cmd 15 "section" [brace 16 "B"].

Definition doc_AB : TexNode :=
  root [env 10 "document" []
          [sectionA; TexText "text"; bibliography_cmd; sectionB;
           TexText "more"]].

(** A root file that imports [c.tex] and inputs [b.tex], and a parser
    that knows these three texts. *)
Definition main_tex : string := "\import{c}\input{b}".

Definition toy_parse (tolerance : nat) (text : string) : TexNode :=
  if String.eqb text main_tex then
    root [cmd 21 "import" [brace 22 "c"]; cmd 23 "input" [brace 24 "b"]]
  else root [TexText text].

Definition toy_files : gmap string string :=
  <["src/main.tex" := main_tex]>
    (<["c.tex" := "C"]> (<["src/b.tex" := "B"]> ∅)).

Definition toy_fs (path : string) : result string :=
  match toy_files !! path with
  | Some text => Ok text
  | None => Raise FileNotFoundError
  end.

(** No file at all. *)
Definition no_fs (path : string) : result string := Raise FileNotFoundError.

(** A root file with a [subimport] directive, and a parser that knows
    its text. *)
Definition sub_tex : string := "\subimport{sub/}{part}".

Definition sub_parse (tolerance : nat) (text : string) : TexNode :=
  if String.eqb text sub_tex then
    root [cmd 25 "subimport" [brace 26 "sub/"; brace 27 "part"]]
  else root [TexText text].

Definition sub_fs (path : string) : result string :=
  if String.eqb path "src/sub.tex" then Ok sub_tex
  else if String.eqb path "sub/part" then Ok "P"
  else Raise FileNotFoundError.

(** Decks of frames.  In [three_frames] the first two frames share no
    token and the second is contained in the third; in [deck_90] the first
    frame shares nine of its ten tokens with the second, in [deck_80]
    eight. *)
Definition slide (u : nat) (s : string) : TexNode :=
  env u "frame" [] [TexText s].

Definition deck (frames : list TexNode) : TexNode :=
  root [env 30 "document" [] frames].

Definition frame_x : TexNode := slide 31 "x".
Definition frame_ab : TexNode := slide 32 "a b".
Definition frame_abc : TexNode := slide 33 "a b c".
Definition three_frames : TexNode := deck [frame_x; frame_ab; frame_abc].

Definition frame_ten : TexNode := slide 31 "a b c d e f g h i j".
Definition frame_nine_shared : TexNode := slide 32 "a b c d e f g h i y z".
Definition frame_eight_shared : TexNode := slide 32 "a b c d e f g h y z".
Definition deck_90 : TexNode := deck [frame_ten; frame_nine_shared].
Definition deck_80 : TexNode := deck [frame_ten; frame_eight_shared].

(** A parser that yields a given tree. *)
Definition parse_as (soup : TexNode) (tolerance : nat) (text : string)
  : TexNode := soup.

(** A document with a title, a title-page frame, a frame titled by its
    argument and a frame titled by a nested frametitle. *)
Definition titled_doc : TexNode :=
  root [cmd 40 "title" [brace 41 "On Slides"];
        env 42 "document" []
          [env 43 "frame" [] [cmd 44 "titlepage" []];
           env 45 "frame" [brace 46 "Intro"] [TexText "hello"];
           env 47 "frame" []
             [cmd 48 "frametitle" [brace 49 "Method"]; TexText "world"];
           env 50 "frame" [] [TexText "bare"]]].

(** A frame whose argument holds markup: [\begin{frame}{On
    \textbf{Slides}} text \end{frame}]. *)
Definition markup_frame : TexNode :=
  env 51 "frame"
    [TexExpr TexGroup 52 "BraceGroup" []
       [TexText "On "; cmd 53 "textbf" [brace 54 "Slides"]]]
    [TexText "text"].

(** A deterministic stub for the similarity scorer: every pair scores 0. *)
Definition stub_scorer (predictions references : list string)
  : metrics.BertScore :=
  let zeros := map (fun _ => 0%Q) predictions in
  metrics.mk_BertScore zeros zeros zeros.

(** Three matches whose reference positions cross: (0,0), (1,2), (2,1). *)
Definition crossed_matches : list metrics.MatchRecord :=
  [Spec.exact_match "Intro" 0 0; Spec.exact_match "Method" 1 2;
   Spec.exact_match "Results" 2 1].

End Examples.

(** * Properties *)

Import TexSoup.
Import Aux.

(** ** Frames by index *)

(** C10: [frame(index)], and its alias [slide(index)], never raise; they
    return [None] when [index] is outside [0, frame_count) and the frame of
    that index, in document order, otherwise. *)
Theorem frame_by_index (soup : TexNode) (index : Z) :
  let valid :=
    bool_decide (0 ≤ index < Z.of_nat (LatexPresentation.frame_count soup))%Z in
  LatexPresentation.slide soup index = LatexPresentation.frame soup index
  ∧ LatexPresentation.frame soup index
    = Ok (if valid then LatexPresentation.frames soup !! Z.to_nat index
          else None)
  ∧ (valid = true → is_Some (LatexPresentation.frames soup !! Z.to_nat index)).
Proof.
  intros valid. split; [reflexivity|].
  unfold LatexPresentation.frame, LatexPresentation.in_range, getitem.
  unfold LatexPresentation.frame_count in *. subst valid.
  case_bool_decide as Hr.
  - assert (Hlt : Z.to_nat index < length (LatexPresentation.frames soup))
      by lia.
    apply lookup_lt_is_Some_2 in Hlt as Hs. destruct Hs as [f Hf].
    replace (Z.leb 0 index) with true by (symmetry; apply Z.leb_le; lia).
    replace (Z.ltb index (Z.of_nat (length (LatexPresentation.frames soup))))
      with true by (symmetry; apply Z.ltb_lt; lia).
    simpl. rewrite Hf. split; [reflexivity|eauto].
  - split; [|discriminate].
    destruct (Z.leb 0 index) eqn:H0; simpl; [|reflexivity].
    destruct (Z.ltb index (Z.of_nat (length (LatexPresentation.frames soup))))
      eqn:H1; simpl; [|reflexivity].
    apply Z.leb_le in H0. apply Z.ltb_lt in H1. lia.
Qed.

(** ** The confusion matrix *)

Lemma mem_elem_of (x : string) (xs : list string) :
  Py.mem x xs = true ↔ x ∈ xs.
Proof.
  unfold Py.mem. rewrite existsb_exists. split.
  - intros (y & Hy & He). apply String.eqb_eq in He. subst.
    by apply list_elem_of_In.
  - intros H. exists x. split; [by apply list_elem_of_In|apply String.eqb_refl].
Qed.

Lemma mem_not_elem_of (x : string) (xs : list string) :
  Py.mem x xs = false ↔ x ∉ xs.
Proof.
  rewrite <- mem_elem_of. destruct (Py.mem x xs); split; congruence.
Qed.

Lemma len_set_count_distinct (xs : list string) :
  metrics.len_set xs = Z.of_nat (Spec.count_distinct xs).
Proof.
  unfold metrics.len_set. f_equal.
  induction xs as [|x xs IH]; cbn [Spec.count_distinct].
  - reflexivity.
  - rewrite list_to_set_cons. destruct (Py.mem x xs) eqn:Hm.
    + apply mem_elem_of in Hm. rewrite <- IH. f_equal.
      apply subseteq_union_1_L, singleton_subseteq_l.
      by apply elem_of_list_to_set.
    + apply mem_not_elem_of in Hm.
      rewrite size_union, size_singleton, IH; [lia|].
      apply disjoint_singleton_l. by rewrite elem_of_list_to_set.
Qed.

(** C3: the confusion matrix is [[TP, FP], [FN, TN]] with TP the number
    of match records, FP the number of distinct candidate elements minus
    the number of distinct candidate elements of the matches, FN the same
    for the references, and TN zero. *)
Theorem confusion_matrix_counts (candidate_titles reference_titles
  : list string) (matches : list metrics.MatchRecord) :
  metrics.calculate_confusion_matrix candidate_titles reference_titles matches
  = ((Z.of_nat (length matches),
      Z.of_nat (Spec.count_distinct candidate_titles)
      - Z.of_nat (Spec.count_distinct
                    (map (fun m => metrics.element (metrics.candidate m))
                       matches))),
     (Z.of_nat (Spec.count_distinct reference_titles)
      - Z.of_nat (Spec.count_distinct
                    (map (fun m => metrics.element (metrics.reference m))
                       matches)),
      0))%Z.
Proof.
  unfold metrics.calculate_confusion_matrix.
  by rewrite !len_set_count_distinct.
Qed.

(** ** Frame titles *)

Lemma title_truthy_document_title (soup : TexNode) :
  LatexBase.title_truthy (LatexBase.title soup) = true
  → Spec.document_title soup
    = Some (LatexBase.title_str (LatexBase.title soup)).
Proof.
  unfold Spec.document_title, LatexBase.title_truthy, Py.truthy.
  destruct (LatexBase.title soup) as [|s|]; try discriminate.
  simpl. by destruct (String.eqb s "").
Qed.

Lemma title_falsy_document_title (soup : TexNode) :
  LatexBase.title_truthy (LatexBase.title soup) = false
  → Spec.document_title soup = None.
Proof.
  unfold Spec.document_title, LatexBase.title_truthy, Py.truthy.
  destruct (LatexBase.title soup) as [|s|]; try reflexivity.
  by destruct (String.eqb s "").
Qed.

(** C7: the title of a frame is found in the order (a) document title for
    a title-page frame, (b) string of the frame's argument, with the
    document title when it holds a title-page marker, (c) first text of a
    nested frametitle, (d) none; an extraction that raises gives [None]
    instead of the exception. *)
Theorem get_frame_title_order (soup frame : TexNode) :
  LatexPresentation.get_frame_title soup frame = Spec.frame_title soup frame
  ∧ (∀ e, LatexPresentation.get_frame_title_try soup frame = Raise e
          → LatexPresentation.get_frame_title soup frame = None).
Proof.
  split.
  2:{ intros e He. unfold LatexPresentation.get_frame_title. by rewrite He. }
  unfold LatexPresentation.get_frame_title,
    LatexPresentation.get_frame_title_try, Spec.frame_title.
  destruct frame as [s|k u nm a ch].
  { destruct (LatexBase.title_truthy (LatexBase.title soup)); reflexivity. }
  set (frame := TexExpr k u nm a ch).
  destruct (LatexBase.title_truthy (LatexBase.title soup)) eqn:Ht.
  - rewrite (title_truthy_document_title _ Ht). simpl.
    destruct (find "titlepage" frame) as [tp|] eqn:Hf; simpl.
    + reflexivity.
    + destruct a as [|a0 a']; simpl.
      * destruct (find "frametitle" frame) as [ft|]; simpl; [|reflexivity].
        unfold getitem. rewrite <- head_lookup.
        by destruct (head (text ft)).
      * destruct (arg_string a0) as [t|]; simpl; [|reflexivity].
        by destruct (Py.contains "\titlepage" t).
  - rewrite (title_falsy_document_title _ Ht). simpl.
    destruct a as [|a0 a']; simpl.
    + destruct (find "frametitle" frame) as [ft|]; simpl; [|reflexivity].
      unfold getitem. rewrite <- head_lookup.
      by destruct (head (text ft)).
    + destruct (arg_string a0) as [t|]; simpl; [|reflexivity].
      by destruct (Py.contains "\titlepage" t).
Qed.

(** ** Bibliography entries *)

(** C9 (the code differs): on a bibliography with the entries [knuth84]
    and [lamport94], [bibitems] maps each key to its [bibitem] node twice,
    followed by the nodes up to the next [bibitem]; the specification
    asks for the following nodes with the [bibitem] node not repeated. *)
Theorem bibitems_repeats_bibitem :
  LatexBase.bibitems Examples.bib_soup
  = Ok (<["lamport94" :=
            [Examples.bibitem2; Examples.bibitem2; Examples.bibtext2]]>
          (<["knuth84" :=
               [Examples.bibitem1; Examples.bibitem1; Examples.bibtext1]]>
             ∅)).
Proof. vm_compute. reflexivity. Qed.

Lemma bibitems_loop_app (st : LatexBase.bib_state) (xs ys : list TexNode) :
  LatexBase.bibitems_loop st (xs ++ ys)
  = st' ← LatexBase.bibitems_loop st xs; LatexBase.bibitems_loop st' ys.
Proof.
  revert st. induction xs as [|x xs IH]; intros st; simpl; [reflexivity|].
  destruct (LatexBase.bibitems_step st x) as [st'|e]; simpl; [apply IH|].
  reflexivity.
Qed.

Lemma bibitems_loop_follow (its : gmap string (list TexNode)) (k : string)
  (l follow : list TexNode) :
  Forall (fun n => named "bibitem" n = false) follow
  → its !! k = Some l
  → LatexBase.bibitems_loop (LatexBase.mk_bib_state its true k) follow
    = Ok (LatexBase.mk_bib_state (<[k := l ++ follow]> its) true k).
Proof.
  intros Hf. revert its l.
  induction Hf as [|n follow Hn Hf IH]; intros its l Hl; simpl.
  - rewrite app_nil_r, insert_id by done. reflexivity.
  - unfold LatexBase.bibitems_step. rewrite Hn. simpl. rewrite Hl. simpl.
    rewrite (IH _ (l ++ [n])) by apply lookup_insert_eq.
    rewrite insert_insert_eq, <- app_assoc. reflexivity.
Qed.

(** The same on every bibliography: the entry that starts at a [bibitem]
    node [b] and runs over the nodes [follow] is stored as
    [b :: b :: follow]. *)
Lemma bibitems_loop_entry (st : LatexBase.bib_state) (b a0 : TexNode)
  (a' follow : list TexNode) :
  named "bibitem" b = true
  → args b = a0 :: a'
  → Forall (fun n => named "bibitem" n = false) follow
  → LatexBase.bibitems_loop st (b :: follow)
    = let k := Py.str_opt (arg_string a0) in
      Ok (LatexBase.mk_bib_state
            (<[k := b :: b :: follow]> (LatexBase.items st)) true k).
Proof.
  intros Hb Ha Hf. cbn [LatexBase.bibitems_loop].
  unfold LatexBase.bibitems_step. rewrite Hb, Ha. simpl.
  rewrite lookup_insert_eq. simpl.
  rewrite (bibitems_loop_follow _ _ [b; b]) by
    (try done; apply lookup_insert_eq).
  by rewrite !insert_insert_eq.
Qed.

(** ** The element matcher *)

Lemma round_half_even_inject (z : Z) :
  metrics.round_half_even (inject_Z z) = z.
Proof.
  unfold metrics.round_half_even, inject_Z. simpl.
  rewrite Z.div_1_r, Z.mod_1_r. reflexivity.
Qed.

Lemma round_one (decimals : nat) : metrics.round 1 decimals = 1%Q.
Proof.
  unfold metrics.round.
  set (scale := (10 ^ Z.of_nat decimals)%Z).
  assert (Hs : (0 < scale)%Z) by (apply Z.pow_pos_nonneg; lia).
  assert (Hx : (1 * inject_Z scale = inject_Z (1 * scale))%Q) by reflexivity.
  rewrite Hx, round_half_even_inject, Z.mul_1_l.
  change 1%Q with (Qred 1). apply Qred_complete.
  apply Qmult_inv_r. unfold Qeq, inject_Z. simpl. lia.
Qed.

Lemma exact_record (decimals : nat) (ms : list metrics.MatchRecord)
  (c : string) (i j : nat) :
  metrics.append_match decimals ms c i c j 1 1 1
  = ms ++ [Spec.exact_match c i j].
Proof. unfold metrics.append_match. by rewrite round_one. Qed.

Lemma match_loop_keeps (bs : metrics.BertScore) (thr : Q) (d k : nat)
  (perms : list (string * nat * string * nat))
  (acc ms : list metrics.MatchRecord) (m : metrics.MatchRecord) :
  metrics.match_loop bs thr d k perms acc = Ok ms → m ∈ acc → m ∈ ms.
Proof.
  revert k acc. induction perms as [|[[[c i] r] j] perms IH];
    intros k acc Hl Hm; simpl in Hl.
  - by inversion Hl; subst.
  - destruct (String.eqb c r).
    + eapply IH; [exact Hl|]. unfold metrics.append_match. set_solver.
    + destruct (getitem (metrics.bs_precision bs) k); simpl in Hl; [|done].
      destruct (getitem (metrics.bs_recall bs) k); simpl in Hl; [|done].
      destruct (getitem (metrics.bs_f1 bs) k) as [f|]; simpl in Hl; [|done].
      destruct (Qle_bool thr f).
      * eapply IH; [exact Hl|]. unfold metrics.append_match. set_solver.
      * eapply IH; eauto.
Qed.

Lemma match_loop_exact (bs : metrics.BertScore) (thr : Q) (d k : nat)
  (perms : list (string * nat * string * nat))
  (acc ms : list metrics.MatchRecord) (c : string) (i j : nat) :
  metrics.match_loop bs thr d k perms acc = Ok ms
  → (c, i, c, j) ∈ perms
  → Spec.exact_match c i j ∈ ms.
Proof.
  revert k acc. induction perms as [|[[[c' i'] r'] j'] perms IH];
    intros k acc Hl Hin; simpl in Hl.
  - by apply elem_of_nil in Hin.
  - apply elem_of_cons in Hin as [Heq|Hin].
    + inversion Heq; subst. rewrite String.eqb_refl in Hl.
      eapply match_loop_keeps; [exact Hl|].
      rewrite exact_record. set_solver.
    + destruct (String.eqb c' r'); [by eapply IH|].
      destruct (getitem (metrics.bs_precision bs) k); simpl in Hl; [|done].
      destruct (getitem (metrics.bs_recall bs) k); simpl in Hl; [|done].
      destruct (getitem (metrics.bs_f1 bs) k) as [f|]; simpl in Hl; [|done].
      destruct (Qle_bool thr f); by eapply IH.
Qed.

Lemma match_loop_total (bs : metrics.BertScore) (thr : Q) (d k : nat)
  (perms : list (string * nat * string * nat))
  (acc : list metrics.MatchRecord) :
  (k + length perms ≤ length (metrics.bs_precision bs))%nat
  → (k + length perms ≤ length (metrics.bs_recall bs))%nat
  → (k + length perms ≤ length (metrics.bs_f1 bs))%nat
  → ∃ ms, metrics.match_loop bs thr d k perms acc = Ok ms.
Proof.
  revert k acc. induction perms as [|[[[c i] r] j] perms IH];
    intros k acc Hp Hr Hf; simpl in *.
  - eauto.
  - destruct (String.eqb c r); [apply IH; lia|].
    unfold getitem.
    destruct (lookup_lt_is_Some_2 (metrics.bs_precision bs) k) as [p ->];
      [lia|].
    destruct (lookup_lt_is_Some_2 (metrics.bs_recall bs) k) as [r' ->];
      [lia|].
    destruct (lookup_lt_is_Some_2 (metrics.bs_f1 bs) k) as [f ->]; [lia|].
    simpl. destruct (Qle_bool thr f); apply IH; lia.
Qed.

Lemma elem_of_permutations (cs rs : list string) (c r : string) (i j : nat) :
  cs !! i = Some c → rs !! j = Some r
  → (c, i, r, j) ∈ metrics.permutations cs rs.
Proof.
  intros Hc Hr. unfold metrics.permutations, metrics.enumerate.
  apply list_elem_of_In, in_flat_map. exists (i, c). split.
  - apply list_elem_of_In, elem_of_lookup_imap. eauto.
  - apply (in_map (fun '(j, rt) => (c, i, rt, j)) _ (j, r)).
    apply list_elem_of_In, elem_of_lookup_imap. eauto.
Qed.

(** C4, as amended: every pair of equal strings is recorded with
    precision, recall and f1 equal to 1.0, whatever the scorer says of it;
    the scorer itself is called exactly once in every run, on all the
    pairs of the cross product, the equal ones included.  Matching
    ["Introduction"] against ["Introduction"] yields the one record with
    scores 1.0, after one call of the scorer on that pair. *)
Theorem match_elements_exact_pairs
  (scorer : list string → list string → metrics.BertScore)
  (candidate_elements reference_elements : list string)
  (f1_threshold : Q) (decimals : nat) :
  let cs := metrics.fromkeys candidate_elements in
  let rs := metrics.fromkeys reference_elements in
  let perms := metrics.permutations cs rs in
  let predictions := map (fun '(cand, _, _, _) => cand) perms in
  let references := map (fun '(_, _, ref, _) => ref) perms in
  let run :=
    metrics.match_elements scorer candidate_elements reference_elements
      f1_threshold decimals in
  run.1 = [(predictions, references)]
  ∧ (∀ ms, run.2 = Ok ms
       → ∀ c i j, cs !! i = Some c → rs !! j = Some c
         → Spec.exact_match c i j ∈ ms)
  ∧ ((length perms ≤ length (metrics.bs_precision (scorer predictions references))
      ∧ length perms ≤ length (metrics.bs_recall (scorer predictions references))
      ∧ length perms ≤ length (metrics.bs_f1 (scorer predictions references)))%nat
     → ∃ ms, run.2 = Ok ms)
  ∧ metrics.match_elements scorer ["Introduction"] ["Introduction"]
      f1_threshold decimals
    = ([(["Introduction"], ["Introduction"])],
       Ok [Spec.exact_match "Introduction" 0 0]).
Proof.
  intros cs rs perms predictions references run.
  split; [reflexivity|]. split; [|split].
  - intros ms Hrun c i j Hc Hr.
    eapply match_loop_exact; [exact Hrun|].
    by apply elem_of_permutations.
  - intros (Hp & Hr & Hf). by apply match_loop_total.
  - unfold metrics.match_elements. cbn -[metrics.append_match].
    by rewrite exact_record.
Qed.

(** C4, counterexample: with a stub scorer, matching ["Introduction"]
    against ["Introduction"] calls the scorer once, on that pair: the
    call count is one, not zero. *)
Lemma match_elements_calls_scorer :
  let run :=
    metrics.match_elements Examples.stub_scorer ["Introduction"]
      ["Introduction"] (6 # 10) 3 in
  run.1 = [(["Introduction"], ["Introduction"])]
  ∧ length run.1 = 1
  ∧ run.2 = Ok [Spec.exact_match "Introduction" 0 0].
Proof. vm_compute. repeat split; reflexivity. Qed.

(** ** Rank correlation *)

Lemma round_abs_nearest (s rad : Z) :
  (0 ≤ s)%Z → (0 < rad)%Z → Spec.nearest_int (metrics.round_abs s rad) s rad.
Proof.
  intros Hs Hrad. unfold metrics.round_abs, Spec.nearest_int.
  set (n := (s * s / rad)%Z).
  assert (Hn : (0 ≤ n)%Z) by (apply Z.div_pos; nia).
  pose proof (Z.sqrt_spec n Hn) as Hsq. cbv zeta in Hsq.
  pose proof (Z.sqrt_nonneg n) as Hf.
  pose proof (Z.mul_div_le (s * s) rad Hrad) as Hlo. fold n in Hlo.
  pose proof (Z.mul_succ_div_gt (s * s) rad Hrad) as Hhi. fold n in Hhi.
  set (f := Z.sqrt n) in *.
  assert (H1 : (f * f * rad ≤ s * s)%Z) by nia.
  assert (H2 : (s * s < (f + 1) * (f + 1) * rad)%Z) by nia.
  destruct (Z.compare_spec (4 * s * s) ((2 * f + 1) * (2 * f + 1) * rad))
    as [He|Hl|Hg].
  - destruct (Z.even f).
    + split; [lia|]. split; [lia|].
      destruct (Z.eq_dec f 0%Z) as [?|?]; [by left|right; nia].
    + split; [lia|]. split; [nia|]. right. nia.
  - split; [lia|]. split; [lia|].
    destruct (Z.eq_dec f 0%Z) as [?|?]; [by left|right; nia].
  - split; [lia|]. split; [nia|]. right. nia.
Qed.

Lemma untied_nonneg (pts : list (Z * Z)) :
  (0 ≤ metrics.untied_x (metrics.tau_pairs pts)
   ∧ 0 ≤ metrics.untied_y (metrics.tau_pairs pts))%Z.
Proof.
  assert (Hd : ∀ (g : Z * Z → Z) (p : Z * Z) (l : list (Z * Z)),
    (0 ≤ fold_right (fun q acc => metrics.differ (g p) (g q) + acc) 0 l)%Z).
  { intros g p l. induction l as [|q l IH]; simpl; [lia|].
    unfold metrics.differ at 1. destruct (Z.eqb (g p) (g q)); lia. }
  induction pts as [|p pts [IHx IHy]]; simpl; [lia|].
  pose proof (Hd fst p pts). pose proof (Hd snd p pts). lia.
Qed.

Lemma all_tied_fold (g : Z * Z → Z) (c : Z) (pts : list (Z * Z)) :
  Forall (fun p => g p = c) pts
  → fold_right (fun q acc => metrics.differ c (g q) + acc)%Z 0%Z pts = 0%Z.
Proof.
  induction 1 as [|q pts Hq Hpts IH]; simpl; [reflexivity|].
  unfold metrics.differ at 1. rewrite Hq, Z.eqb_refl, IH. reflexivity.
Qed.

Lemma all_tied_x (c : Z) (pts : list (Z * Z)) :
  Forall (fun p => fst p = c) pts
  → metrics.untied_x (metrics.tau_pairs pts) = 0%Z.
Proof.
  induction 1 as [|p pts Hp Hpts IH]; simpl; [reflexivity|].
  rewrite IH, Hp, (all_tied_fold fst c pts Hpts). reflexivity.
Qed.

Lemma all_tied_y (c : Z) (pts : list (Z * Z)) :
  Forall (fun p => snd p = c) pts
  → metrics.untied_y (metrics.tau_pairs pts) = 0%Z.
Proof.
  induction 1 as [|p pts Hp Hpts IH]; simpl; [reflexivity|].
  rewrite IH, Hp, (all_tied_fold snd c pts Hpts). reflexivity.
Qed.

Lemma zip_all_fst (c : Z) (x y : list Z) :
  Forall (eq c) x → Forall (fun p : Z * Z => fst p = c) (zip x y).
Proof.
  intros Hx. revert y. induction Hx as [|a x Ha Hx IH]; intros [|b y];
    simpl; constructor; auto.
Qed.

Lemma zip_all_snd (c : Z) (x y : list Z) :
  Forall (eq c) y → Forall (fun p : Z * Z => snd p = c) (zip x y).
Proof.
  intros Hy. revert x. induction Hy as [|b y Hb Hy IH]; intros [|a x];
    simpl; constructor; auto.
Qed.

(** C5, as amended: the rank correlation is exactly 1.0 for exactly one
    match; for any other number of matches it is 0.0 when Kendall's tau of
    the two index sequences is undefined -- as it is when all the indices
    of one sequence are tied -- and otherwise that tau rounded to
    [decimals] (by default three) decimal places. *)
Theorem kendall_tau_cases (matches : list metrics.MatchRecord)
  (decimals : nat) :
  let x := map (fun m => Z.of_nat (metrics.index (metrics.candidate m)))
             matches in
  let y := map (fun m => Z.of_nat (metrics.index (metrics.reference m)))
             matches in
  let tau := metrics.calculate_kendall_tau matches decimals in
  (length matches = 1 → tau = 1%Q)
  ∧ (length matches ≠ 1 → metrics.kendalltau x y = metrics.NaN → tau = 0%Q)
  ∧ (length matches ≠ 1
     → ∀ num rad, metrics.kendalltau x y = metrics.Tau num rad
       → (0 < rad)%Z ∧ tau = metrics.round_tau num rad decimals
         ∧ Spec.is_rounded tau num rad decimals)
  ∧ ((∃ c, Forall (eq c) x) ∨ (∃ c, Forall (eq c) y)
     → metrics.kendalltau x y = metrics.NaN).
Proof.
  intros x y tau. subst tau. unfold metrics.calculate_kendall_tau.
  fold x y.
  assert (Hpos : ∀ num rad,
    metrics.kendalltau x y = metrics.Tau num rad → (0 < rad)%Z).
  { intros num rad Hk. unfold metrics.kendalltau in Hk.
    destruct (Z.eqb_spec
      (metrics.untied_x (metrics.tau_pairs (zip x y))
       * metrics.untied_y (metrics.tau_pairs (zip x y))) 0); [done|].
    inversion Hk; subst.
    pose proof (untied_nonneg (zip x y)) as [? ?]. nia. }
  split; [|split; [|split]].
  - intros ->. reflexivity.
  - intros Hn Hk. apply Nat.eqb_neq in Hn. by rewrite Hn, Hk.
  - intros Hn num rad Hk. apply Nat.eqb_neq in Hn. rewrite Hn, Hk.
    pose proof (Hpos _ _ Hk) as Hrad.
    split; [done|]. split; [reflexivity|].
    exists (metrics.round_abs (Z.abs num * 10 ^ Z.of_nat decimals) rad).
    split.
    + apply round_abs_nearest; [|done].
      assert (0 < 10 ^ Z.of_nat decimals)%Z
        by (apply Z.pow_pos_nonneg; lia).
      nia.
    + unfold metrics.round_tau. apply Qred_correct.
  - intros [[c Hc]|[c Hc]]; unfold metrics.kendalltau.
    + by rewrite (all_tied_x c _ (zip_all_fst c x y Hc)).
    + rewrite (all_tied_y c _ (zip_all_snd c x y Hc)), Z.mul_0_r.
      reflexivity.
Qed.

(** C5, counterexample: for the matches at positions (0,0), (1,2), (2,1)
    Kendall's tau is 1/3, and the value returned is 0.333, which is not
    that tau. *)
Lemma kendall_tau_returns_rounded :
  let x := map (fun m => Z.of_nat (metrics.index (metrics.candidate m)))
             Examples.crossed_matches in
  let y := map (fun m => Z.of_nat (metrics.index (metrics.reference m)))
             Examples.crossed_matches in
  metrics.kendalltau x y = metrics.Tau 1 9
  ∧ Spec.tau_equals (1 # 3) 1 9 = true
  ∧ metrics.calculate_kendall_tau Examples.crossed_matches 3 = 333 # 1000
  ∧ Spec.tau_equals (333 # 1000) 1 9 = false.
Proof. vm_compute. repeat split; reflexivity. Qed.

(** ** Section extraction *)

Lemma map_update_last {A B} (g : A → B) (f : A → A) (xs : list A) :
  (∀ x, g (f x) = g x) → map g (LatexBase.update_last f xs) = map g xs.
Proof.
  intros Hg. induction xs as [|x [|y xs] IH]; simpl in *; [done| |].
  - by rewrite Hg.
  - by rewrite IH.
Qed.

Lemma append_titles (st : LatexBase.sec_state) (data : string) :
  map LatexBase.section (LatexBase.secs (LatexBase.append st data))
  = map LatexBase.section (LatexBase.secs st).
Proof.
  unfold LatexBase.append.
  destruct (LatexBase.is_section st); simpl.
  - by apply map_update_last.
  - destruct (LatexBase.is_subsection st); simpl; [|done].
    by apply map_update_last.
Qed.

Lemma append_parse (st : LatexBase.sec_state) (data : string) :
  LatexBase.parse (LatexBase.append st data) = LatexBase.parse st.
Proof.
  unfold LatexBase.append.
  destruct (LatexBase.is_section st); [done|].
  by destruct (LatexBase.is_subsection st).
Qed.

(** The titles of the sections grow by one at each [section] command and
    at no other node. *)
Lemma sections_step_titles (st : LatexBase.sec_state) (node : TexNode) :
  map LatexBase.section (LatexBase.secs (LatexBase.sections_step st node))
  = map LatexBase.section (LatexBase.secs st)
    ++ (if named "section" node then [node_string node] else []).
Proof.
  unfold LatexBase.sections_step.
  destruct (named "section" node) eqn:Hs; simpl.
  - by rewrite map_app.
  - rewrite app_nil_r. destruct (LatexBase.parse st); simpl; [|done].
    destruct (named "subsection" node); simpl.
    + by apply map_update_last.
    + destruct node as [s|k u nm a ch]; [apply append_titles|].
      repeat (match goal with
              | |- context [if ?b then _ else _] => destruct b
              end; try apply append_titles; try done).
Qed.

Lemma sections_loop_titles (nodes : list TexNode) (st : LatexBase.sec_state) :
  map LatexBase.section (LatexBase.secs (fold_left LatexBase.sections_step nodes st))
  = map LatexBase.section (LatexBase.secs st)
    ++ map node_string (List.filter (named "section") nodes).
Proof.
  revert st. induction nodes as [|n nodes IH]; intros st; simpl.
  - by rewrite app_nil_r.
  - rewrite IH, sections_step_titles.
    destruct (named "section" n); simpl; by rewrite <- ?app_assoc, ?app_nil_r.
Qed.

(** A [section] command is handled the same whether or not the scan was
    suspended before it. *)
Lemma sections_step_section (st : LatexBase.sec_state) (b : bool)
  (node : TexNode) :
  named "section" node = true
  → LatexBase.sections_step
      (LatexBase.mk_sec_state (LatexBase.secs st) b
         (LatexBase.is_section st) (LatexBase.is_subsection st)) node
    = LatexBase.sections_step st node.
Proof. intros Hs. unfold LatexBase.sections_step. by rewrite Hs. Qed.

Lemma sections_step_stop (st : LatexBase.sec_state) (stop : TexNode) :
  Spec.is_stop stop = true
  → LatexBase.sections_step st stop = suspended st.
Proof.
  destruct stop as [s|k u nm a ch]; [done|]. intros Hm.
  assert (Hnm : nm = "bibliography" ∨ nm = "bibliographystyle"
                ∨ nm = "appendix").
  { unfold Spec.is_stop in Hm. cbn [name] in Hm.
    apply orb_true_iff in Hm as [Hm|Hm];
      [apply orb_true_iff in Hm as [Hm|Hm]|];
      apply String.eqb_eq in Hm; tauto. }
  unfold LatexBase.sections_step, suspended.
  destruct st as [secs [|] is_sec is_sub];
    destruct Hnm as [-> | [-> | ->]]; reflexivity.
Qed.

Lemma sections_skip_suspended (mid : list TexNode) (st : LatexBase.sec_state) :
  Forall (fun n => named "section" n = false) mid
  → fold_left LatexBase.sections_step mid (suspended st) = suspended st.
Proof.
  induction 1 as [|n mid Hn Hmid IH]; simpl; [done|].
  unfold LatexBase.sections_step at 2. rewrite Hn. simpl. exact IH.
Qed.

Lemma suspended_secs (st : LatexBase.sec_state) :
  suspended st
  = LatexBase.mk_sec_state (LatexBase.secs st) false
      (LatexBase.is_section st) (LatexBase.is_subsection st).
Proof. reflexivity. Qed.

(** X30: a bibliography, bibliographystyle or appendix command suspends
    the scan only until the next section command: the nodes between it
    and that section add nothing to the result, and the scan goes on from
    that section as if the stop command and those nodes were not there;
    up to the end of the document when no section follows.  The sections
    returned are, in order, one for each section command of the body,
    those after a stop command included. *)
Theorem sections_suspended_until_next_section (pre mid rest : list TexNode)
  (stop sec : TexNode) :
  Spec.is_stop stop = true
  → Forall (fun n => named "section" n = false) mid
  → named "section" sec = true
  → LatexBase.sections_loop (pre ++ stop :: mid ++ sec :: rest)
    = LatexBase.sections_loop (pre ++ sec :: rest)
    ∧ LatexBase.secs (LatexBase.sections_loop (pre ++ stop :: mid))
      = LatexBase.secs (LatexBase.sections_loop pre)
    ∧ map LatexBase.section
        (LatexBase.secs
           (LatexBase.sections_loop (pre ++ stop :: mid ++ sec :: rest)))
      = map node_string
          (List.filter (named "section") (pre ++ sec :: rest)).
Proof.
  intros Hstop Hmid Hsec. unfold LatexBase.sections_loop.
  set (st := fold_left LatexBase.sections_step pre LatexBase.sections_init).
  assert (Heq :
    fold_left LatexBase.sections_step (pre ++ stop :: mid ++ sec :: rest)
      LatexBase.sections_init
    = fold_left LatexBase.sections_step (pre ++ sec :: rest)
        LatexBase.sections_init).
  { rewrite !fold_left_app. fold st. simpl.
    rewrite fold_left_app, (sections_step_stop _ _ Hstop),
      (sections_skip_suspended _ _ Hmid).
    simpl. rewrite suspended_secs, (sections_step_section _ _ _ Hsec).
    reflexivity. }
  split; [exact Heq|]. split.
  - rewrite fold_left_app. fold st. simpl.
    by rewrite (sections_step_stop _ _ Hstop),
      (sections_skip_suspended _ _ Hmid).
  - rewrite Heq. apply (sections_loop_titles _ LatexBase.sections_init).
Qed.

(** X30, witness: the body [\section{A} text \bibliography{refs}
    \section{B} more]. *)
Lemma sections_suspended_witness :
  LatexBase.sections_loop
    ([Examples.sectionA; TexText "A"; TexText "text"]
     ++ Examples.bibliography_cmd
        :: [TexText "refs"] ++ Examples.sectionB :: [TexText "B"; TexText "more"])
  = LatexBase.sections_loop
      ([Examples.sectionA; TexText "A"; TexText "text"]
       ++ Examples.sectionB :: [TexText "B"; TexText "more"])
  ∧ LatexBase.secs
      (LatexBase.sections_loop
         ([Examples.sectionA; TexText "A"; TexText "text"]
          ++ Examples.bibliography_cmd :: [TexText "refs"]))
    = LatexBase.secs
        (LatexBase.sections_loop
           [Examples.sectionA; TexText "A"; TexText "text"])
  ∧ map LatexBase.section
      (LatexBase.secs
         (LatexBase.sections_loop
            ([Examples.sectionA; TexText "A"; TexText "text"]
             ++ Examples.bibliography_cmd
                :: [TexText "refs"] ++ Examples.sectionB
                   :: [TexText "B"; TexText "more"])))
    = map node_string
        (List.filter (named "section")
           ([Examples.sectionA; TexText "A"; TexText "text"]
            ++ Examples.sectionB :: [TexText "B"; TexText "more"])).
Proof.
  apply (sections_suspended_until_next_section
           [Examples.sectionA; TexText "A"; TexText "text"] [TexText "refs"]
           [TexText "B"; TexText "more"] Examples.bibliography_cmd
           Examples.sectionB).
  - reflexivity.
  - repeat constructor.
  - reflexivity.
Defined.

(** C2 (the code differs): the document [\section{A} text
    \bibliography{refs} \section{B} more] yields two sections, A and B,
    where the specification asks for the one section A: the flag that the
    bibliography command clears is set again at the next section command,
    so B, which comes after the bibliography command, is not excluded. *)
Lemma sections_after_bibliography :
  descendants Examples.doc_AB
  = [env 10 "document" []
       [Examples.sectionA; TexText "text"; Examples.bibliography_cmd;
        Examples.sectionB; TexText "more"];
     Examples.sectionA; TexText "A"; TexText "text";
     Examples.bibliography_cmd; TexText "refs";
     Examples.sectionB; TexText "B"; TexText "more"]
  ∧ map LatexBase.section (LatexBase.sections Examples.doc_AB)
    = [Some "A"; Some "B"]
  ∧ length (LatexBase.sections Examples.doc_AB) = 2.
Proof. vm_compute. repeat split; reflexivity. Qed.

(** ** The source cleaner *)

Lemma startswith_comment (line : string) :
  Py.startswith "%" line = Spec.comment_line line.
Proof.
  destruct line as [|c line]; [reflexivity|].
  unfold Py.startswith, Spec.comment_line. cbn [String.prefix].
  destruct (ascii_dec "%" c) as [<-|Hne].
  - by destruct line.
  - symmetry. apply Ascii.eqb_neq. congruence.
Qed.

Lemma nonempty_length (line : string) :
  Nat.ltb 0 (String.length line) = negb (String.eqb line "").
Proof. by destruct line. Qed.

Lemma lstrip_blank (s : string) :
  Py.lstrip s = "" ↔ Spec.blank_line s = true.
Proof.
  induction s as [|c s IH]; simpl; [done|].
  destruct (Py.isspace c); simpl; [exact IH|]. split; discriminate.
Qed.

Lemma rstrip_blank (s : string) :
  Py.rstrip s = "" ↔ Spec.blank_line s = true.
Proof.
  induction s as [|c s IH]; simpl; [done|].
  destruct (Py.rstrip s) as [|c' r] eqn:Hr.
  - destruct (Py.isspace c); simpl.
    + split; [intros _; by apply IH|done].
    + split; discriminate.
  - split; [discriminate|].
    intros [_ Hb]%andb_true_iff. apply IH in Hb. discriminate.
Qed.

Lemma blank_lstrip (s : string) :
  Spec.blank_line (Py.lstrip s) = Spec.blank_line s.
Proof.
  induction s as [|c s IH]; simpl; [done|].
  destruct (Py.isspace c) eqn:Hc; simpl; [exact IH|]. by rewrite Hc.
Qed.

Lemma strip_blank (s : string) :
  String.eqb (Py.strip s) "" = Spec.blank_line s.
Proof.
  unfold Py.strip. rewrite <- (blank_lstrip s).
  destruct (Spec.blank_line (Py.lstrip s)) eqn:Hb.
  - apply String.eqb_eq. by apply rstrip_blank.
  - apply String.eqb_neq. intros He%rstrip_blank. congruence.
Qed.

Lemma lstrip_first (s : string) (c : ascii) :
  first_char (Py.lstrip s) = Some c → Py.isspace c = false.
Proof.
  induction s as [|c' s IH]; simpl; [done|].
  destruct (Py.isspace c') eqn:Hc; [exact IH|].
  simpl. intros [= <-]. exact Hc.
Qed.

Lemma rstrip_first (s : string) (c : ascii) :
  first_char s = Some c → Py.isspace c = false
  → first_char (Py.rstrip s) = Some c.
Proof.
  destruct s as [|c' s]; simpl; [done|]. intros [= ->] Hc.
  destruct (Py.rstrip s); [by rewrite Hc|done].
Qed.

Lemma rstrip_last (s : string) (c : ascii) :
  last_char (Py.rstrip s) = Some c → Py.isspace c = false.
Proof.
  induction s as [|c' s IH]; simpl; [done|].
  destruct (Py.rstrip s) as [|c'' r] eqn:Hr.
  - destruct (Py.isspace c') eqn:Hc; simpl; [done|]. by intros [= <-].
  - exact IH.
Qed.

Lemma isspace_space (c : ascii) : Py.isspace c = false → c ≠ " "%char.
Proof. intros Hc ->. discriminate. Qed.

(** The ends of a stripped, non-empty line are not spaces. *)
Lemma strip_ends (line : string) :
  Py.strip line ≠ ""
  → (∃ c, first_char (Py.strip line) = Some c ∧ c ≠ " "%char)
    ∧ (∃ c, last_char (Py.strip line) = Some c ∧ c ≠ " "%char).
Proof.
  intros Hne. unfold Py.strip in *. split.
  - destruct (Py.lstrip line) as [|c t] eqn:Hl; [done|].
    assert (Hc : Py.isspace c = false)
      by (apply (lstrip_first line); by rewrite Hl).
    exists c. split; [by apply rstrip_first|by apply isspace_space].
  - destruct (last_char (Py.rstrip (Py.lstrip line))) as [c|] eqn:Hlast.
    + exists c. split; [done|].
      apply isspace_space. by apply (rstrip_last (Py.lstrip line)).
    + destruct (Py.rstrip (Py.lstrip line)) as [|c t]; [done|].
      exfalso. clear -Hlast. revert c Hlast.
      induction t as [|c' t IH]; intros c; simpl; [done|]. apply IH.
Qed.

Lemma split_on_cons_sep (sep : ascii) (s : string) :
  Py.split_on sep (String sep s) = "" :: Py.split_on sep s.
Proof. simpl. by rewrite Ascii.eqb_refl. Qed.

Lemma split_on_cons_other (sep c : ascii) (s : string) :
  c ≠ sep
  → ∃ p ps, Py.split_on sep s = p :: ps
            ∧ Py.split_on sep (String c s) = String c p :: ps.
Proof.
  intros Hc. simpl. apply Ascii.eqb_neq in Hc. rewrite Hc.
  destruct (Py.split_on sep s) as [|p ps] eqn:Hs; [|eauto].
  exfalso. destruct s as [|c' s]; simpl in Hs; [done|].
  destruct (Ascii.eqb c' sep); [done|].
  by destruct (Py.split_on sep s).
Qed.

Lemma words_cons_space (t : string) :
  Spec.words (String " " t) = Spec.words t.
Proof. unfold Spec.words. by rewrite split_on_cons_sep. Qed.

Lemma words_not_nil (t : string) :
  t ≠ "" → (∀ c, last_char t = Some c → c ≠ " "%char) → Spec.words t ≠ [].
Proof.
  induction t as [|c t IH]; [done|]. intros _ Hlast.
  destruct (ascii_dec c " ") as [->|Hc].
  - rewrite words_cons_space. destruct t as [|c' t].
    + exfalso. by apply (Hlast " "%char).
    + apply IH; [done|]. intros c0 H0. apply Hlast. exact H0.
  - destruct (split_on_cons_other " " c t Hc) as (p & ps & _ & Hs).
    unfold Spec.words. rewrite Hs. simpl. done.
Qed.

Lemma concat_cons_String (sep : string) (c : ascii) (p : string)
  (xs : list string) :
  String.concat sep (String c p :: xs)
  = String c (String.concat sep (p :: xs)).
Proof. by destruct xs. Qed.

(** Replacing the runs of spaces of a line that ends in no space gives
    its words joined by single spaces, after the space that stands for a
    leading run. *)
Lemma re_sub_spaces_words (t : string) :
  t ≠ "" → (∀ c, last_char t = Some c → c ≠ " "%char)
  → Py.re_sub_spaces_aux true t = Py.join " " (Spec.words t)
    ∧ Py.re_sub_spaces_aux false t
      = (if starts_with_space t then " " else "")
        +:+ Py.join " " (Spec.words t).
Proof.
  induction t as [|c t IH]; [done|]. intros _ Hlast.
  destruct t as [|c' t'].
  { assert (Hc : c ≠ " "%char) by by apply Hlast.
    apply Ascii.eqb_neq in Hc. simpl. rewrite Hc. simpl.
    unfold Spec.words. simpl. rewrite Hc. by simpl. }
  set (t := String c' t') in *.
  assert (Hlast' : ∀ c0, last_char t = Some c0 → c0 ≠ " "%char)
    by (intros c0 H0; apply Hlast; exact H0).
  destruct (IH ltac:(done) Hlast') as [IHt IHf]. clear IH.
  destruct (ascii_dec c " ") as [->|Hc].
  - rewrite words_cons_space. cbn [Py.re_sub_spaces_aux starts_with_space].
    rewrite Ascii.eqb_refl. by rewrite IHt.
  - cbn [Py.re_sub_spaces_aux starts_with_space].
    rewrite (proj2 (Ascii.eqb_neq c " ") Hc). rewrite IHf.
    cbn [String.append]. unfold Py.join.
    destruct (split_on_cons_other " " c t Hc) as (p & ps & Hp & Hs).
    split.
    all: unfold Spec.words at 2; rewrite Hs; cbn [List.filter String.eqb negb].
    all: rewrite concat_cons_String; f_equal.
    all: pose proof (words_not_nil t ltac:(done) Hlast') as Hw.
    all: unfold Spec.words in *; rewrite Hp in *; cbn [List.filter] in *.
    all: subst t; cbn [starts_with_space].
    all: destruct (ascii_dec c' " ") as [->|Hc'].
    all: try (rewrite split_on_cons_sep in Hp; injection Hp as <- <-;
              rewrite Ascii.eqb_refl; cbn [String.eqb negb] in *;
              destruct (List.filter _ (Py.split_on " " t')); [done|];
              reflexivity).
    all: rewrite (proj2 (Ascii.eqb_neq c' " ") Hc');
      destruct (split_on_cons_other " " c' t' Hc') as (p' & ps' & _ & Hs');
      rewrite Hs' in Hp; injection Hp as <- <-; reflexivity.
Qed.

Lemma re_sub_spaces_strip (line : string) :
  Spec.blank_line line = false
  → Py.re_sub_spaces (Py.strip line) = Spec.normalize_line line.
Proof.
  intros Hb. assert (Hne : Py.strip line ≠ "").
  { apply String.eqb_neq. by rewrite strip_blank. }
  destruct (strip_ends line Hne) as [(c & Hfirst & Hc) (c' & Hlast & Hc')].
  destruct (re_sub_spaces_words (Py.strip line) Hne) as [_ Hf].
  { intros c0 H0. congruence. }
  unfold Py.re_sub_spaces, Spec.normalize_line. rewrite Hf.
  destruct (Py.strip line) as [|c0 t]; [done|].
  simpl in Hfirst. injection Hfirst as ->.
  cbn [starts_with_space]. by rewrite (proj2 (Ascii.eqb_neq c " ") Hc).
Qed.

Lemma clean_lines (lines : list string) :
  map Py.re_sub_spaces
    (List.filter (fun line => Nat.ltb 0 (String.length line))
       (map Py.strip
          (List.filter (fun line => negb (Py.startswith "%" line)) lines)))
  = map Spec.normalize_line (List.filter Spec.kept_line lines).
Proof.
  induction lines as [|line lines IH]; [reflexivity|].
  cbn [List.filter]. unfold Spec.kept_line at 1.
  rewrite startswith_comment.
  destruct (Spec.comment_line line); cbn [negb andb]; [exact IH|].
  cbn [map List.filter]. rewrite nonempty_length, strip_blank.
  destruct (Spec.blank_line line) eqn:Hb; cbn [negb]; [exact IH|].
  cbn [map]. by rewrite IH, re_sub_spaces_strip.
Qed.

(** X31: the cleaner drops exactly the lines whose first character is
    the comment marker and the blank lines, strips every other line,
    joins its words by single spaces, and keeps the remaining lines in
    their order. *)
Theorem clean_texfile_lines (texfile : string) :
  utils.clean_texfile texfile = Spec.clean texfile.
Proof.
  unfold utils.clean_texfile, Spec.clean. by rewrite clean_lines.
Qed.

(** C8 (the code differs): the first non-space character of the line
    ["  % c"] is the comment marker, yet the cleaner keeps the line, as
    ["% c"], where the specification asks for it to be dropped, which
    leaves nothing: the marker is looked for before the line is
    stripped. *)
Lemma clean_texfile_keeps_indented_comment :
  Spec.comment_line_claimed "  % c" = true
  ∧ utils.clean_texfile "  % c" = "% c"
  ∧ Spec.clean_claimed "  % c" = "".
Proof. vm_compute. repeat split; reflexivity. Qed.

(** ** The import resolver *)

Lemma replace_all_spliced (nm : string)
  (f : TexNode → result (list TexNode)) (n n' : TexNode) :
  LatexBase.replace_all nm f n = Ok n'
  → Spec.Spliced nm (fun d new => f d = Ok new) n n'.
Proof.
  revert n'. induction n as [s|k u nm' a ch IHa IHch] using TexNode_ind;
    intros n' Hn; simpl in Hn.
  { injection Hn as <-. constructor. }
  match type of Hn with
  | context [mbind _ (?ga a)] => set (go_args := ga) in *
  end.
  match type of Hn with
  | context [mbind _ (?gc ch)] => set (go_children := gc) in *
  end.
  assert (Hargs : ∀ l l', Forall (fun x => ∀ x',
            LatexBase.replace_all nm f x = Ok x'
            → Spec.Spliced nm (fun d new => f d = Ok new) x x') l
          → go_args l = Ok l'
          → Spec.SplicedArgs nm (fun d new => f d = Ok new) l l').
  { intros l. induction l as [|x l IHl]; intros l' Hall Hl; simpl in Hl.
    - injection Hl as <-. constructor.
    - inversion Hall as [|? ? Hx Hall']; subst.
      destruct (LatexBase.replace_all nm f x) as [x'|] eqn:Ex;
        simpl in Hl; [|done].
      destruct (go_args l) as [r|] eqn:El; simpl in Hl; [|done].
      injection Hl as <-. constructor; auto. }
  assert (Hchildren : ∀ l l', Forall (fun x => ∀ x',
            LatexBase.replace_all nm f x = Ok x'
            → Spec.Spliced nm (fun d new => f d = Ok new) x x') l
          → go_children l = Ok l'
          → Spec.SplicedChildren nm (fun d new => f d = Ok new) l l').
  { intros l. induction l as [|c l IHl]; intros l' Hall Hl; simpl in Hl.
    - injection Hl as <-. constructor.
    - inversion Hall as [|? ? Hc Hall']; subst.
      destruct (named nm c) eqn:Hnamed.
      + destruct (f c) as [new|] eqn:Ef; simpl in Hl; [|done].
        destruct (go_children l) as [r|] eqn:El; simpl in Hl; [|done].
        injection Hl as <-. apply Spec.SplicedChildren_directive; auto.
      + destruct (LatexBase.replace_all nm f c) as [c'|] eqn:Ec;
          simpl in Hl; [|done].
        destruct (go_children l) as [r|] eqn:El; simpl in Hl; [|done].
        injection Hl as <-. apply Spec.SplicedChildren_other; auto. }
  destruct (go_args a) as [a'|] eqn:Ea; simpl in Hn; [|done].
  destruct (go_children ch) as [ch'|] eqn:Ec; simpl in Hn; [|done].
  injection Hn as <-. constructor; auto.
Qed.

Lemma Spliced_impl (nm : string) (repl repl' : TexNode → list TexNode → Prop) :
  (∀ d new, repl d new → repl' d new)
  → (∀ n n', Spec.Spliced nm repl n n' → Spec.Spliced nm repl' n n').
Proof.
  intros Himpl.
  fix IH 3. intros n n' H. destruct H as [s|k u nm' a a' ch ch' Ha Hch].
  - constructor.
  - constructor.
    + revert a a' Ha. fix IHa 3. intros a a' Ha.
      destruct Ha as [|x x' l l' Hx Hl]; constructor; auto.
    + revert ch ch' Hch. fix IHc 3. intros ch ch' Hch.
      destruct Hch as [|d new l l' Hd Hr Hl|c c' l l' Hc Hs Hl].
      * constructor.
      * apply Spec.SplicedChildren_directive; auto.
      * apply Spec.SplicedChildren_other; auto.
Qed.

(** Where the replacement fails on every node of the name, the loop
    returns only when there is no such node, and then leaves the tree as
    it is. *)
Lemma replace_all_failing (nm : string)
  (f : TexNode → result (list TexNode)) (Q : exn → Prop) (n : TexNode) :
  (∀ d, named nm d = true → ∃ e, f d = Raise e ∧ Q e)
  → match LatexBase.replace_all nm f n with
    | Ok n' => n' = n ∧ find_all nm n = []
    | Raise e => Q e ∧ find_all nm n ≠ []
    end.
Proof.
  intros Hf.
  induction n as [s|k u nm' a ch IHa IHch] using TexNode_ind; [done|].
  unfold find_all in *. cbn [LatexBase.replace_all descendants].
  match goal with
  | |- context [mbind _ (?ga a)] => set (go_args := ga) in *
  end.
  match goal with
  | |- context [mbind _ (?gc ch)] => set (go_children := gc) in *
  end.
  assert (Hargs : ∀ l, Forall (fun x =>
            match LatexBase.replace_all nm f x with
            | Ok x' => x' = x ∧ List.filter (named nm) (descendants x) = []
            | Raise e => Q e ∧ List.filter (named nm) (descendants x) ≠ []
            end) l
          → match go_args l with
            | Ok l' =>
                l' = l
                ∧ List.filter (named nm) (flat_map descendants l) = []
            | Raise e =>
                Q e ∧ List.filter (named nm) (flat_map descendants l) ≠ []
            end).
  { intros l. induction l as [|x l IHl]; intros Hall; [done|].
    inversion Hall as [|? ? Hx Hall']; subst. specialize (IHl Hall').
    cbn [go_args flat_map]. rewrite List.filter_app.
    destruct (LatexBase.replace_all nm f x) as [x'|e]; cbn [mbind result_bind].
    - destruct Hx as [-> Hx]. rewrite Hx.
      destruct (go_args l) as [r|e]; cbn [mbind result_bind mret result_ret].
      + destruct IHl as [-> IHl]. by rewrite IHl.
      + done.
    - destruct Hx as [HQ Hx]. split; [done|].
      by destruct (List.filter (named nm) (descendants x)). }
  assert (Hchildren : ∀ l, Forall (fun x =>
            match LatexBase.replace_all nm f x with
            | Ok x' => x' = x ∧ List.filter (named nm) (descendants x) = []
            | Raise e => Q e ∧ List.filter (named nm) (descendants x) ≠ []
            end) l
          → match go_children l with
            | Ok l' =>
                l' = l
                ∧ List.filter (named nm)
                    (flat_map (fun c => c :: descendants c) l) = []
            | Raise e =>
                Q e
                ∧ List.filter (named nm)
                    (flat_map (fun c => c :: descendants c) l) ≠ []
            end).
  { intros l. induction l as [|c l IHl]; intros Hall; [done|].
    inversion Hall as [|? ? Hc Hall']; subst. specialize (IHl Hall').
    cbn [go_children flat_map app List.filter].
    destruct (named nm c) eqn:Hnamed.
    - destruct (Hf c Hnamed) as (e & -> & HQ). cbn [mbind result_bind].
      done.
    - rewrite List.filter_app.
      destruct (LatexBase.replace_all nm f c) as [c'|e];
        cbn [mbind result_bind].
      + destruct Hc as [-> Hc]. rewrite Hc.
        destruct (go_children l) as [r|e];
          cbn [mbind result_bind mret result_ret].
        * destruct IHl as [-> IHl]. by rewrite IHl.
        * done.
      + destruct Hc as [HQ Hc]. split; [done|].
        by destruct (List.filter (named nm) (descendants c)). }
  specialize (Hargs a IHa). specialize (Hchildren ch IHch).
  rewrite List.filter_app.
  destruct (go_args a) as [a'|e]; cbn [mbind result_bind].
  - destruct Hargs as [-> Hargs]. rewrite Hargs.
    destruct (go_children ch) as [ch'|e];
      cbn [mbind result_bind mret result_ret].
    + destruct Hchildren as [-> Hchildren]. by rewrite Hchildren.
    + done.
  - destruct Hargs as [HQ Hargs]. split; [done|].
    by destruct (List.filter (named nm) (flat_map descendants a)).
Qed.

(** The replacement of a [subimport] directive fails, whatever the
    directive: with [IndexError] when it has fewer than two arguments,
    with [TypeError] otherwise. *)
Lemma subimport_fails (open_resolve : string → result (list TexNode))
  (d : TexNode) :
  ∃ e, (a0 ← getitem (args d) 0;
        a1 ← getitem (args d) 1;
        path ← LatexBase.add_args a0 a1;
        open_resolve path) = Raise e
       ∧ (e = TypeError ∨ e = IndexError).
Proof.
  unfold getitem.
  destruct (args d !! 0) as [a0|]; cbn [mbind result_bind]; [|eauto].
  destruct (args d !! 1) as [a1|]; cbn [mbind result_bind]; eauto.
Qed.

(** C6 (the code differs): a file whose tree holds a [subimport]
    directive is never resolved.  The path of the directive is computed as
    the sum of its two arguments, which raises [TypeError] ([IndexError]
    when the directive has fewer than two arguments), where the
    specification asks for the two arguments joined into one path and the
    contents of that file spliced in. *)
Theorem resolve_imports_subimport_raises (parse : nat → string → TexNode)
  (fs : string → result string) (fuel : nat) (f : LatexBase.file) :
  find_all "subimport" (parse 1 (LatexBase.file_read f)) ≠ []
  → ∃ e, LatexBase.resolve_imports parse fs (S fuel) f = Raise e
         ∧ (e = TypeError ∨ e = IndexError).
Proof.
  intros Hsub. cbn [LatexBase.resolve_imports].
  match goal with
  | |- context [LatexBase.replace_all "subimport" ?f1 ?s0] =>
      pose proof (replace_all_failing "subimport" f1
                    (fun e => e = TypeError ∨ e = IndexError) s0) as H1;
      destruct (LatexBase.replace_all "subimport" f1 s0) as [s1|e]
  end.
  - destruct H1 as [_ H1]; [|done]. intros d _.
    apply (subimport_fails
             (fun path =>
                file ← LatexBase.open fs path;
                r ← LatexBase.resolve_imports parse fs fuel file;
                Ok (contents r))).
  - exists e. split; [done|]. apply H1. intros d _.
    apply (subimport_fails
             (fun path =>
                file ← LatexBase.open fs path;
                r ← LatexBase.resolve_imports parse fs fuel file;
                Ok (contents r))).
Qed.

(** C6, witness: [src/sub.tex] holds [\subimport{sub/}{part}], and the
    file [sub/part] exists. *)
Lemma resolve_imports_subimport_raises_witness :
  ∃ e, LatexBase.resolve_imports Examples.sub_parse Examples.sub_fs 2
         (LatexBase.mk_file "src/sub.tex" Examples.sub_tex) = Raise e
       ∧ (e = TypeError ∨ e = IndexError).
Proof.
  apply (resolve_imports_subimport_raises Examples.sub_parse Examples.sub_fs 1
           (LatexBase.mk_file "src/sub.tex" Examples.sub_tex)).
  vm_compute. discriminate.
Defined.

(** The same file, run: the exception is [TypeError]. *)
Example resolve_imports_subimport_TypeError :
  LatexBase.make_soup Examples.sub_parse Examples.sub_fs 2 "src/sub.tex"
  = Raise TypeError.
Proof. reflexivity. Qed.

(** X29: in the tree the resolver of the document class builds from a
    file, every [import] and [include] directive, at any depth, has given
    way to the children of the node its file resolves to, spliced into the
    parent at the position of the directive, and every [input] directive
    to the resolved node itself; the files are resolved by the resolver
    itself, so the same holds inside them, at any depth of inclusion.  The
    tree is then printed, cleaned and parsed again.  A file that is
    resolved holds no [subimport] directive. *)
Theorem resolve_imports_splices (parse : nat → string → TexNode)
  (fs : string → result string) (fuel : nat) (f : LatexBase.file)
  (soup' : TexNode) :
  LatexBase.resolve_imports parse fs (S fuel) f = Ok soup'
  → let cwd := Py.os_path_dirname (LatexBase.file_name f) in
    let resolves := Spec.resolves_to parse fs fuel in
    let soup := parse 1 (LatexBase.file_read f) in
    find_all "subimport" soup = []
    ∧ ∃ s2 s3 s4,
        Spec.Spliced "import"
          (Spec.by_children (resolves Spec.import_path)) soup s2
        ∧ Spec.Spliced "include"
            (Spec.by_children (resolves Spec.import_path)) s2 s3
        ∧ Spec.Spliced "input"
            (Spec.by_itself (resolves (Spec.input_path cwd))) s3 s4
        ∧ soup' = parse 1 (utils.clean_texfile (str s4)).
Proof.
  intros Hr cwd resolves soup. cbn [LatexBase.resolve_imports] in Hr.
  fold cwd soup in Hr.
  match type of Hr with
  | mbind _ (LatexBase.replace_all _ ?f1 _) = _ =>
      pose proof (replace_all_failing "subimport" f1
                    (fun e => e = TypeError ∨ e = IndexError) soup) as H1;
      destruct (LatexBase.replace_all "subimport" f1 soup) as [s1|] eqn:E1;
      [|done]
  end.
  destruct H1 as [-> Hnone].
  { intros d _.
    apply (subimport_fails
             (fun path =>
                file ← LatexBase.open fs path;
                r ← LatexBase.resolve_imports parse fs fuel file;
                Ok (contents r))). }
  split; [exact Hnone|]. clear E1.
  cbn [mbind result_bind] in Hr.
  match type of Hr with
  | mbind _ (LatexBase.replace_all _ ?f2 _) = _ =>
      destruct (LatexBase.replace_all "import" f2 soup) as [s2|] eqn:E2;
      [|done]
  end.
  cbn [mbind result_bind] in Hr.
  match type of Hr with
  | mbind _ (LatexBase.replace_all _ ?f3 _) = _ =>
      destruct (LatexBase.replace_all "include" f3 s2) as [s3|] eqn:E3;
      [|done]
  end.
  cbn [mbind result_bind] in Hr.
  match type of Hr with
  | mbind _ (LatexBase.replace_all _ ?f4 _) = _ =>
      destruct (LatexBase.replace_all "input" f4 s3) as [s4|] eqn:E4;
      [|done]
  end.
  cbn [mbind result_bind] in Hr. injection Hr as <-.
  exists s2, s3, s4.
  apply replace_all_spliced in E2, E3, E4.
  repeat split.
  - revert E2. apply Spliced_impl. intros d new Hd.
    unfold Spec.by_children, resolves, Spec.resolves_to, Spec.import_path.
    destruct (getitem (args d) 0) as [a0|]; simpl in *; [|done].
    destruct (LatexBase.arg_str a0) as [s|]; simpl in *; [|done].
    destruct (LatexBase.open fs (LatexBase.check_filename s)) as [file|]
      eqn:Ef; simpl in *; [|done].
    destruct (LatexBase.resolve_imports parse fs fuel file) as [r|] eqn:Er;
      simpl in *; [|done].
    injection Hd as <-. eauto 10.
  - revert E3. apply Spliced_impl. intros d new Hd.
    unfold Spec.by_children, resolves, Spec.resolves_to, Spec.import_path.
    destruct (getitem (args d) 0) as [a0|]; simpl in *; [|done].
    destruct (LatexBase.arg_str a0) as [s|]; simpl in *; [|done].
    destruct (LatexBase.open fs (LatexBase.check_filename s)) as [file|]
      eqn:Ef; simpl in *; [|done].
    destruct (LatexBase.resolve_imports parse fs fuel file) as [r|] eqn:Er;
      simpl in *; [|done].
    injection Hd as <-. eauto 10.
  - revert E4. apply Spliced_impl. intros d new Hd.
    unfold Spec.by_itself, resolves, Spec.resolves_to, Spec.input_path.
    destruct (getitem (args d) 0) as [a0|]; simpl in *; [|done].
    destruct (LatexBase.arg_str a0) as [s|]; simpl in *; [|done].
    destruct (LatexBase.open fs
                (Py.os_path_join cwd (LatexBase.check_filename s)))
      as [file|] eqn:Ef; simpl in *; [|done].
    destruct (LatexBase.resolve_imports parse fs fuel file) as [r|] eqn:Er;
      simpl in *; [|done].
    injection Hd as <-. eauto 10.
Qed.

(** X29, witness: [src/main.tex] imports [c.tex] and inputs [b.tex]. *)
Lemma resolve_imports_splices_witness :
  let main := LatexBase.mk_file "src/main.tex" Examples.main_tex in
  let resolves := Spec.resolves_to Examples.toy_parse Examples.toy_fs 1 in
  let soup := Examples.toy_parse 1 (LatexBase.file_read main) in
  find_all "subimport" soup = []
  ∧ ∃ s2 s3 s4,
      Spec.Spliced "import"
        (Spec.by_children (resolves Spec.import_path)) soup s2
      ∧ Spec.Spliced "include"
          (Spec.by_children (resolves Spec.import_path)) s2 s3
      ∧ Spec.Spliced "input"
          (Spec.by_itself
             (resolves
                (Spec.input_path
                   (Py.os_path_dirname (LatexBase.file_name main))))) s3 s4
      ∧ root [TexText "CB"]
        = Examples.toy_parse 1 (utils.clean_texfile (str s4)).
Proof.
  apply (resolve_imports_splices Examples.toy_parse Examples.toy_fs 1
           (LatexBase.mk_file "src/main.tex" Examples.main_tex)
           (root [TexText "CB"])).
  vm_compute. reflexivity.
Defined.

(** The two replacements on the tree of [src/main.tex]: the import gives
    way to the child of the resolved node, the input to the node. *)
Example replace_import_by_children :
  LatexBase.replace_all "import"
    (fun _ => Ok (contents (root [TexText "C"])))
    (Examples.toy_parse 1 Examples.main_tex)
  = Ok (root [TexText "C"; cmd 23 "input" [brace 24 "b"]]).
Proof. reflexivity. Qed.

Example replace_input_by_itself :
  LatexBase.replace_all "input" (fun _ => Ok [root [TexText "B"]])
    (root [TexText "C"; cmd 23 "input" [brace 24 "b"]])
  = Ok (root [TexText "C"; root [TexText "B"]]).
Proof. reflexivity. Qed.

(** ** Deduplication of consecutive frames *)

Lemma delete_if_expr (p : nat → bool) (k : TexKind) (id : nat) (nm : string)
  (a ch : list TexNode) :
  delete_if p (TexExpr k id nm a ch)
  = TexExpr k id nm (map (delete_if p) a)
      (map (delete_if p) (List.filter (keeps_if p) ch)).
Proof.
  simpl. f_equal. induction ch as [|c ch IH]; simpl; [done|].
  destruct (keeps_if p c); simpl; by rewrite IH.
Qed.

Lemma delete_uid_expr (u : nat) (k : TexKind) (id : nat) (nm : string)
  (a ch : list TexNode) :
  delete_uid u (TexExpr k id nm a ch)
  = TexExpr k id nm (map (delete_uid u) a)
      (map (delete_uid u) (List.filter (keeps u) ch)).
Proof.
  simpl. f_equal. induction ch as [|c ch IH]; simpl; [done|].
  destruct (keeps u c); simpl; by rewrite IH.
Qed.

Lemma map_ext_Forall_eq {A B} (f g : A → B) (l : list A) :
  Forall (fun x => f x = g x) l → map f l = map g l.
Proof. induction 1; simpl; congruence. Qed.

Lemma Forall_filter_sub {A} (P : A → Prop) (q : A → bool) (l : list A) :
  Forall P l → Forall P (List.filter q l).
Proof.
  induction 1 as [|x l Hx Hl IH]; simpl; [constructor|].
  destruct (q x); [constructor|]; done.
Qed.

Lemma filter_ext_eq {A} (p q : A → bool) (l : list A) :
  (∀ x, p x = q x) → List.filter p l = List.filter q l.
Proof. intros H. induction l as [|x l IH]; simpl; by rewrite ?H, ?IH. Qed.

Lemma filter_map_comm {A B} (p : B → bool) (f : A → B) (l : list A) :
  List.filter p (map f l) = map f (List.filter (fun x => p (f x)) l).
Proof.
  induction l as [|x l IH]; simpl; [done|].
  destruct (p (f x)); simpl; by rewrite IH.
Qed.

Lemma filter_filter_and {A} (p q : A → bool) (l : list A) :
  List.filter q (List.filter p l) = List.filter (fun x => p x && q x) l.
Proof.
  induction l as [|x l IH]; simpl; [done|].
  destruct (p x); simpl; [destruct (q x)|]; by rewrite IH.
Qed.

Lemma delete_uid_delete_if (u : nat) (n : TexNode) :
  delete_uid u n = delete_if (fun v => Nat.eqb v u) n.
Proof.
  induction n as [s|k id nm a ch IHa IHch] using TexNode_ind; [done|].
  rewrite delete_uid_expr, delete_if_expr. f_equal.
  - by apply map_ext_Forall_eq.
  - rewrite (filter_ext_eq (keeps u) (keeps_if (fun v => Nat.eqb v u)))
      by done.
    apply map_ext_Forall_eq. by apply Forall_filter_sub.
Qed.

Lemma uid_of_delete_if (p : nat → bool) (n : TexNode) :
  uid_of (delete_if p n) = uid_of n.
Proof. by destruct n. Qed.

Lemma named_delete_if (p : nat → bool) (nm : string) (n : TexNode) :
  named nm (delete_if p n) = named nm n.
Proof. by destruct n. Qed.

Lemma keeps_if_delete_if (q p : nat → bool) (n : TexNode) :
  keeps_if q (delete_if p n) = keeps_if q n.
Proof. unfold keeps_if. by rewrite uid_of_delete_if. Qed.

Lemma delete_if_ext (p q : nat → bool) (n : TexNode) :
  (∀ v, p v = q v) → delete_if p n = delete_if q n.
Proof.
  intros Hpq.
  induction n as [s|k id nm a ch IHa IHch] using TexNode_ind; [done|].
  rewrite !delete_if_expr. f_equal.
  - by apply map_ext_Forall_eq.
  - rewrite (filter_ext_eq (keeps_if p) (keeps_if q)).
    + apply map_ext_Forall_eq. by apply Forall_filter_sub.
    + intros x. unfold keeps_if. destruct (uid_of x); by rewrite ?Hpq.
Qed.

Lemma delete_if_comp (p q : nat → bool) (n : TexNode) :
  delete_if q (delete_if p n) = delete_if (fun v => p v || q v) n.
Proof.
  induction n as [s|k id nm a ch IHa IHch] using TexNode_ind; [done|].
  rewrite !delete_if_expr. f_equal.
  - rewrite map_map. by apply map_ext_Forall_eq.
  - rewrite filter_map_comm, map_map.
    rewrite (filter_ext_eq _ (keeps_if q))
      by (intros x; apply keeps_if_delete_if).
    rewrite filter_filter_and.
    rewrite (filter_ext_eq _ (keeps_if (fun v => p v || q v))).
    + apply map_ext_Forall_eq. by apply Forall_filter_sub.
    + intros x. unfold keeps_if. destruct (uid_of x); [|done].
      by rewrite negb_orb.
Qed.

Lemma delete_if_none (n : TexNode) : delete_if (fun _ => false) n = n.
Proof.
  induction n as [s|k id nm a ch IHa IHch] using TexNode_ind; [done|].
  rewrite delete_if_expr. f_equal.
  - rewrite <- (map_id a) at 2. by apply map_ext_Forall_eq.
  - rewrite (filter_ext_eq _ (fun _ => true)).
    + assert (Hall : ∀ l : list TexNode, List.filter (fun _ => true) l = l)
        by (intros l; induction l; simpl; congruence).
      rewrite Hall. rewrite <- (map_id ch) at 2.
      by apply map_ext_Forall_eq.
    + intros x. unfold keeps_if. by destruct (uid_of x).
Qed.

(** Deleting nodes one after the other deletes all of them at once. *)
Lemma fold_delete (ds : list TexNode) (soup : TexNode) :
  fold_left (fun s d => delete d s) ds soup
  = delete_if (among (omap uid_of ds)) soup.
Proof.
  revert soup. induction ds as [|d ds IH]; intros soup; simpl.
  - symmetry. apply delete_if_none.
  - rewrite IH. unfold delete. destruct (uid_of d) as [u|]; simpl; [|done].
    rewrite delete_uid_delete_if, delete_if_comp.
    apply delete_if_ext. intros v. reflexivity.
Qed.

Lemma named_is_TexNode (nm : string) (n : TexNode) :
  named nm n = true → is_TexNode n = true.
Proof. by destruct n. Qed.

Lemma frames_are_nodes (soup : TexNode) :
  Forall (fun f => is_TexNode f = true) (LatexPresentation.frames soup).
Proof.
  apply List.Forall_forall. intros f Hf.
  apply filter_In in Hf as [_ Hf]. by eapply named_is_TexNode.
Qed.

Lemma frame_tokens_node (f : TexNode) :
  is_TexNode f = true → LatexPresentation.frame_tokens f = Ok (Spec.tokens f).
Proof.
  intros Hf. unfold LatexPresentation.frame_tokens, Spec.tokens,
    LatexPresentation.get_frame_contents. by rewrite Hf.
Qed.

(** The quotient the code computes is the overlap ratio. *)
Lemma shared_common_content (earlier later : list string) :
  Spec.shared earlier later
  = length (LatexPresentation.common_content earlier later).
Proof.
  unfold LatexPresentation.common_content.
  induction earlier as [|t rest IH]; [done|]. cbn [Spec.shared List.filter].
  destruct (Py.mem t later) eqn:Hm.
  - apply mem_elem_of in Hm. rewrite bool_decide_eq_true_2 by done.
    cbn [length]. by rewrite IH.
  - apply mem_not_elem_of in Hm. by rewrite bool_decide_eq_false_2.
Qed.

Lemma overlap_ratio_overlap (earlier later : TexNode) :
  Spec.tokens earlier ≠ []
  → (LatexPresentation.overlap_ratio (Spec.tokens earlier) (Spec.tokens later)
     == Spec.overlap earlier later)%Q.
Proof.
  intros Hne. unfold LatexPresentation.overlap_ratio, Spec.overlap.
  rewrite <- shared_common_content.
  set (a := Z.of_nat (Spec.shared _ _)).
  assert (Hn : (0 < length (Spec.tokens earlier))%nat)
    by (destruct (Spec.tokens earlier); [done|simpl; lia]).
  set (n := length (Spec.tokens earlier)) in *.
  rewrite (Qmake_Qdiv a (Pos.of_nat n)).
  replace (Z.pos (Pos.of_nat n)) with (Z.of_nat n); [reflexivity|].
  destruct n as [|m]; [lia|]. rewrite <- Pos.of_nat_succ. lia.
Qed.

Lemma collapses_ratio (thr : Q) (earlier later : TexNode) :
  Spec.collapses thr earlier later
  = Nat.ltb 0 (length (Spec.tokens earlier))
    && Qle_bool thr
         (LatexPresentation.overlap_ratio (Spec.tokens earlier)
            (Spec.tokens later)).
Proof.
  unfold Spec.collapses. case_bool_decide as Hne.
  - pose proof (overlap_ratio_overlap earlier later Hne) as Heq.
    destruct (Spec.tokens earlier) as [|t ts] eqn:Ht; [done|].
    cbn [length Nat.ltb Nat.leb andb].
    apply eq_true_iff_eq. rewrite !Qle_bool_iff. by rewrite Heq.
  - by destruct (Spec.tokens earlier) as [|t ts].
Qed.

Lemma compare_frames_collapses (thr : Q) (pf f soup : TexNode) :
  LatexPresentation.compare_frames thr (Some pf) (Spec.tokens pf)
    (Spec.tokens f) soup
  = if Spec.collapses thr pf f then delete pf soup else soup.
Proof.
  rewrite collapses_ratio. unfold LatexPresentation.compare_frames.
  destruct (Nat.ltb 0 (length (Spec.tokens pf))); simpl; [|done].
  by destruct (Qle_bool thr _).
Qed.

Lemma remove_loop_doomed (thr : Q) (todo : list TexNode) (i : nat)
  (pf soup : TexNode) :
  Forall (fun f => is_TexNode f = true) todo
  → i ≠ 0
  → LatexPresentation.remove_loop thr i todo (Some pf) (Spec.tokens pf) soup
    = Ok (fold_left (fun s d => delete d s) (doomed thr (pf :: todo)) soup).
Proof.
  intros Hall. revert i pf soup.
  induction Hall as [|f rest Hf Hrest IH]; intros i pf soup Hi; [done|].
  cbn [LatexPresentation.remove_loop]. rewrite (frame_tokens_node f Hf).
  cbn [mbind result_bind].
  destruct (Nat.eqb_spec i 0) as [->|_]; [done|].
  rewrite (IH (S i)) by done. rewrite compare_frames_collapses.
  cbn [doomed]. by destruct (Spec.collapses thr pf f).
Qed.

(** The pass always ends, and deletes the frames that collapse. *)
Lemma remove_sequential_frames_doomed (thr : Q) (soup : TexNode) :
  LatexPresentation.remove_sequential_frames thr soup
  = Ok (delete_if
          (among (omap uid_of (doomed thr (LatexPresentation.frames soup))))
          soup).
Proof.
  unfold LatexPresentation.remove_sequential_frames.
  pose proof (frames_are_nodes soup) as Hall.
  rewrite <- fold_delete.
  destruct (LatexPresentation.frames soup) as [|f rest]; [done|].
  inversion Hall as [|? ? Hf Hrest]; subst.
  cbn [LatexPresentation.remove_loop]. rewrite (frame_tokens_node f Hf).
  cbn [mbind result_bind Nat.eqb]. by apply remove_loop_doomed.
Qed.

Lemma filter_flat_map {A B} (p : B → bool) (f : A → list B) (l : list A) :
  List.filter p (flat_map f l) = flat_map (fun x => List.filter p (f x)) l.
Proof.
  induction l as [|x l IH]; simpl; [done|]. by rewrite List.filter_app, IH.
Qed.

Lemma flat_map_map {A B C} (f : B → list C) (g : A → B) (l : list A) :
  flat_map f (map g l) = flat_map (fun x => f (g x)) l.
Proof. induction l as [|x l IH]; simpl; by rewrite ?IH. Qed.

Lemma flat_map_ext_In {A B} (f g : A → list B) (l : list A) :
  (∀ x, In x l → f x = g x) → flat_map f l = flat_map g l.
Proof.
  induction l as [|x l IH]; intros H; simpl; [done|].
  rewrite (H x) by (by left). rewrite IH; [done|].
  intros y Hy. apply H. by right.
Qed.

Lemma flat_map_cons_eq {A B} (f : A → list B) (x : A) (l : list A) :
  flat_map f (x :: l) = f x ++ flat_map f l.
Proof. reflexivity. Qed.

Lemma filter_cons_eq {A} (p : A → bool) (x : A) (l : list A) :
  List.filter p (x :: l)
  = if p x then x :: List.filter p l else List.filter p l.
Proof. reflexivity. Qed.

Lemma descendants_of_arg (k : TexKind) (u : nat) (nm : string)
  (a ch : list TexNode) (x d : TexNode) :
  In x a → In d (descendants x) → In d (descendants (TexExpr k u nm a ch)).
Proof.
  intros Hx Hd. cbn [descendants]. apply in_app_iff. left.
  apply in_flat_map. eauto.
Qed.

Lemma descendants_of_child (k : TexKind) (u : nat) (nm : string)
  (a ch : list TexNode) (c d : TexNode) :
  In c ch → d = c ∨ In d (descendants c)
  → In d (descendants (TexExpr k u nm a ch)).
Proof.
  intros Hc Hd. cbn [descendants]. apply in_app_iff. right.
  apply in_flat_map. exists c. split; [done|].
  destruct Hd as [->|Hd]; [by left|by right].
Qed.

(** Nothing changes where no node is to be deleted. *)
Lemma delete_if_id (p : nat → bool) (n : TexNode) :
  (∀ d, In d (descendants n) → keeps_if p d = true) → delete_if p n = n.
Proof.
  induction n as [s|k u nm a ch IHa IHch] using TexNode_ind; [done|].
  intros Hkeep. rewrite delete_if_expr.
  rewrite List.Forall_forall in IHa, IHch.
  assert (Hfilter : List.filter (keeps_if p) ch = ch).
  { assert (H : ∀ l, (∀ c, In c l → keeps_if p c = true)
                     → List.filter (keeps_if p) l = l).
    { intros l. induction l as [|c l IH]; intros Hl; simpl; [done|].
      rewrite (Hl c) by (by left). rewrite IH; [done|].
      intros c' Hc'. apply Hl. by right. }
    apply H. intros c Hc. apply Hkeep.
    eapply descendants_of_child; eauto. }
  rewrite Hfilter. f_equal.
  - rewrite <- (map_id a) at 2. apply map_ext_in. intros x Hx.
    apply IHa; [done|]. intros d Hd. apply Hkeep.
    eapply descendants_of_arg; eauto.
  - rewrite <- (map_id ch) at 2. apply map_ext_in. intros c Hc.
    apply IHch; [done|]. intros d Hd. apply Hkeep.
    eapply descendants_of_child; eauto.
Qed.

(** The frames of a tree after a deletion, where only frames are deleted
    and no frame lies inside a frame: the frames that are kept. *)
Lemma find_all_delete_if (p : nat → bool) (n : TexNode) :
  (∀ d, In d (descendants n) → keeps_if p d = false → named "frame" d = true)
  → (∀ d, In d (descendants n) → named "frame" d = true
          → find_all "frame" d = [])
  → find_all "frame" (delete_if p n)
    = List.filter (keeps_if p) (find_all "frame" n).
Proof.
  induction n as [s|k u nm a ch IHa IHch] using TexNode_ind; [done|].
  intros Hgood Hflat. rewrite List.Forall_forall in IHa, IHch.
  unfold find_all in *. rewrite delete_if_expr. cbn [descendants].
  rewrite !List.filter_app. f_equal.
  - rewrite !filter_flat_map, flat_map_map.
    apply flat_map_ext_In. intros x Hx. apply IHa; [done| |].
    + intros d Hd. apply Hgood. eapply descendants_of_arg; eauto.
    + intros d Hd. apply Hflat. eapply descendants_of_arg; eauto.
  - rewrite !filter_flat_map, flat_map_map.
    assert (H : ∀ l, (∀ c, In c l → In c ch)
      → flat_map
          (fun c => List.filter (named "frame")
                      (delete_if p c :: descendants (delete_if p c)))
          (List.filter (keeps_if p) l)
        = flat_map
            (fun c => List.filter (keeps_if p)
                        (List.filter (named "frame") (c :: descendants c)))
            l).
    { intros l. induction l as [|c l IH]; intros Hl; [done|].
      assert (Hc : In c ch) by (apply Hl; by left).
      assert (IHl := IH (fun c' Hc' => Hl c' (or_intror Hc'))). clear IH.
      assert (Hcd : In c (descendants (TexExpr k u nm a ch)))
        by (eapply descendants_of_child; eauto).
      rewrite (flat_map_cons_eq _ c l), (filter_cons_eq (keeps_if p) c l).
      destruct (keeps_if p c) eqn:Hk.
      - rewrite flat_map_cons_eq, IHl. f_equal.
        rewrite !(filter_cons_eq (named "frame")), named_delete_if.
        assert (Hsub : List.filter (named "frame") (descendants (delete_if p c))
                       = List.filter (keeps_if p)
                           (List.filter (named "frame") (descendants c))).
        { apply IHch; [done| |].
          - intros d Hd. apply Hgood. eapply descendants_of_child; eauto.
          - intros d Hd. apply Hflat. eapply descendants_of_child; eauto. }
        destruct (named "frame" c) eqn:Hn.
        + assert (Hnone : List.filter (named "frame") (descendants c) = [])
            by (by apply Hflat).
          assert (Hid : delete_if p c = c).
          { apply delete_if_id. intros d Hd.
            destruct (keeps_if p d) eqn:Hkd; [done|]. exfalso.
            assert (Hfr : named "frame" d = true).
            { apply Hgood; [|done]. eapply descendants_of_child; eauto. }
            assert (Hin : In d (List.filter (named "frame") (descendants c)))
              by (apply filter_In; done).
            rewrite Hnone in Hin. done. }
          rewrite Hid, Hnone. rewrite filter_cons_eq, Hk. reflexivity.
        + exact Hsub.
      - rewrite IHl. rewrite (filter_cons_eq (named "frame")).
        assert (Hn : named "frame" c = true) by (by apply Hgood).
        rewrite Hn.
        assert (Hnone : List.filter (named "frame") (descendants c) = [])
          by (by apply Hflat).
        rewrite Hnone, filter_cons_eq, Hk. reflexivity. }
    apply H. auto.
Qed.

Lemma NoDup_omap_inj {A B} (g : A → option B) (l : list A) (x y : A) (u : B) :
  NoDup (omap g l) → In x l → In y l → g x = Some u → g y = Some u → x = y.
Proof.
  induction l as [|a l IH]; intros Hnd Hx Hy Hgx Hgy; [done|].
  cbn [omap list_omap] in Hnd.
  destruct Hx as [->|Hx], Hy as [->|Hy]; [done| | |].
  - rewrite Hgx in Hnd. apply NoDup_cons_1_1 in Hnd. exfalso. apply Hnd.
    apply list_elem_of_omap. exists y. split; [by apply list_elem_of_In|done].
  - rewrite Hgy in Hnd. apply NoDup_cons_1_1 in Hnd. exfalso. apply Hnd.
    apply list_elem_of_omap. exists x. split; [by apply list_elem_of_In|done].
  - apply IH; try done. destruct (g a); [by apply NoDup_cons_1_2 in Hnd|done].
Qed.

Lemma NoDup_omap_filter {A B} (g : A → option B) (p : A → bool) (l : list A) :
  NoDup (omap g l) → NoDup (omap g (List.filter p l)).
Proof.
  induction l as [|a l IH]; intros Hnd; [done|].
  cbn [omap list_omap] in Hnd. rewrite filter_cons_eq.
  assert (Hl : NoDup (omap g l))
    by (destruct (g a); [by apply NoDup_cons_1_2 in Hnd|done]).
  destruct (p a); [|by apply IH].
  cbn [omap list_omap]. destruct (g a) as [v|] eqn:Hg; [|by apply IH].
  apply NoDup_cons. split; [|by apply IH].
  apply NoDup_cons_1_1 in Hnd. intros Hin. apply Hnd.
  apply list_elem_of_omap in Hin as (x & Hx & Hgx).
  apply list_elem_of_omap. exists x. split; [|done].
  apply list_elem_of_In. apply list_elem_of_In in Hx.
  by apply filter_In in Hx as [Hx _].
Qed.

Lemma among_elem_of (us : list nat) (u : nat) :
  among us u = true ↔ u ∈ us.
Proof.
  unfold among. rewrite existsb_exists. split.
  - intros (v & Hv & He). apply Nat.eqb_eq in He. subst.
    by apply list_elem_of_In.
  - intros Hu. exists u. split; [by apply list_elem_of_In|].
    apply Nat.eqb_refl.
Qed.

Lemma doomed_sub (thr : Q) (F : list TexNode) (d : TexNode) :
  In d (doomed thr F) → In d F.
Proof.
  induction F as [|f rest IH]; [done|]. cbn [doomed].
  destruct rest as [|g rest']; [done|].
  destruct (Spec.collapses thr f g).
  - intros [->|Hd]; [by left|right; by apply IH].
  - intros Hd. right. by apply IH.
Qed.

Lemma dedup_sub (thr : Q) (F : list TexNode) (d : TexNode) :
  In d (Spec.dedup thr F) → In d F.
Proof.
  induction F as [|f rest IH]; [done|]. cbn [Spec.dedup].
  destruct rest as [|g rest']; [done|].
  destruct (Spec.collapses thr f g).
  - intros Hd. right. by apply IH.
  - intros [->|Hd]; [by left|right; by apply IH].
Qed.

(** The frames kept are those the specification names. *)
Lemma filter_doomed_dedup (thr : Q) (F : list TexNode) :
  Forall (fun f => is_TexNode f = true) F
  → NoDup (omap uid_of F)
  → List.filter (keeps_if (among (omap uid_of (doomed thr F)))) F
    = Spec.dedup thr F.
Proof.
  induction 1 as [|f rest Hf Hrest IH]; intros Hnd; [done|].
  destruct f as [s|k u nm a ch]; [done|]. set (f := TexExpr k u nm a ch) in *.
  cbn [omap list_omap] in Hnd. change (uid_of f) with (Some u) in Hnd.
  cbn [option_bind] in Hnd.
  assert (Hu : u ∉ omap uid_of rest) by (by apply NoDup_cons_1_1 in Hnd).
  assert (Hnd' : NoDup (omap uid_of rest)) by (by apply NoDup_cons_1_2 in Hnd).
  specialize (IH Hnd').
  assert (Hfresh : among (omap uid_of (doomed thr rest)) u = false).
  { destruct (among (omap uid_of (doomed thr rest)) u) eqn:Ha; [|done].
    exfalso. apply Hu. apply among_elem_of in Ha.
    apply list_elem_of_omap in Ha as (x & Hx & Hgx).
    apply list_elem_of_omap. exists x. split; [|done].
    apply list_elem_of_In. apply list_elem_of_In in Hx.
    by apply doomed_sub in Hx. }
  assert (Hrest_keep : ∀ x, In x rest
    → keeps_if (among (u :: omap uid_of (doomed thr rest))) x
      = keeps_if (among (omap uid_of (doomed thr rest))) x).
  { intros x Hx. unfold keeps_if. destruct (uid_of x) as [v|] eqn:Hv; [|done].
    cbn [among existsb]. destruct (Nat.eqb_spec v u) as [->|_]; [|done].
    exfalso. apply Hu. apply list_elem_of_omap. exists x.
    split; [by apply list_elem_of_In|done]. }
  cbn [doomed Spec.dedup]. destruct rest as [|g rest'].
  { cbn [omap list_omap]. reflexivity. }
  rewrite filter_cons_eq.
  destruct (Spec.collapses thr f g).
  - cbn [omap list_omap]. change (uid_of f) with (Some u).
    cbn [option_bind].
    assert (Hkf : keeps_if (among (u :: omap uid_of (doomed thr (g :: rest')))) f
                  = false).
    { unfold keeps_if. change (uid_of f) with (Some u).
      cbn [among existsb]. by rewrite Nat.eqb_refl. }
    rewrite Hkf, <- IH. apply filter_ext_in. exact Hrest_keep.
  - assert (Hkf : keeps_if (among (omap uid_of (doomed thr (g :: rest')))) f
                  = true).
    { unfold keeps_if. change (uid_of f) with (Some u). cbv beta iota.
      by rewrite Hfresh. }
    by rewrite Hkf, IH.
Qed.

Lemma NoDup_of_uids (F : list TexNode) :
  Forall (fun f => is_TexNode f = true) F → NoDup (omap uid_of F) → NoDup F.
Proof.
  induction 1 as [|f rest Hf Hrest IH]; intros Hnd; [constructor|].
  destruct f as [s|k u nm a ch]; [done|]. set (f := TexExpr k u nm a ch) in *.
  cbn [omap list_omap] in Hnd. change (uid_of f) with (Some u) in Hnd.
  cbn [option_bind] in Hnd.
  apply NoDup_cons. split; [|apply IH; by apply NoDup_cons_1_2 in Hnd].
  apply NoDup_cons_1_1 in Hnd. intros Hin. apply Hnd.
  apply list_elem_of_omap. by exists f.
Qed.

(** Membership in the frames kept, pair by pair. *)
Lemma dedup_lookup (thr : Q) (F : list TexNode) (i : nat) (f : TexNode) :
  NoDup F → F !! i = Some f
  → (f ∈ Spec.dedup thr F
     ↔ match F !! S i with
       | Some g => Spec.collapses thr f g = false
       | None => True
       end).
Proof.
  intros Hnd. revert i. induction Hnd as [|f0 rest Hf0 Hnd IH]; [done|].
  intros i Hi. cbn [Spec.dedup].
  assert (Hnot : f0 ∉ Spec.dedup thr rest).
  { intros Hin. apply Hf0. apply list_elem_of_In.
    apply list_elem_of_In in Hin. by apply dedup_sub in Hin. }
  destruct i as [|j].
  - injection Hi as <-. cbn [lookup list_lookup].
    destruct rest as [|g rest']; [cbn; split; [done|intros _; by left]|].
    cbn [lookup list_lookup]. destruct (Spec.collapses thr f0 g).
    + split; [done|discriminate].
    + split; [done|intros _; by left].
  - cbn [lookup list_lookup] in Hi |- *.
    assert (Hne : f ≠ f0).
    { intros ->. apply Hf0. by eapply list_elem_of_lookup_2. }
    rewrite <- (IH j Hi).
    destruct rest as [|g rest']; [done|].
    destruct (Spec.collapses thr f0 g); [done|].
    rewrite elem_of_cons. split; [intros [?|?]; done|by right].
Qed.

Lemma collapses_default (f g : TexNode) :
  (Spec.collapses LatexPresentation.default_threshold f g = true
   ↔ (9 # 10 <= Spec.overlap f g)%Q)
  ∧ (Spec.collapses LatexPresentation.default_threshold f g = false
     ↔ (Spec.overlap f g < 9 # 10)%Q).
Proof.
  assert (Hle : Qle_bool LatexPresentation.default_threshold (Spec.overlap f g)
                = true
                ↔ (9 # 10 <= Spec.overlap f g)%Q) by apply Qle_bool_iff.
  unfold Spec.collapses. case_bool_decide as Hne; cbn [andb].
  - split; [exact Hle|].
    rewrite <- not_true_iff_false, Hle. split.
    + apply Qnot_le_lt.
    + apply Qlt_not_le.
  - assert (Hr : Spec.overlap f g = 0%Q).
    { unfold Spec.overlap.
      by destruct (Spec.tokens f) as [|t ts]. }
    rewrite Hr. split; split; done.
Qed.

Lemma frames_after_pass (thr : Q) (soup : TexNode) :
  Spec.unique_ids soup → Spec.flat_frames soup
  → LatexPresentation.frames
      (delete_if
         (among (omap uid_of (doomed thr (LatexPresentation.frames soup))))
         soup)
    = Spec.dedup thr (LatexPresentation.frames soup).
Proof.
  intros Hu Hflat. unfold LatexPresentation.frames.
  rewrite find_all_delete_if.
  - apply filter_doomed_dedup; [apply frames_are_nodes|].
    by apply NoDup_omap_filter.
  - intros d Hd Hk. unfold keeps_if in Hk.
    destruct (uid_of d) as [u|] eqn:Hud; [|done].
    apply negb_false_iff, among_elem_of, list_elem_of_omap in Hk
      as (f & Hf & Huf).
    apply list_elem_of_In, doomed_sub, filter_In in Hf as [Hf Hnamed].
    by rewrite (NoDup_omap_inj uid_of _ d f u Hu Hd Hf Hud Huf).
  - intros d Hd Hnamed. unfold Spec.flat_frames in Hflat.
    rewrite List.Forall_forall in Hflat. apply Hflat.
    apply filter_In. done.
Qed.

(** C1, as amended: a presentation built from a source text or from a
    file path runs one deduplication pass over its frames, in document
    order, while it is built.  Of each two consecutive frames the earlier
    one is deleted from the tree when the share of its word-tokens that
    occur among the tokens of the later frame is 0.9 or more, and is kept
    when that share is below 0.9 (a frame without tokens has the share
    0); the last frame is always kept.  (The later frame of a pair is
    kept or deleted as the earlier frame of the next pair.)  The tree is
    one that owns each of its nodes once -- every node has an identity of
    its own -- and where no frame lies inside a frame. *)
Theorem dedup_at_construction (parse : nat → string → TexNode)
  (fs : string → result string) (fuel : nat) (filepath source : option string)
  (soup : TexNode) :
  LatexBase.init parse fs fuel filepath source = Ok soup
  → Spec.unique_ids soup
  → Spec.flat_frames soup
  → ∃ soup',
      LatexPresentation.init parse fs fuel filepath source = Ok soup'
      ∧ LatexPresentation.frames soup'
        = Spec.dedup (9 # 10) (LatexPresentation.frames soup)
      ∧ ∀ i earlier,
          LatexPresentation.frames soup !! i = Some earlier
          → match LatexPresentation.frames soup !! S i with
            | Some later =>
                let ratio := Spec.overlap earlier later in
                LatexPresentation.frame_tokens earlier
                = Ok (Spec.tokens earlier)
                ∧ LatexPresentation.frame_tokens later
                  = Ok (Spec.tokens later)
                ∧ ((9 # 10 <= ratio)%Q
                   → earlier ∉ LatexPresentation.frames soup')
                ∧ ((ratio < 9 # 10)%Q
                   → earlier ∈ LatexPresentation.frames soup')
            | None => earlier ∈ LatexPresentation.frames soup'
            end.
Proof.
  intros Hinit Hu Hflat. unfold LatexPresentation.init. rewrite Hinit.
  cbn [mbind result_bind]. rewrite remove_sequential_frames_doomed.
  eexists. split; [reflexivity|].
  rewrite frames_after_pass by done.
  split; [reflexivity|]. intros i earlier Hi.
  assert (Hnd : NoDup (LatexPresentation.frames soup)).
  { apply NoDup_of_uids; [apply frames_are_nodes|].
    by apply NoDup_omap_filter. }
  pose proof (dedup_lookup LatexPresentation.default_threshold _ i earlier
                Hnd Hi) as Hmem.
  destruct (LatexPresentation.frames soup !! S i) as [later|] eqn:Hnext.
  - pose proof (frames_are_nodes soup) as Hnodes.
    rewrite List.Forall_forall in Hnodes.
    assert (He : is_TexNode earlier = true).
    { apply Hnodes. apply list_elem_of_In. by eapply list_elem_of_lookup_2. }
    assert (Hl : is_TexNode later = true).
    { apply Hnodes. apply list_elem_of_In. by eapply list_elem_of_lookup_2. }
    destruct (collapses_default earlier later) as [Hc Hn].
    cbv zeta. split; [by apply frame_tokens_node|].
    split; [by apply frame_tokens_node|]. split.
    + intros Hq. apply Hc in Hq. rewrite Hmem, Hq. done.
    + intros Hq. apply Hn in Hq. by apply Hmem.
  - by apply Hmem.
Qed.

(** C1, witness: the deck of three frames, built from a source text. *)
Lemma dedup_at_construction_witness :
  ∃ soup',
    LatexPresentation.init (Examples.parse_as Examples.three_frames)
      Examples.no_fs 0 None (Some "deck")
    = Ok soup'
    ∧ LatexPresentation.frames soup'
      = Spec.dedup (9 # 10) (LatexPresentation.frames Examples.three_frames)
    ∧ ∀ i earlier,
        LatexPresentation.frames Examples.three_frames !! i = Some earlier
        → match LatexPresentation.frames Examples.three_frames !! S i with
          | Some later =>
              let ratio := Spec.overlap earlier later in
              LatexPresentation.frame_tokens earlier
              = Ok (Spec.tokens earlier)
              ∧ LatexPresentation.frame_tokens later
                = Ok (Spec.tokens later)
              ∧ ((9 # 10 <= ratio)%Q
                 → earlier ∉ LatexPresentation.frames soup')
              ∧ ((ratio < 9 # 10)%Q
                 → earlier ∈ LatexPresentation.frames soup')
          | None => earlier ∈ LatexPresentation.frames soup'
          end.
Proof.
  apply (dedup_at_construction (Examples.parse_as Examples.three_frames)
           Examples.no_fs 0 None (Some "deck") Examples.three_frames).
  - reflexivity.
  - unfold Spec.unique_ids. apply (bool_decide_unpack (NoDup _)).
    vm_compute. exact I.
  - unfold Spec.flat_frames. vm_compute. repeat constructor.
Defined.

(** C1, counterexample: in the deck of the frames [x], [a b], [a b c] the
    first two frames share no token, so their ratio is below 0.9, and yet
    the later frame of this pair is not retained: it collapses into the
    third frame. *)
Lemma dedup_deletes_later_frame :
  let built :=
    LatexPresentation.init (Examples.parse_as Examples.three_frames)
      Examples.no_fs 0 None (Some "deck") in
  LatexPresentation.frames Examples.three_frames
  = [Examples.frame_x; Examples.frame_ab; Examples.frame_abc]
  ∧ Spec.overlap Examples.frame_x Examples.frame_ab = 0%Q
  ∧ built = Ok (Examples.deck [Examples.frame_x; Examples.frame_abc])
  ∧ (soup' ← built; Ok (LatexPresentation.frames soup'))
    = Ok [Examples.frame_x; Examples.frame_abc].
Proof. vm_compute. repeat split; reflexivity. Qed.

(** The boundary of the threshold: nine shared tokens of ten collapse the
    pair, eight of ten leave both frames. *)
Example dedup_threshold_met :
  LatexPresentation.overlap_ratio (Spec.tokens Examples.frame_ten)
    (Spec.tokens Examples.frame_nine_shared)
  = (9 # 10)%Q
  ∧ LatexPresentation.remove_sequential_frames (9 # 10) Examples.deck_90
    = Ok (Examples.deck [Examples.frame_nine_shared]).
Proof. vm_compute. split; reflexivity. Qed.

Example dedup_threshold_missed :
  LatexPresentation.overlap_ratio (Spec.tokens Examples.frame_ten)
    (Spec.tokens Examples.frame_eight_shared)
  = (8 # 10)%Q
  ∧ LatexPresentation.remove_sequential_frames (9 # 10) Examples.deck_80
    = Ok Examples.deck_80.
Proof. vm_compute. split; reflexivity. Qed.

(** ** Instances *)

(** C10, witness: the second frame of the deck of three, and two indices
    out of range. *)
Lemma frame_by_index_witness :
  LatexPresentation.frame Examples.three_frames 1 = Ok (Some Examples.frame_ab)
  ∧ LatexPresentation.slide Examples.three_frames 1
    = Ok (Some Examples.frame_ab)
  ∧ LatexPresentation.frame Examples.three_frames 3 = Ok None
  ∧ LatexPresentation.frame Examples.three_frames (-1) = Ok None.
Proof.
  destruct (frame_by_index Examples.three_frames 1) as (Hs & Hf & _).
  destruct (frame_by_index Examples.three_frames 3) as (_ & Hhi & _).
  destruct (frame_by_index Examples.three_frames (-1)) as (_ & Hlo & _).
  split; [|split; [|split]].
  - rewrite Hf. reflexivity.
  - rewrite Hs, Hf. reflexivity.
  - rewrite Hhi. reflexivity.
  - rewrite Hlo. reflexivity.
Defined.

(** C7, witness: the four ways of a title, and a frame that is no node. *)
Lemma get_frame_title_order_witness :
  map (LatexPresentation.get_frame_title Examples.titled_doc)
    (LatexPresentation.frames Examples.titled_doc)
  = [Some "On Slides"; Some "Intro"; Some "Method"; None]
  ∧ LatexPresentation.get_frame_title Examples.titled_doc (TexText "frame")
    = None.
Proof.
  split.
  - cbn [map LatexPresentation.frames]. vm_compute LatexPresentation.frames.
    cbn [map find_all List.filter].
    repeat match goal with
           | |- context [LatexPresentation.get_frame_title ?s ?f] =>
               rewrite (proj1 (get_frame_title_order s f))
           end.
    reflexivity.
  - apply (proj2 (get_frame_title_order Examples.titled_doc (TexText "frame"))
             AttributeError).
    reflexivity.
Defined.

(** A title that holds markup is the string content of the argument,
    markup included. *)
Example get_frame_title_markup :
  LatexPresentation.get_frame_title Examples.titled_doc Examples.markup_frame
  = Some "On \textbf{Slides}".
Proof. reflexivity. Qed.

(** C4, witness: ["Introduction"; "Method"] against ["Method";
    "Introduction"], with a scorer that scores every pair 0. *)
Lemma match_elements_exact_pairs_witness :
  let run :=
    metrics.match_elements Examples.stub_scorer ["Introduction"; "Method"]
      ["Method"; "Introduction"] (6 # 10) 3 in
  length run.1 = 1
  ∧ ∃ ms, run.2 = Ok ms
          ∧ Spec.exact_match "Introduction" 0 1 ∈ ms
          ∧ Spec.exact_match "Method" 1 0 ∈ ms.
Proof.
  intros run.
  destruct (match_elements_exact_pairs Examples.stub_scorer
              ["Introduction"; "Method"] ["Method"; "Introduction"]
              (6 # 10) 3) as (Hcalls & Hexact & Htotal & _).
  fold run in Hcalls, Hexact, Htotal.
  split; [by rewrite Hcalls|].
  destruct Htotal as [ms Hms]; [vm_compute; lia|].
  exists ms. split; [done|].
  split; apply (Hexact ms Hms); reflexivity.
Defined.

(** C5, witness: one match; no match; the three crossed matches. *)
Lemma kendall_tau_cases_witness :
  metrics.calculate_kendall_tau [Spec.exact_match "Intro" 4 7] 3 = 1%Q
  ∧ metrics.calculate_kendall_tau [] 3 = 0%Q
  ∧ metrics.calculate_kendall_tau
      [Spec.exact_match "Intro" 0 0; Spec.exact_match "Intro" 0 1] 3
    = 0%Q
  ∧ Spec.is_rounded
      (metrics.calculate_kendall_tau Examples.crossed_matches 3) 1 9 3.
Proof.
  split; [|split; [|split]].
  - apply (kendall_tau_cases [Spec.exact_match "Intro" 4 7] 3). reflexivity.
  - apply (kendall_tau_cases [] 3); [discriminate|reflexivity].
  - destruct (kendall_tau_cases
                [Spec.exact_match "Intro" 0 0; Spec.exact_match "Intro" 0 1] 3)
      as (_ & Hnan & _ & Hties).
    apply Hnan; [discriminate|]. apply Hties. left. exists 0%Z.
    repeat constructor.
  - apply (kendall_tau_cases Examples.crossed_matches 3);
      [discriminate|reflexivity].
Defined.

(** * Further properties of the code *)

(** ** The table of contents *)

Lemma toc_fold (l : list LatexBase.Section) (acc : list LatexBase.TocEntry) :
  fold_left
    (fun toc s =>
       toc ++ [LatexBase.mk_TocEntry (LatexBase.section s)
                 (map LatexBase.sub_section (LatexBase.subsections s))])
    l acc
  = acc ++ map (fun s => LatexBase.mk_TocEntry (LatexBase.section s)
                  (map LatexBase.sub_section (LatexBase.subsections s))) l.
Proof.
  revert acc. induction l as [|s l IH]; intros acc; simpl.
  - by rewrite app_nil_r.
  - by rewrite IH, <- app_assoc.
Qed.

Lemma sub_titles_app (xs ys : list LatexBase.Section) :
  sub_titles (xs ++ ys) = sub_titles xs ++ sub_titles ys.
Proof. unfold sub_titles. by rewrite map_app, concat_app. Qed.

Lemma update_last_snoc {A} (f : A → A) (xs : list A) :
  LatexBase.update_last f xs
  = match last xs with
    | Some x => removelast xs ++ [f x]
    | None => []
    end.
Proof.
  induction xs as [|x [|y xs] IH]; [done|done|].
  change (LatexBase.update_last f (x :: y :: xs))
    with (x :: LatexBase.update_last f (y :: xs)).
  rewrite IH. clear IH.
  change (last (x :: y :: xs)) with (last (y :: xs)).
  destruct (last (y :: xs)) as [z|] eqn:Hl; [done|].
  apply last_None in Hl. done.
Qed.

Lemma snoc_last {A} (xs : list A) (x : A) :
  last xs = Some x → xs = removelast xs ++ [x].
Proof.
  intros Hl. destruct (decide (xs = [])) as [->|Hne]; [done|].
  rewrite (app_removelast_last x Hne) at 1. f_equal. f_equal.
  clear Hne. induction xs as [|y [|z xs] IH]; simpl in *; [done|congruence|].
  by apply IH.
Qed.

Lemma sub_titles_update_content (data : string) (secs : list LatexBase.Section) :
  sub_titles (LatexBase.update_last (LatexBase.add_content data) secs)
  = sub_titles secs.
Proof.
  rewrite update_last_snoc. destruct (last secs) as [s|] eqn:Hl.
  - rewrite (snoc_last secs s Hl) at 2. by rewrite !sub_titles_app.
  - apply last_None in Hl. by subst.
Qed.

Lemma sub_titles_update_sub_content (data : string)
  (secs : list LatexBase.Section) :
  sub_titles
    (LatexBase.update_last
       (LatexBase.on_subsections
          (LatexBase.update_last (LatexBase.add_sub_content data))) secs)
  = sub_titles secs.
Proof.
  rewrite update_last_snoc. destruct (last secs) as [s|] eqn:Hl.
  - rewrite (snoc_last secs s Hl) at 2. rewrite !sub_titles_app. f_equal.
    unfold sub_titles. simpl. f_equal. by apply map_update_last.
  - apply last_None in Hl. by subst.
Qed.

Lemma sub_titles_append (st : LatexBase.sec_state) (data : string) :
  sub_titles (LatexBase.secs (LatexBase.append st data))
  = sub_titles (LatexBase.secs st).
Proof.
  unfold LatexBase.append.
  destruct (LatexBase.is_section st); simpl.
  - apply sub_titles_update_content.
  - destruct (LatexBase.is_subsection st); simpl; [|done].
    apply sub_titles_update_sub_content.
Qed.

Lemma sub_titles_add_sub (t : option string) (secs : list LatexBase.Section) :
  sub_titles
    (LatexBase.update_last
       (LatexBase.on_subsections
          (fun subs => subs ++ [LatexBase.mk_Subsection t "" [] []])) secs)
  = sub_titles secs ++ (if bool_decide (secs = []) then [] else [t]).
Proof.
  rewrite update_last_snoc. destruct (last secs) as [s|] eqn:Hl.
  - rewrite bool_decide_eq_false_2 by (intros ->; done).
    rewrite (snoc_last secs s Hl) at 2. rewrite !sub_titles_app, <- app_assoc.
    f_equal. unfold sub_titles. simpl. by rewrite !app_nil_r, map_app.
  - apply last_None in Hl. by subst.
Qed.

(** A step of the scan records at most the title of the node it reads,
    and only when that node is a [subsection] command. *)
Lemma sections_step_sub_titles (st : LatexBase.sec_state) (node : TexNode) :
  ∃ new,
    sub_titles (LatexBase.secs (LatexBase.sections_step st node))
    = sub_titles (LatexBase.secs st) ++ new
    ∧ new `sublist_of`
        (if named "subsection" node then [node_string node] else []).
Proof.
  unfold LatexBase.sections_step.
  destruct (named "section" node) eqn:Hs; simpl.
  { exists []. rewrite sub_titles_app. split; [done|]. apply sublist_nil_l. }
  destruct (LatexBase.parse st); simpl.
  2:{ exists []. rewrite app_nil_r. split; [done|]. apply sublist_nil_l. }
  destruct (named "subsection" node) eqn:Hsub; simpl.
  { rewrite sub_titles_add_sub. eexists. split; [reflexivity|].
    case_bool_decide; [apply sublist_nil_l|done]. }
  exists []. rewrite app_nil_r. split; [|done].
  destruct node as [s|k u nm a ch]; [apply sub_titles_append|].
  repeat (match goal with
          | |- context [if ?b then _ else _] => destruct b
          end; try apply sub_titles_append; try done).
Qed.

Lemma sections_loop_sub_titles (nodes : list TexNode)
  (st : LatexBase.sec_state) :
  ∃ new,
    sub_titles (LatexBase.secs (fold_left LatexBase.sections_step nodes st))
    = sub_titles (LatexBase.secs st) ++ new
    ∧ new `sublist_of`
        map node_string (List.filter (named "subsection") nodes).
Proof.
  revert st. induction nodes as [|n nodes IH]; intros st; simpl.
  - exists []. by rewrite app_nil_r.
  - destruct (IH (LatexBase.sections_step st n)) as (new & -> & Hnew).
    destruct (sections_step_sub_titles st n) as (new0 & -> & Hnew0).
    exists (new0 ++ new). split; [by rewrite app_assoc|].
    destruct (named "subsection" n); simpl.
    + change (node_string n :: ?l) with ([node_string n] ++ l).
      by apply sublist_app.
    + apply sublist_nil_r in Hnew0. by subst.
Qed.

(** X1: the table of contents has one entry for each [section] command
    below the document environment, in document order and with the string
    of that command as its title, whatever stop commands lie between; the
    subsection titles it lists are, in order, strings of [subsection]
    commands of the document.  Without a document environment it is
    empty. *)
Theorem toc_lists_section_commands (soup : TexNode) :
  map LatexBase.toc_section (LatexBase.toc soup)
  = match find "document" soup with
    | Some document => map node_string (find_all "section" document)
    | None => []
    end
  ∧ concat (map LatexBase.toc_subsections (LatexBase.toc soup))
    `sublist_of`
      match find "document" soup with
      | Some document => map node_string (find_all "subsection" document)
      | None => []
      end.
Proof.
  unfold LatexBase.toc. rewrite toc_fold. cbn [app].
  rewrite !map_map. cbn [LatexBase.toc_section LatexBase.toc_subsections].
  unfold LatexBase.sections.
  destruct (find "document" soup) as [document|]; [|done].
  split.
  - apply (sections_loop_titles _ LatexBase.sections_init).
  - destruct (sections_loop_sub_titles (descendants document)
                LatexBase.sections_init) as (new & Heq & Hnew).
    unfold sub_titles in Heq. unfold LatexBase.sections_loop.
    rewrite Heq. exact Hnew.
Qed.

(** ** Text before the first section *)

(** X2: the nodes that come before the first [section] command of the
    body add nothing to the sections: the scan of [pre ++ nodes] gives
    what the scan of [nodes] gives when [pre] holds no [section] command,
    and the scan of [pre] alone gives no section. *)
Theorem sections_ignore_preamble (pre nodes : list TexNode) :
  Forall (fun n => named "section" n = false) pre
  → LatexBase.sections_loop (pre ++ nodes) = LatexBase.sections_loop nodes
    ∧ LatexBase.secs (LatexBase.sections_loop pre) = [].
Proof.
  intros Hpre. unfold LatexBase.sections_loop.
  pose proof (sections_skip_suspended pre LatexBase.sections_init Hpre) as Hs.
  change (suspended LatexBase.sections_init) with LatexBase.sections_init in Hs.
  by rewrite fold_left_app, Hs.
Qed.

(** X2, witness: an abstract and a subsection before [\section{A}]. *)
Lemma sections_ignore_preamble_witness :
  LatexBase.sections_loop
    ([TexText "abstract"; cmd 17 "subsection" [brace 18 "lost"]; TexText "lost"]
     ++ [Examples.sectionA; TexText "A"; TexText "text"])
  = LatexBase.sections_loop [Examples.sectionA; TexText "A"; TexText "text"]
  ∧ LatexBase.secs
      (LatexBase.sections_loop
         [TexText "abstract"; cmd 17 "subsection" [brace 18 "lost"];
          TexText "lost"])
    = [].
Proof.
  apply (sections_ignore_preamble
           [TexText "abstract"; cmd 17 "subsection" [brace 18 "lost"];
            TexText "lost"]
           [Examples.sectionA; TexText "A"; TexText "text"]).
  repeat constructor.
Defined.

(** ** Sections by title *)

Lemma get_subsection_first (subs : list LatexBase.Subsection) (t : string) :
  match LatexBase.get_subsection subs t with
  | Some sub =>
      ∃ pre post,
        subs = pre ++ sub :: post
        ∧ LatexBase.sub_section sub = Some t
        ∧ Forall (fun sub' => LatexBase.sub_section sub' ≠ Some t) pre
  | None => Forall (fun sub' => LatexBase.sub_section sub' ≠ Some t) subs
  end.
Proof.
  induction subs as [|sub subs IH]; simpl; [constructor|].
  case_bool_decide as Hsub.
  - exists [], subs. by repeat split.
  - destruct (LatexBase.get_subsection subs t) as [sub'|].
    + destruct IH as (pre & post & -> & Ht & Hpre).
      exists (sub :: pre), post. repeat split; [done|by constructor].
    + by constructor.
Qed.

(** X3: [get_section] returns the first section, in document order,
    whose title or one of whose subsection titles is the title asked for:
    the section itself when its own title matches, otherwise its first
    subsection of that title; it returns the empty dictionary exactly when
    no section and no subsection bears the title. *)
Theorem get_section_first_match (soup : TexNode) (section_title : string) :
  let no_match (s : LatexBase.Section) :=
    LatexBase.section s ≠ Some section_title
    ∧ Forall (fun sub => LatexBase.sub_section sub ≠ Some section_title)
        (LatexBase.subsections s) in
  match LatexBase.get_section soup section_title with
  | LatexBase.FoundSection s =>
      ∃ pre post,
        LatexBase.sections soup = pre ++ s :: post
        ∧ LatexBase.section s = Some section_title
        ∧ Forall no_match pre
  | LatexBase.FoundSubsection sub =>
      ∃ pre s post subpre subpost,
        LatexBase.sections soup = pre ++ s :: post
        ∧ LatexBase.section s ≠ Some section_title
        ∧ LatexBase.subsections s = subpre ++ sub :: subpost
        ∧ LatexBase.sub_section sub = Some section_title
        ∧ Forall (fun sub' => LatexBase.sub_section sub' ≠ Some section_title)
            subpre
        ∧ Forall no_match pre
  | LatexBase.EmptyDict => Forall no_match (LatexBase.sections soup)
  end.
Proof.
  intros no_match. unfold LatexBase.get_section.
  induction (LatexBase.sections soup) as [|s secs IH]; simpl; [constructor|].
  case_bool_decide as Hs.
  { exists [], secs. by repeat split. }
  pose proof (get_subsection_first (LatexBase.subsections s) section_title)
    as Hsub.
  destruct (LatexBase.get_subsection (LatexBase.subsections s) section_title)
    as [sub|].
  { destruct Hsub as (subpre & subpost & Heq & Ht & Hpre).
    exists [], s, secs, subpre, subpost. by repeat split. }
  assert (Hno : no_match s) by done.
  destruct (LatexBase.get_section_loop secs section_title) as [s'|sub'|].
  - destruct IH as (pre & post & -> & Ht & Hpre).
    exists (s :: pre), post. repeat split; [done|by constructor].
  - destruct IH as (pre & s' & post & subpre & subpost & -> & H1 & H2 & H3
                    & H4 & H5).
    exists (s :: pre), s', post, subpre, subpost.
    repeat split; try done. by constructor.
  - by constructor.
Qed.

(** ** Citations *)

(** X4: [get_citation] never returns a citation.  With no bibliography
    entry it returns [None]; with at least one it raises [AttributeError]
    at the first key, whatever [key] is asked for; an exception of
    [bibitems] is passed on. *)
Theorem get_citation_never_finds (soup : TexNode) (key : string) :
  match LatexBase.bibitems soup with
  | Ok items =>
      LatexBase.get_citation soup key
      = if bool_decide (items = ∅) then Ok None else Raise AttributeError
  | Raise e => LatexBase.get_citation soup key = Raise e
  end.
Proof.
  unfold LatexBase.get_citation.
  destruct (LatexBase.bibitems soup) as [items|e]; simpl; [|done].
  case_bool_decide as He.
  - subst. by rewrite map_to_list_empty.
  - destruct (map_to_list items) as [|[k l] rest] eqn:Hl; [|done].
    by apply map_to_list_empty_iff in Hl.
Qed.

(** ** Errors and keys of the bibliography entries *)

Lemma bibitems_step_cases (st : LatexBase.bib_state) (n : TexNode) :
  (LatexBase.start_parse st = true
   → is_Some (LatexBase.items st !! LatexBase.key st))
  → match LatexBase.bibitems_step st n with
    | Ok st' =>
        (LatexBase.start_parse st' = true
         → is_Some (LatexBase.items st' !! LatexBase.key st'))
        ∧ (named "bibitem" n = true → args n ≠ [])
        ∧ ∀ k, is_Some (LatexBase.items st' !! k)
               ↔ is_Some (LatexBase.items st !! k) ∨ bibitem_key [n] k
    | Raise e => e = IndexError ∧ named "bibitem" n = true ∧ args n = []
    end.
Proof.
  intros Hinv. unfold LatexBase.bibitems_step.
  destruct (named "bibitem" n) eqn:Hn.
  - destruct (args n) as [|a0 a'] eqn:Ha; simpl; [done|].
    rewrite lookup_insert_eq. simpl. split; [|split].
    + intros _. rewrite lookup_insert_eq. eauto.
    + done.
    + intros k. rewrite insert_insert_eq.
      destruct (decide (k = Py.str_opt (arg_string a0))) as [->|Hk].
      * rewrite lookup_insert_eq. split; [|eauto]. intros _. right.
        exists n, a0, a'. repeat split; [apply list_elem_of_here|done..].
      * rewrite lookup_insert_ne by done. split; [eauto|].
        intros [H|(n' & b0 & b' & Hin & _ & Hb & ->)]; [done|].
        apply list_elem_of_singleton in Hin. subst n'.
        rewrite Ha in Hb. by injection Hb as <- <-.
  - simpl. destruct (LatexBase.start_parse st) eqn:Hsp.
    + destruct (Hinv eq_refl) as [l Hl]. rewrite Hl. simpl.
      split; [|split].
      * intros _. rewrite lookup_insert_eq. eauto.
      * done.
      * intros k. destruct (decide (k = LatexBase.key st)) as [->|Hk].
        -- rewrite lookup_insert_eq. split; [intros _; left; eauto|eauto].
        -- rewrite lookup_insert_ne by done. split; [eauto|].
           intros [H|(n' & b0 & b' & Hin & Hb & _)]; [done|].
           apply list_elem_of_singleton in Hin. subst n'. congruence.
    + split; [by rewrite Hsp|]. split; [done|].
      intros k. split; [eauto|].
      intros [H|(n' & b0 & b' & Hin & Hb & _)]; [done|].
      apply list_elem_of_singleton in Hin. subst n'. congruence.
Qed.

Lemma bibitem_key_cons (n : TexNode) (nodes : list TexNode) (k : string) :
  bibitem_key (n :: nodes) k ↔ bibitem_key [n] k ∨ bibitem_key nodes k.
Proof.
  unfold bibitem_key. split.
  - intros (n' & a0 & a' & Hin & H).
    apply elem_of_cons in Hin as [->|Hin].
    + left. exists n, a0, a'. split; [apply list_elem_of_here|done].
    + right. exists n', a0, a'. done.
  - intros [(n' & a0 & a' & Hin & H)|(n' & a0 & a' & Hin & H)];
      exists n', a0, a'.
    + apply list_elem_of_singleton in Hin as ->.
      split; [apply list_elem_of_here|done].
    + split; [by apply list_elem_of_further|done].
Qed.

Lemma bibitems_loop_cases (nodes : list TexNode) (st : LatexBase.bib_state) :
  (LatexBase.start_parse st = true
   → is_Some (LatexBase.items st !! LatexBase.key st))
  → match LatexBase.bibitems_loop st nodes with
    | Ok st' =>
        ¬ bare_bibitem nodes
        ∧ (∀ k, is_Some (LatexBase.items st' !! k)
                ↔ is_Some (LatexBase.items st !! k) ∨ bibitem_key nodes k)
    | Raise e => e = IndexError ∧ bare_bibitem nodes
    end.
Proof.
  revert st. induction nodes as [|n nodes IH]; intros st Hinv; simpl.
  - split.
    + intros (n & Hin & _). by apply elem_of_nil in Hin.
    + intros k. split; [eauto|]. intros [H|(n & ? & ? & Hin & _)]; [done|].
      by apply elem_of_nil in Hin.
  - pose proof (bibitems_step_cases st n Hinv) as Hstep.
    destruct (LatexBase.bibitems_step st n) as [st1|e]; simpl.
    + destruct Hstep as (Hinv1 & Hargs & Hkeys).
      specialize (IH st1 Hinv1).
      destruct (LatexBase.bibitems_loop st1 nodes) as [st'|e].
      * destruct IH as [Hbare IH]. split.
        -- intros (n' & Hin & Hb & Ha).
           apply elem_of_cons in Hin as [->|Hin]; [by apply Hargs|].
           apply Hbare. by exists n'.
        -- intros k. rewrite IH, Hkeys, (bibitem_key_cons n nodes). tauto.
      * destruct IH as (-> & n' & Hin & Hb & Ha). split; [done|].
        exists n'. split; [by apply list_elem_of_further|done].
    + destruct Hstep as (-> & Hb & Ha). split; [done|].
      exists n. split; [apply list_elem_of_here|done].
Qed.

(** X5: [bibitems] fails in one way only: with [IndexError], and exactly
    when some [bibitem] command of the bibliography has no argument (the
    look-up of the current key never fails): it raises [IndexError] when
    there is such a command, and returns when there is none.  When it
    returns, its keys are the keys of the [bibitem] commands of the
    bibliography, and there is none without a bibliography. *)
Theorem bibitems_keys_and_errors (soup : TexNode) :
  let nodes :=
    match LatexBase.bibliography soup with
    | Some bib => contents bib
    | None => []
    end in
  match LatexBase.bibitems soup with
  | Ok items =>
      ¬ bare_bibitem nodes
      ∧ ∀ k, is_Some (items !! k) ↔ bibitem_key nodes k
  | Raise e => e = IndexError ∧ bare_bibitem nodes
  end.
Proof.
  intros nodes. subst nodes. unfold LatexBase.bibitems.
  destruct (LatexBase.bibliography soup) as [bib|].
  - pose proof (bibitems_loop_cases (contents bib)
                  (LatexBase.mk_bib_state ∅ false "")) as Hloop.
    destruct (LatexBase.bibitems_loop _ (contents bib)) as [st|e]; simpl.
    + destruct (Hloop ltac:(done)) as [Hbare Hkeys]. split; [done|].
      intros k. rewrite Hkeys. simpl.
      rewrite lookup_empty. split; [|eauto].
      intros [[? ?]|?]; done.
    + by apply Hloop.
  - split.
    + intros (n & Hin & _). by apply elem_of_nil in Hin.
    + intros k. rewrite lookup_empty. split; [by intros [? ?]|].
      intros (n & ? & ? & Hin & _). by apply elem_of_nil in Hin.
Qed.

(** ** Authors, affiliations, institutes *)

Lemma find_is_Some (nm : string) (soup : TexNode) :
  bool_decide (is_Some (find nm soup))
  = negb (bool_decide (find_all nm soup = [])).
Proof.
  unfold find. by destruct (find_all nm soup).
Qed.

(** X6: [authors], [affiliations] and [institutes] each return the
    commands of the plain name when there is one, and the commands of the
    [icml] name only when there is none; the result is a list in every
    case, empty when neither kind occurs. *)
Theorem authors_prefer_plain_commands (soup : TexNode) :
  let cascade (plain icml : string) :=
    if bool_decide (find_all plain soup = []) then find_all icml soup
    else find_all plain soup in
  LatexBase.authors soup = cascade "author" "icmlauthor"
  ∧ LatexBase.affiliations soup = cascade "affiliation" "icmlaffiliation"
  ∧ LatexBase.institutes soup = cascade "institute" "icmlinstitute".
Proof.
  intros cascade. subst cascade.
  unfold LatexBase.authors, LatexBase.affiliations, LatexBase.institutes.
  rewrite !find_is_Some. cbv beta.
  split; [|split].
  - destruct (find_all "author" soup) eqn:Ha; simpl; [|done].
    by destruct (find_all "icmlauthor" soup).
  - destruct (find_all "affiliation" soup) eqn:Ha; simpl; [|done].
    by destruct (find_all "icmlaffiliation" soup).
  - destruct (find_all "institute" soup) eqn:Ha; simpl; [|done].
    by destruct (find_all "icmlinstitute" soup).
Qed.

(** ** Word count *)

Lemma split_ws_aux_app (cur : list ascii) (a b : string) (c : ascii) :
  Py.isspace c = true
  → Py.split_ws_aux cur (a +:+ String c b)
    = Py.split_ws_aux cur a ++ Py.split_ws_aux [] b.
Proof.
  intros Hc. revert cur. induction a as [|x a IH]; intros cur; simpl.
  - by rewrite Hc.
  - destruct (Py.isspace x); [by rewrite IH, app_assoc|apply IH].
Qed.

Lemma split_join_space (l : list string) :
  Py.split (Py.join " " l) = concat (map Py.split l).
Proof.
  unfold Py.join, Py.split.
  induction l as [|x [|y l] IH]; [done| |].
  - simpl. by rewrite app_nil_r.
  - change (String.concat " " (x :: y :: l))
      with (x +:+ String " " (String.concat " " (y :: l))).
    rewrite split_ws_aux_app by done. rewrite IH. reflexivity.
Qed.

(** X7: the word count of a document is the sum, over the text fragments
    below its document environment, of the number of words of each
    fragment (a word never runs across two fragments); it is [None] when
    there is no document environment. *)
Theorem word_count_sums_fragments (soup : TexNode) :
  LatexBase.word_count soup
  = match find "document" soup with
    | Some document =>
        Some (sum_list (map (fun s => length (Py.split s)) (text document)))
    | None => None
    end.
Proof.
  unfold LatexBase.word_count.
  destruct (find "document" soup) as [document|]; [|done].
  rewrite split_join_space. f_equal.
  induction (text document) as [|s l IH]; simpl; [done|].
  by rewrite length_app, IH.
Qed.

(** ** Frame contents are tidy *)

Lemma contains_nl_cons (c : ascii) (s : string) :
  Py.contains Py.nl (String c s)
  = Ascii.eqb c Py.newline || Py.contains Py.nl s.
Proof.
  cbn [Py.contains]. f_equal. unfold Py.nl. cbn [String.prefix].
  destruct (ascii_dec Py.newline c) as [<-|Hne].
  - rewrite Ascii.eqb_refl. by destruct s.
  - symmetry. apply Ascii.eqb_neq. congruence.
Qed.

Lemma contains_nl_remove (s : string) :
  Py.contains Py.nl (Py.remove_char Py.newline s) = false.
Proof.
  induction s as [|c s IH]; [done|]. cbn [Py.remove_char].
  destruct (Ascii.eqb c Py.newline) eqn:Hc; [exact IH|].
  by rewrite contains_nl_cons, Hc, IH.
Qed.

Lemma contains_nl_lstrip (s : string) :
  Py.contains Py.nl s = false → Py.contains Py.nl (Py.lstrip s) = false.
Proof.
  induction s as [|c s IH]; [done|]. intros Hs. cbn [Py.lstrip].
  destruct (Py.isspace c); [|exact Hs]. apply IH.
  rewrite contains_nl_cons in Hs. by apply orb_false_iff in Hs as [_ ?].
Qed.

Lemma contains_nl_rstrip (s : string) :
  Py.contains Py.nl s = false → Py.contains Py.nl (Py.rstrip s) = false.
Proof.
  induction s as [|c s IH]; [done|]. intros Hs.
  rewrite contains_nl_cons in Hs. apply orb_false_iff in Hs as [Hc Hs].
  specialize (IH Hs). cbn [Py.rstrip].
  destruct (Py.rstrip s) as [|c' r].
  - destruct (Py.isspace c); [done|]. by rewrite contains_nl_cons, Hc.
  - by rewrite contains_nl_cons, Hc, IH.
Qed.

Lemma rstrip_idemp (s : string) : Py.rstrip (Py.rstrip s) = Py.rstrip s.
Proof.
  induction s as [|c s IH]; [done|]. cbn [Py.rstrip].
  destruct (Py.rstrip s) as [|c' r] eqn:Hr.
  - destruct (Py.isspace c) eqn:Hc; [done|]. simpl. by rewrite Hc.
  - cbn [Py.rstrip] in *. by rewrite IH.
Qed.

Lemma lstrip_rstrip_lstrip (s : string) :
  Py.lstrip (Py.rstrip (Py.lstrip s)) = Py.rstrip (Py.lstrip s).
Proof.
  destruct (Py.lstrip s) as [|c t] eqn:Hl; [done|].
  assert (Hc : Py.isspace c = false)
    by (apply (lstrip_first s); by rewrite Hl).
  pose proof (rstrip_first (String c t) c eq_refl Hc) as Hf.
  destruct (Py.rstrip (String c t)) as [|c' r]; [done|].
  simpl in Hf. injection Hf as ->. simpl. by rewrite Hc.
Qed.

Lemma strip_idemp (s : string) : Py.strip (Py.strip s) = Py.strip s.
Proof.
  unfold Py.strip. by rewrite lstrip_rstrip_lstrip, rstrip_idemp.
Qed.

Lemma clean_and_merge_tidy (l : list string) :
  tidy (LatexBase.clean_and_merge (LatexBase.Strs l)).
Proof.
  unfold tidy, LatexBase.clean_and_merge. split; [|apply strip_idemp].
  unfold Py.strip. apply contains_nl_rstrip, contains_nl_lstrip,
    contains_nl_remove.
Qed.

Lemma get_frame_contents_tidy (frame : TexNode) (s : string) :
  LatexPresentation.get_frame_contents frame = Some s → tidy s.
Proof.
  unfold LatexPresentation.get_frame_contents.
  destruct (is_TexNode frame); simpl; [|done].
  intros [= <-]. apply clean_and_merge_tidy.
Qed.

(** X8: the content of a frame, and every entry of [contents], holds no
    line break and neither starts nor ends with whitespace; when the
    document has no title, so that no frame counts as the title page, no
    entry of [contents] is empty.  The content of an argument that is no
    node is [None]. *)
Theorem contents_are_tidy (soup frame : TexNode) :
  Forall tidy (LatexPresentation.contents soup)
  ∧ match LatexPresentation.get_frame_contents frame with
    | Some s => tidy s ∧ is_TexNode frame = true
    | None => is_TexNode frame = false
    end
  ∧ (if LatexBase.title_truthy (LatexBase.title soup) then True
     else Forall (fun s => s ≠ "") (LatexPresentation.contents soup)).
Proof.
  split; [|split].
  - unfold LatexPresentation.contents.
    assert (H : ∀ l acc, Forall tidy acc
      → Forall tidy (fold_left (LatexPresentation.contents_step soup) l acc)).
    { induction l as [|f l IH]; intros acc Hacc; simpl; [done|].
      apply IH. unfold LatexPresentation.contents_step.
      destruct (_ && _).
      - apply Forall_app. split; [done|]. constructor; [|done].
        apply clean_and_merge_tidy.
      - destruct (LatexPresentation.get_frame_contents f) as [s|] eqn:Hs;
          [|done].
        destruct (Py.truthy s); [|done].
        apply Forall_app. split; [done|]. constructor; [|done].
        by apply (get_frame_contents_tidy f). }
    by apply H.
  - destruct (LatexPresentation.get_frame_contents frame) as [s|] eqn:Hs.
    + split; [by apply (get_frame_contents_tidy frame)|].
      unfold LatexPresentation.get_frame_contents in Hs.
      by destruct (is_TexNode frame).
    + unfold LatexPresentation.get_frame_contents in Hs.
      by destruct (is_TexNode frame).
  - destruct (LatexBase.title_truthy (LatexBase.title soup)) eqn:Ht; [done|].
    unfold LatexPresentation.contents.
    assert (H : ∀ l acc, Forall (fun s => s ≠ "") acc
      → Forall (fun s => s ≠ "")
          (fold_left (LatexPresentation.contents_step soup) l acc)).
    { induction l as [|f l IH]; intros acc Hacc; simpl; [done|].
      apply IH. unfold LatexPresentation.contents_step. rewrite Ht. simpl.
      destruct (LatexPresentation.get_frame_contents f) as [s|]; [|done].
      destruct (Py.truthy s) eqn:Hs; [|done].
      apply Forall_app. split; [done|]. constructor; [|done].
      intros ->. done. }
    by apply H.
Qed.

(** ** Frame titles *)

Lemma frame_titles_fold (soup : TexNode) (l : list TexNode)
  (acc : list string) :
  fold_left
    (fun titles frame =>
       match LatexPresentation.get_frame_title soup frame with
       | Some title => if Py.truthy title then titles ++ [title] else titles
       | None => titles
       end) l acc
  = acc ++ List.filter Py.truthy
             (omap (LatexPresentation.get_frame_title soup) l).
Proof.
  revert acc. induction l as [|f l IH]; intros acc; simpl.
  - by rewrite app_nil_r.
  - rewrite IH.
    destruct (LatexPresentation.get_frame_title soup f) as [t|]; [|done].
    simpl. destruct (Py.truthy t); [|done]. by rewrite <- app_assoc.
Qed.

Lemma omap_length_le {A B} (f : A → option B) (l : list A) :
  (length (omap f l) ≤ length l)%nat.
Proof.
  induction l as [|x l IH]; csimpl; [done|]. destruct (f x); simpl; lia.
Qed.

(** X9: [frame_titles] lists, in document order, the titles of the
    frames that have a non-empty title; a frame without one is left out,
    so that the list can be shorter than the number of frames, and no
    title in it is empty. *)
Theorem frame_titles_nonempty_in_order (soup : TexNode) :
  LatexPresentation.frame_titles soup
  = List.filter Py.truthy
      (omap (LatexPresentation.get_frame_title soup)
         (LatexPresentation.frames soup))
  ∧ Forall (fun t => t ≠ "") (LatexPresentation.frame_titles soup)
  ∧ (length (LatexPresentation.frame_titles soup)
     ≤ LatexPresentation.frame_count soup)%nat.
Proof.
  assert (Heq : LatexPresentation.frame_titles soup
    = List.filter Py.truthy
        (omap (LatexPresentation.get_frame_title soup)
           (LatexPresentation.frames soup))).
  { unfold LatexPresentation.frame_titles. by rewrite frame_titles_fold. }
  split; [exact Heq|]. rewrite Heq. split.
  - apply List.Forall_forall. intros t [_ Ht]%filter_In. by intros ->.
  - unfold LatexPresentation.frame_count.
    etrans; [apply List.filter_length_le|]. apply omap_length_le.
Qed.

(** ** Bullets and words per frame *)

(** X10: [words_per_frame] is 0 for a presentation without frames; with
    frames it raises [TypeError] when there is no document environment
    (the word count is then [None]), and otherwise it is the word count
    over the number of frames.  [bullets_per_frame] is 0 without frames
    and the number of [item] commands over the number of frames
    otherwise; it never fails. *)
Theorem words_per_frame_cases (soup : TexNode) :
  LatexPresentation.words_per_frame soup
  = match LatexPresentation.frames soup, find "document" soup with
    | [], _ => Ok 0%Q
    | _ :: _, None => Raise TypeError
    | _ :: _, Some document =>
        Ok (inject_Z
              (Z.of_nat
                 (sum_list (map (fun s => length (Py.split s))
                              (text document))))
            / inject_Z (Z.of_nat (length (LatexPresentation.frames soup))))%Q
    end
  ∧ LatexPresentation.bullets_per_frame soup
    = match LatexPresentation.frames soup with
      | [] => 0%Q
      | _ :: _ =>
          (inject_Z (Z.of_nat (length (find_all "item" soup)))
           / inject_Z (Z.of_nat (length (LatexPresentation.frames soup))))%Q
      end.
Proof.
  unfold LatexPresentation.words_per_frame, LatexPresentation.bullets_per_frame,
    LatexPresentation.frame_count, LatexPresentation.bullets,
    LatexBase.word_count.
  destruct (LatexPresentation.frames soup) as [|f l]; [done|].
  split; [|done]. simpl.
  destruct (find "document" soup) as [document|]; [|done].
  rewrite split_join_space. do 4 f_equal.
  induction (text document) as [|s t IH]; simpl; [done|].
  by rewrite length_app, IH.
Qed.

(** ** A threshold above one *)

Lemma overlap_ratio_le_1 (previous_content content : list string) :
  (LatexPresentation.overlap_ratio previous_content content <= 1)%Q.
Proof.
  unfold LatexPresentation.overlap_ratio, LatexPresentation.common_content.
  pose proof (List.filter_length_le (fun c => Py.mem c content) previous_content)
    as Hle.
  set (a := length (List.filter _ previous_content)) in *.
  set (b := length previous_content) in *.
  destruct b as [|b].
  - assert (a = 0) as -> by lia. done.
  - apply Qle_shift_div_r; [done|]. rewrite Qmult_1_l.
    rewrite <- Zle_Qle. lia.
Qed.

Lemma collapses_high_threshold (thr : Q) (earlier later : TexNode) :
  (1 < thr)%Q → Spec.collapses thr earlier later = false.
Proof.
  intros Hthr. rewrite collapses_ratio. apply andb_false_iff. right.
  destruct (Qle_bool thr _) eqn:Hq; [|done].
  apply Qle_bool_iff in Hq.
  pose proof (overlap_ratio_le_1 (Spec.tokens earlier) (Spec.tokens later)).
  exfalso. apply (Qlt_irrefl 1). eapply Qlt_le_trans; [exact Hthr|].
  eapply Qle_trans; [exact Hq|exact H].
Qed.

Lemma doomed_high_threshold (thr : Q) (frames : list TexNode) :
  (1 < thr)%Q → doomed thr frames = [].
Proof.
  intros Hthr. induction frames as [|f [|g l] IH]; [done|done|].
  change (doomed thr (f :: g :: l))
    with (if Spec.collapses thr f g then f :: doomed thr (g :: l)
          else doomed thr (g :: l)).
  by rewrite collapses_high_threshold.
Qed.

(** X11: with a threshold above 1 the pass over the frames deletes
    nothing, since no share of tokens exceeds 1; nor does it delete
    anything from a presentation of at most one frame.  In both cases it
    returns the tree as it was. *)
Theorem remove_sequential_frames_keeps_all (thr : Q) (soup : TexNode) :
  (1 < thr)%Q ∨ (length (LatexPresentation.frames soup) ≤ 1)%nat
  → LatexPresentation.remove_sequential_frames thr soup = Ok soup.
Proof.
  intros H. rewrite remove_sequential_frames_doomed. f_equal.
  assert (Hd : doomed thr (LatexPresentation.frames soup) = []).
  { destruct H as [H|H]; [by apply doomed_high_threshold|].
    by destruct (LatexPresentation.frames soup) as [|f [|g l]];
      [| |simpl in H; lia]. }
  rewrite Hd. apply delete_if_none.
Qed.

(** X11, witness: the deck whose first frame shares nine of its ten tokens
    with the second, under the threshold 2; and a deck of one frame under
    the default threshold. *)
Lemma remove_sequential_frames_keeps_all_witness :
  LatexPresentation.remove_sequential_frames 2 Examples.deck_90
  = Ok Examples.deck_90
  ∧ LatexPresentation.remove_sequential_frames (9 # 10)
      (Examples.deck [Examples.frame_ten])
    = Ok (Examples.deck [Examples.frame_ten]).
Proof.
  split.
  - apply (remove_sequential_frames_keeps_all 2 Examples.deck_90).
    left. reflexivity.
  - apply (remove_sequential_frames_keeps_all (9 # 10)
             (Examples.deck [Examples.frame_ten])).
    right. vm_compute. lia.
Defined.

(** ** Removing duplicates *)

Lemma fromkeys_aux_elem_of (seen xs : list string) (x : string) :
  x ∈ metrics.fromkeys_aux seen xs ↔ x ∈ xs ∧ x ∉ seen.
Proof.
  revert seen. induction xs as [|y xs IH]; intros seen; simpl.
  - split; [by intros ?%elem_of_nil|by intros [?%elem_of_nil _]].
  - destruct (Py.mem y seen) eqn:Hm.
    + apply mem_elem_of in Hm. rewrite IH, elem_of_cons.
      split; [tauto|]. intros [[->|?] ?]; [done|tauto].
    + apply mem_not_elem_of in Hm. rewrite !elem_of_cons, IH, elem_of_cons.
      split.
      * intros [->|[? ?]]; [tauto|]. split; [tauto|]. intros ?. tauto.
      * intros [[->|?] ?]; [tauto|].
        destruct (decide (x = y)) as [->|?]; [tauto|]. right. tauto.
Qed.

Lemma fromkeys_aux_NoDup (seen xs : list string) :
  NoDup (metrics.fromkeys_aux seen xs).
Proof.
  revert seen. induction xs as [|y xs IH]; intros seen; simpl.
  - constructor.
  - destruct (Py.mem y seen); [apply IH|]. constructor; [|apply IH].
    rewrite fromkeys_aux_elem_of, elem_of_cons. tauto.
Qed.

Lemma fromkeys_aux_sublist (seen xs : list string) :
  metrics.fromkeys_aux seen xs `sublist_of` xs.
Proof.
  revert seen. induction xs as [|y xs IH]; intros seen; simpl; [done|].
  destruct (Py.mem y seen); [by apply sublist_cons|by apply sublist_skip].
Qed.

Lemma fromkeys_aux_id (seen xs : list string) :
  NoDup xs → (∀ x, x ∈ xs → x ∉ seen) → metrics.fromkeys_aux seen xs = xs.
Proof.
  intros Hnd. revert seen.
  induction Hnd as [|y xs Hy Hnd IH]; intros seen Hseen; simpl; [done|].
  rewrite (proj2 (mem_not_elem_of y seen)) by (apply Hseen; left).
  f_equal. apply IH. intros x Hx. rewrite elem_of_cons.
  intros [->|?]; [done|]. by apply (Hseen x); [right|].
Qed.

Lemma mem_ext (y : string) (xs ys : list string) :
  (y ∈ xs ↔ y ∈ ys) → Py.mem y xs = Py.mem y ys.
Proof.
  intros H. destruct (Py.mem y ys) eqn:Hy.
  - apply mem_elem_of. apply H. by apply mem_elem_of.
  - apply mem_not_elem_of. rewrite H. by apply mem_not_elem_of.
Qed.

Lemma fromkeys_aux_cons_filter (seen seen' xs : list string) (x : string) :
  (∀ z, z ∈ seen' ↔ z = x ∨ z ∈ seen)
  → metrics.fromkeys_aux seen' xs
    = metrics.fromkeys_aux seen
        (List.filter (fun y => negb (String.eqb y x)) xs).
Proof.
  revert seen seen'. induction xs as [|y xs IH]; intros seen seen' Hs;
    simpl; [done|].
  destruct (String.eqb_spec y x) as [->|Hne]; simpl.
  - rewrite (proj2 (mem_elem_of x seen')) by (apply Hs; by left).
    by apply IH.
  - rewrite (mem_ext y seen' seen) by (rewrite Hs; tauto).
    destruct (Py.mem y seen); [by apply IH|]. f_equal.
    apply IH. intros z. rewrite !elem_of_cons, Hs. tauto.
Qed.

(** X12: removing duplicates ([list(dict.fromkeys(xs))]) keeps exactly
    the first occurrence of every element: the result has no duplicate,
    holds the same elements as the input in the order of the input, starts
    with the first element and goes on with the rest freed of it; a list
    without duplicates is returned as it is, so that removing duplicates
    twice is removing them once. *)
Theorem fromkeys_first_occurrences (xs : list string) :
  NoDup (metrics.fromkeys xs)
  ∧ (∀ x, x ∈ metrics.fromkeys xs ↔ x ∈ xs)
  ∧ metrics.fromkeys xs `sublist_of` xs
  ∧ (∀ x, metrics.fromkeys (x :: xs)
          = x :: metrics.fromkeys
                   (List.filter (fun y => negb (String.eqb y x)) xs))
  ∧ metrics.fromkeys (metrics.fromkeys xs) = metrics.fromkeys xs
  ∧ length (metrics.fromkeys xs) = Spec.count_distinct xs.
Proof.
  unfold metrics.fromkeys. split; [apply fromkeys_aux_NoDup|].
  split.
  { intros x. rewrite fromkeys_aux_elem_of, elem_of_nil. tauto. }
  split; [apply fromkeys_aux_sublist|]. split.
  { intros x. simpl. f_equal. apply fromkeys_aux_cons_filter.
    intros z. rewrite elem_of_cons, elem_of_nil. tauto. }
  split.
  { apply fromkeys_aux_id; [apply fromkeys_aux_NoDup|].
    intros x _. apply not_elem_of_nil. }
  apply Nat2Z.inj. rewrite <- len_set_count_distinct. unfold metrics.len_set.
  f_equal. rewrite <- (size_list_to_set (C := gset string))
    by apply fromkeys_aux_NoDup.
  f_equal. apply set_eq. intros x.
  rewrite !elem_of_list_to_set, fromkeys_aux_elem_of, elem_of_nil. tauto.
Qed.

(** ** The matches among the pairs of the cross product *)

Lemma pair_of_append (d : nat) (ms : list metrics.MatchRecord)
  (c : string) (i : nat) (r : string) (j : nat) (p q f : Q) :
  map pair_of (metrics.append_match d ms c i r j p q f)
  = map pair_of ms ++ [(c, i, r, j)].
Proof. unfold metrics.append_match. by rewrite map_app. Qed.

Lemma match_loop_pairs (bs : metrics.BertScore) (thr : Q) (d k : nat)
  (perms : list (string * nat * string * nat))
  (acc : list metrics.MatchRecord) :
  match metrics.match_loop bs thr d k perms acc with
  | Ok ms =>
      ∃ new, map pair_of ms = map pair_of acc ++ new
             ∧ new `sublist_of` perms
  | Raise e => e = IndexError
  end.
Proof.
  revert k acc. induction perms as [|[[[c i] r] j] perms IH]; intros k acc;
    simpl.
  - exists []. by rewrite app_nil_r.
  - assert (Hkeep : ∀ p q f,
      match metrics.match_loop bs thr d (S k) perms
              (metrics.append_match d acc c i r j p q f) with
      | Ok ms =>
          ∃ new, map pair_of ms = map pair_of acc ++ new
                 ∧ new `sublist_of` (c, i, r, j) :: perms
      | Raise e => e = IndexError
      end).
    { intros p q f. specialize (IH (S k) (metrics.append_match d acc c i r j p q f)).
      destruct (metrics.match_loop _ _ _ _ _ _) as [ms|e]; [|done].
      destruct IH as (new & Heq & Hsub). exists ((c, i, r, j) :: new).
      rewrite Heq, pair_of_append, <- app_assoc. split; [done|].
      by apply sublist_skip. }
    assert (Hdrop :
      match metrics.match_loop bs thr d (S k) perms acc with
      | Ok ms =>
          ∃ new, map pair_of ms = map pair_of acc ++ new
                 ∧ new `sublist_of` (c, i, r, j) :: perms
      | Raise e => e = IndexError
      end).
    { specialize (IH (S k) acc).
      destruct (metrics.match_loop _ _ _ _ _ _) as [ms|e]; [|done].
      destruct IH as (new & Heq & Hsub). exists new. split; [done|].
      by apply sublist_cons. }
    destruct (String.eqb c r); [apply Hkeep|].
    unfold getitem.
    destruct (metrics.bs_precision bs !! k) as [p|]; simpl; [|done].
    destruct (metrics.bs_recall bs !! k) as [q|]; simpl; [|done].
    destruct (metrics.bs_f1 bs !! k) as [f|]; simpl; [|done].
    destruct (Qle_bool thr f); [apply Hkeep|apply Hdrop].
Qed.

Lemma permutations_lookup (cs rs : list string) (c r : string) (i j : nat) :
  (c, i, r, j) ∈ metrics.permutations cs rs
  ↔ cs !! i = Some c ∧ rs !! j = Some r.
Proof.
  split; [|intros [? ?]; by apply elem_of_permutations].
  unfold metrics.permutations, metrics.enumerate.
  intros Hin%list_elem_of_In. apply in_flat_map in Hin as ([i' c'] & Hc & Hin).
  apply in_map_iff in Hin as ([j' r'] & Heq & Hr). injection Heq as -> -> -> ->.
  apply list_elem_of_In, elem_of_lookup_imap in Hc as (i0 & c0 & Heq & Hc).
  apply list_elem_of_In, elem_of_lookup_imap in Hr as (j0 & r0 & Heq' & Hr).
  injection Heq as -> ->. injection Heq' as -> ->. done.
Qed.

Lemma permutations_length (cs rs : list string) :
  length (metrics.permutations cs rs) = (length cs * length rs)%nat.
Proof.
  unfold metrics.permutations, metrics.enumerate.
  assert (H : ∀ (l : list (nat * string)),
    length (flat_map
              (fun '(i, ct) => map (fun '(j, rt) => (ct, i, rt, j)) (imap pair rs))
              l)
    = (length l * length rs)%nat).
  { induction l as [|[i c] l IH]; simpl; [done|].
    by rewrite length_app, IH, length_map, length_imap. }
  by rewrite H, length_imap.
Qed.

Lemma NoDup_flat_map {A B} (f : A → list B) (l : list A) :
  NoDup l
  → (∀ x, x ∈ l → NoDup (f x))
  → (∀ x1 x2 y, x1 ∈ l → x2 ∈ l → y ∈ f x1 → y ∈ f x2 → x1 = x2)
  → NoDup (flat_map f l).
Proof.
  induction 1 as [|x l Hx Hl IH]; intros Hf Hdisj; simpl; [constructor|].
  apply NoDup_app. split; [apply Hf; left|]. split.
  - intros y Hy Hy'%list_elem_of_In. apply in_flat_map in Hy' as (x' & Hx' & Hy').
    apply list_elem_of_In in Hx', Hy'.
    assert (x = x') by (eapply Hdisj; [left|by right|done..]).
    by subst.
  - apply IH; [intros; apply Hf; by right|].
    intros x1 x2 y H1 H2. apply Hdisj; by right.
Qed.

Lemma NoDup_enumerate {A} (xs : list A) : NoDup (imap pair xs).
Proof.
  apply NoDup_alt. intros i j [k x]. rewrite !list_lookup_imap.
  destruct (xs !! i); simpl; [|done]. destruct (xs !! j); simpl; [|done].
  congruence.
Qed.

Lemma permutations_NoDup_indices (cs rs : list string) :
  NoDup (map (fun '(_, i, _, j) => (i, j)) (metrics.permutations cs rs)).
Proof.
  apply NoDup_fmap_2_strong.
  - intros [[[c i] r] j] [[[c' i'] r'] j'] H1 H2 [= <- <-].
    apply permutations_lookup in H1 as [? ?], H2 as [? ?]. congruence.
  - unfold metrics.permutations, metrics.enumerate. apply NoDup_flat_map.
    + apply NoDup_enumerate.
    + intros [i c] _. apply NoDup_fmap_2_strong; [|apply NoDup_enumerate].
      intros [j r] [j' r'] _ _. congruence.
    + intros [i c] [i' c'] y _ _ H1%list_elem_of_In H2%list_elem_of_In.
      apply in_map_iff in H1 as ([j r] & <- & _).
      apply in_map_iff in H2 as ([j' r'] & Heq & _). congruence.
Qed.

Lemma sublist_map {A B} (f : A → B) (l k : list A) :
  l `sublist_of` k → map f l `sublist_of` map f k.
Proof.
  induction 1; simpl; [constructor|by apply sublist_skip|by apply sublist_cons].
Qed.

(** X13: the matches [match_elements] returns are, in order and without
    their scores, pairs of the cross product of the de-duplicated
    candidates and references: the index of each element of a match is
    its position in the de-duplicated list, no pair of positions is
    matched twice, the matches come sorted as the cross product is (by
    candidate, then by reference), and there are at most as many as
    pairs.  The only failure is an [IndexError], raised when the scorer
    returned too few values. *)
Theorem match_elements_pairs_in_order
  (scorer : list string → list string → metrics.BertScore)
  (candidate_elements reference_elements : list string)
  (f1_threshold : Q) (decimals : nat) :
  let cs := metrics.fromkeys candidate_elements in
  let rs := metrics.fromkeys reference_elements in
  match (metrics.match_elements scorer candidate_elements reference_elements
           f1_threshold decimals).2 with
  | Ok ms =>
      map pair_of ms `sublist_of` metrics.permutations cs rs
      ∧ Forall
          (fun m =>
             cs !! metrics.index (metrics.candidate m)
             = Some (metrics.element (metrics.candidate m))
             ∧ rs !! metrics.index (metrics.reference m)
               = Some (metrics.element (metrics.reference m))) ms
      ∧ NoDup (map (fun m => (metrics.index (metrics.candidate m),
                              metrics.index (metrics.reference m))) ms)
      ∧ (length ms ≤ length cs * length rs)%nat
  | Raise e => e = IndexError
  end.
Proof.
  intros cs rs. unfold metrics.match_elements. cbn [snd]. fold cs rs.
  set (perms := metrics.permutations cs rs).
  set (bs := scorer _ _).
  pose proof (match_loop_pairs bs f1_threshold decimals 0 perms []) as Hloop.
  destruct (metrics.match_loop bs f1_threshold decimals 0 perms []) as [ms|e];
    [|done].
  destruct Hloop as (new & Heq & Hsub). simpl in Heq. subst new.
  split; [done|]. split; [|split].
  - apply List.Forall_forall. intros m Hm%list_elem_of_In.
    apply (permutations_lookup cs rs).
    apply (sublist_subseteq _ _ Hsub).
    apply (list_elem_of_fmap_2 pair_of) in Hm. exact Hm.
  - assert (Hmap : map (fun m => (metrics.index (metrics.candidate m),
                                  metrics.index (metrics.reference m))) ms
                   = map (fun '(_, i, _, j) => (i, j)) (map pair_of ms))
      by (rewrite map_map; reflexivity).
    rewrite Hmap. eapply sublist_NoDup; [apply permutations_NoDup_indices|].
    by apply sublist_map.
  - rewrite <- (length_map pair_of ms), <- permutations_length.
    by apply sublist_length.
Qed.

(** ** Range and symmetry of the rank correlation *)

Lemma sgn_pair_differ (p q : Z * Z) :
  (Z.abs (metrics.sgn_pair p q) ≤ metrics.differ (fst p) (fst q)
   ∧ Z.abs (metrics.sgn_pair p q) ≤ metrics.differ (snd p) (snd q))%Z.
Proof.
  unfold metrics.sgn_pair, metrics.differ.
  destruct (Z.eqb_spec (fst p) (fst q)) as [->|Hx],
    (Z.eqb_spec (snd p) (snd q)) as [->|Hy];
    rewrite ?Z.sub_diag; simpl; lia.
Qed.

Lemma fold_sgn_pair_bound (p : Z * Z) (rest : list (Z * Z)) :
  (Z.abs (fold_right (fun q acc => metrics.sgn_pair p q + acc) 0 rest)
   ≤ fold_right (fun q acc => metrics.differ (fst p) (fst q) + acc) 0 rest
   ∧ Z.abs (fold_right (fun q acc => metrics.sgn_pair p q + acc) 0 rest)
     ≤ fold_right (fun q acc => metrics.differ (snd p) (snd q) + acc) 0 rest)%Z.
Proof.
  induction rest as [|q rest [IHx IHy]]; simpl; [lia|].
  pose proof (sgn_pair_differ p q) as [Hx Hy]. lia.
Qed.

Lemma tau_pairs_bound (pts : list (Z * Z)) :
  (Z.abs (metrics.con_minus_dis (metrics.tau_pairs pts))
   ≤ metrics.untied_x (metrics.tau_pairs pts)
   ∧ Z.abs (metrics.con_minus_dis (metrics.tau_pairs pts))
     ≤ metrics.untied_y (metrics.tau_pairs pts))%Z.
Proof.
  induction pts as [|p pts [IHx IHy]]; simpl; [lia|].
  pose proof (fold_sgn_pair_bound p pts) as [Hx Hy]. lia.
Qed.

Lemma round_abs_le_scale (s rad scale : Z) :
  (0 ≤ s)%Z → (0 < rad)%Z → (0 ≤ scale)%Z
  → (s * s ≤ scale * scale * rad)%Z
  → (0 ≤ metrics.round_abs s rad ≤ scale)%Z.
Proof.
  intros Hs Hrad Hscale Hle.
  destruct (round_abs_nearest s rad Hs Hrad) as (Hk & _ & Hlow).
  split; [done|]. destruct Hlow as [->|Hlow]; [done|].
  set (k := metrics.round_abs s rad) in *.
  destruct (Z_le_gt_dec k scale) as [?|Hgt]; [done|]. exfalso.
  assert ((2 * k - 1) * (2 * k - 1) * rad ≤ 4 * (scale * scale) * rad)%Z
    by lia.
  assert ((2 * scale + 1) * (2 * scale + 1) ≤ (2 * k - 1) * (2 * k - 1))%Z
    by nia.
  nia.
Qed.

Lemma round_tau_range (num rad : Z) (decimals : nat) :
  (0 < rad)%Z → (num * num ≤ rad)%Z
  → (-1 <= metrics.round_tau num rad decimals
     ∧ metrics.round_tau num rad decimals <= 1)%Q.
Proof.
  intros Hrad Hnum. unfold metrics.round_tau.
  set (scale := (10 ^ Z.of_nat decimals)%Z).
  assert (Hscale : (0 < scale)%Z) by (apply Z.pow_pos_nonneg; lia).
  destruct (round_abs_le_scale (Z.abs num * scale) rad scale) as [Hk0 Hk];
    [lia|done|lia|nia|].
  set (k := metrics.round_abs (Z.abs num * scale) rad) in *.
  rewrite Qred_correct.
  assert (Hq : (0 < inject_Z scale)%Q) by (rewrite <- (Zlt_Qlt 0); done).
  split.
  - apply Qle_shift_div_l; [done|].
    change (-1 * inject_Z scale)%Q with (inject_Z (-1) * inject_Z scale)%Q.
    rewrite <- inject_Z_mult, <- Zle_Qle.
    destruct (Z.sgn_spec num) as [[_ ->]|[[_ ->]|[_ ->]]]; lia.
  - apply Qle_shift_div_r; [done|]. rewrite Qmult_1_l, <- Zle_Qle.
    destruct (Z.sgn_spec num) as [[_ ->]|[[_ ->]|[_ ->]]]; lia.
Qed.

(** X14: the rank correlation returned lies between -1.0 and 1.0, for
    every list of matches and every number of decimals. *)
Theorem kendall_tau_range (matches : list metrics.MatchRecord)
  (decimals : nat) :
  (-1 <= metrics.calculate_kendall_tau matches decimals
   ∧ metrics.calculate_kendall_tau matches decimals <= 1)%Q.
Proof.
  unfold metrics.calculate_kendall_tau.
  destruct (Nat.eqb (length matches) 1); [done|].
  unfold metrics.kendalltau.
  set (t := metrics.tau_pairs _).
  destruct (Z.eqb_spec (metrics.untied_x t * metrics.untied_y t) 0)
    as [_|Hne]; [done|].
  pose proof (tau_pairs_bound (zip
    (map (fun m => Z.of_nat (metrics.index (metrics.candidate m))) matches)
    (map (fun m => Z.of_nat (metrics.index (metrics.reference m))) matches)))
    as [Hx Hy].
  fold t in Hx, Hy.
  apply round_tau_range; nia.
Qed.

Lemma zip_map_same {A} (f g : A → Z) (l : list A) :
  zip (map f l) (map g l) = map (fun a => (f a, g a)) l.
Proof. induction l as [|a l IH]; simpl; [done|]. by rewrite IH. Qed.

Lemma tau_pairs_swap (pts : list (Z * Z)) :
  let t := metrics.tau_pairs pts in
  metrics.tau_pairs (map (fun p => (snd p, fst p)) pts)
  = metrics.mk_tau (metrics.con_minus_dis t) (metrics.untied_y t)
      (metrics.untied_x t).
Proof.
  assert (Hf : ∀ p l,
    fold_right (fun q acc => metrics.sgn_pair (p.2, p.1) q + acc)%Z 0%Z
      (map (fun p => (p.2, p.1)) l)
    = fold_right (fun q acc => metrics.sgn_pair p q + acc)%Z 0%Z l).
  { intros p l. induction l as [|q l IH]; simpl; [done|]. rewrite IH.
    f_equal. unfold metrics.sgn_pair. simpl. lia. }
  assert (Hg : ∀ (c : Z) (g g' : Z * Z → Z) l, (∀ q, g' (q.2, q.1) = g q)
    → fold_right (fun q acc => metrics.differ c (g' q) + acc)%Z 0%Z
        (map (fun p => (p.2, p.1)) l)
      = fold_right (fun q acc => metrics.differ c (g q) + acc)%Z 0%Z l).
  { intros c g g' l Hgg. induction l as [|q l IH]; simpl; [done|].
    by rewrite IH, Hgg. }
  induction pts as [|p pts IH]; simpl in *; [done|].
  rewrite IH. simpl. rewrite Hf.
  rewrite (Hg p.2 snd fst) by done. rewrite (Hg p.1 fst snd) by done.
  reflexivity.
Qed.

(** X15: the rank correlation does not depend on which side is called
    the candidate: two lists of matches of which each has for candidate
    indices the reference indices of the other have the same rank
    correlation. *)
Theorem kendall_tau_symmetric (matches swapped : list metrics.MatchRecord)
  (decimals : nat) :
  map (fun m => metrics.index (metrics.candidate m)) swapped
  = map (fun m => metrics.index (metrics.reference m)) matches
  → map (fun m => metrics.index (metrics.reference m)) swapped
    = map (fun m => metrics.index (metrics.candidate m)) matches
  → metrics.calculate_kendall_tau swapped decimals
    = metrics.calculate_kendall_tau matches decimals.
Proof.
  intros Hc Hr. unfold metrics.calculate_kendall_tau.
  assert (Hlen : length swapped = length matches).
  { rewrite <- (length_map (fun m => metrics.index (metrics.candidate m)) swapped),
      Hc. by rewrite length_map. }
  rewrite Hlen. destruct (Nat.eqb (length matches) 1); [done|].
  assert (Hc' : map (fun m => Z.of_nat (metrics.index (metrics.candidate m)))
                  swapped
                = map (fun m => Z.of_nat (metrics.index (metrics.reference m)))
                    matches).
  { rewrite <- (map_map (fun m => metrics.index (metrics.candidate m)) Z.of_nat),
      Hc. by rewrite map_map. }
  assert (Hr' : map (fun m => Z.of_nat (metrics.index (metrics.reference m)))
                  swapped
                = map (fun m => Z.of_nat (metrics.index (metrics.candidate m)))
                    matches).
  { rewrite <- (map_map (fun m => metrics.index (metrics.reference m)) Z.of_nat),
      Hr. by rewrite map_map. }
  rewrite Hc', Hr'. unfold metrics.kendalltau. rewrite !zip_map_same.
  pose proof (tau_pairs_swap
    (map (fun a => (Z.of_nat (metrics.index (metrics.candidate a)),
                    Z.of_nat (metrics.index (metrics.reference a)))) matches))
    as Hswap.
  cbv zeta in Hswap. rewrite map_map in Hswap. simpl in Hswap.
  rewrite Hswap. simpl.
  set (t := metrics.tau_pairs _).
  by rewrite (Z.mul_comm (metrics.untied_y t)).
Qed.

(** X15, witness: the crossed matches and their mirror image. *)
Lemma kendall_tau_symmetric_witness :
  metrics.calculate_kendall_tau
    [Spec.exact_match "Intro" 0 0; Spec.exact_match "Results" 2 1;
     Spec.exact_match "Method" 1 2] 3
  = metrics.calculate_kendall_tau Examples.crossed_matches 3.
Proof.
  apply (kendall_tau_symmetric Examples.crossed_matches
           [Spec.exact_match "Intro" 0 0; Spec.exact_match "Results" 2 1;
            Spec.exact_match "Method" 1 2] 3); reflexivity.
Defined.

(** ** Matches in the same order, and in reverse order *)

Lemma fold_sgn_pair_const (s : Z) (p : Z * Z) (rest : list (Z * Z)) :
  Forall (fun q => metrics.sgn_pair p q = s ∧ fst p ≠ fst q ∧ snd p ≠ snd q)
    rest
  → fold_right (fun q acc => metrics.sgn_pair p q + acc)%Z 0%Z rest
    = (s * Z.of_nat (length rest))%Z
    ∧ fold_right (fun q acc => metrics.differ (fst p) (fst q) + acc)%Z 0%Z rest
      = Z.of_nat (length rest)
    ∧ fold_right (fun q acc => metrics.differ (snd p) (snd q) + acc)%Z 0%Z rest
      = Z.of_nat (length rest).
Proof.
  induction 1 as [|q rest (Hs & Hx & Hy) _ (IHs & IHx & IHy)]; simpl.
  - lia.
  - rewrite IHs, IHx, IHy, Hs. unfold metrics.differ.
    rewrite (proj2 (Z.eqb_neq _ _) Hx), (proj2 (Z.eqb_neq _ _) Hy). lia.
Qed.

Lemma tau_pairs_monotone (s : Z) (pts : list (Z * Z)) :
  StronglySorted
    (fun p q => metrics.sgn_pair p q = s ∧ fst p ≠ fst q ∧ snd p ≠ snd q) pts
  → let t := metrics.tau_pairs pts in
    metrics.con_minus_dis t = (s * metrics.untied_x t)%Z
    ∧ metrics.untied_y t = metrics.untied_x t
    ∧ (Z.of_nat (length pts) - 1 ≤ metrics.untied_x t)%Z.
Proof.
  induction 1 as [|p pts Hsorted (IHc & IHy & IHn) Hp]; simpl; [lia|].
  destruct (fold_sgn_pair_const s p pts) as (-> & -> & ->).
  { apply List.Forall_forall. intros q Hq. 
    rewrite List.Forall_forall in Hp. by apply Hp. }
  simpl in *. rewrite IHc, IHy. split; [lia|]. split; [done|].
  pose proof (untied_nonneg pts) as [? _]. lia.
Qed.

Lemma round_tau_unit (s T : Z) (decimals : nat) :
  (0 < T)%Z → s = 1%Z ∨ s = (-1)%Z
  → metrics.round_tau (s * T) (T * T) decimals = inject_Z s.
Proof.
  intros HT Hs. unfold metrics.round_tau.
  set (scale := (10 ^ Z.of_nat decimals)%Z).
  assert (Hscale : (0 < scale)%Z) by (apply Z.pow_pos_nonneg; lia).
  assert (Habs : Z.abs (s * T) = T) by (destruct Hs as [-> | ->]; lia).
  assert (Hsgn : Z.sgn (s * T) = s) by (destruct Hs as [-> | ->]; lia).
  rewrite Habs, Hsgn.
  assert (Hr : metrics.round_abs (T * scale) (T * T) = scale).
  { unfold metrics.round_abs.
    replace (T * scale * (T * scale))%Z with (scale * scale * (T * T))%Z by lia.
    rewrite Z.div_mul by nia. rewrite Z.sqrt_square by lia.
    replace (4 * (T * scale) * (T * scale)
             ?= (2 * scale + 1) * (2 * scale + 1) * (T * T))%Z with Lt; [done|].
    symmetry. apply Z.compare_lt_iff. nia. }
  rewrite Hr.
  assert (Hq : (inject_Z (s * scale) / inject_Z scale == inject_Z s)%Q).
  { rewrite inject_Z_mult. apply Qdiv_mult_l.
    intros H0. 
    assert (Hc : (0 < inject_Z scale)%Q) by (rewrite <- (Zlt_Qlt 0); done).
    rewrite H0 in Hc. by apply Qlt_irrefl in Hc. }
  apply Qred_complete in Hq. rewrite Hq.
  destruct Hs as [-> | ->]; reflexivity.
Qed.

(** X16: for at least two matches that come in the same order on both
    sides (candidate indices and reference indices both increase along
    the list) the rank correlation is exactly 1.0; when the reference
    indices decrease while the candidate indices increase it is exactly
    -1.0. *)
Theorem kendall_tau_of_ordered_matches (matches : list metrics.MatchRecord)
  (decimals : nat) :
  (2 ≤ length matches)%nat
  → (StronglySorted
       (fun a b =>
          (metrics.index (metrics.candidate a)
           < metrics.index (metrics.candidate b)
           ∧ metrics.index (metrics.reference a)
             < metrics.index (metrics.reference b))%nat) matches
     → metrics.calculate_kendall_tau matches decimals = 1%Q)
    ∧ (StronglySorted
         (fun a b =>
            (metrics.index (metrics.candidate a)
             < metrics.index (metrics.candidate b)
             ∧ metrics.index (metrics.reference b)
               < metrics.index (metrics.reference a))%nat) matches
       → metrics.calculate_kendall_tau matches decimals = (-1)%Q).
Proof.
  intros Hlen.
  assert (Hgen : ∀ s : Z, s = 1%Z ∨ s = (-1)%Z
    → StronglySorted
        (fun p q => metrics.sgn_pair p q = s ∧ fst p ≠ fst q ∧ snd p ≠ snd q)
        (map (fun a => (Z.of_nat (metrics.index (metrics.candidate a)),
                        Z.of_nat (metrics.index (metrics.reference a))))
           matches)
    → metrics.calculate_kendall_tau matches decimals = inject_Z s).
  { intros s Hs Hsorted. unfold metrics.calculate_kendall_tau.
    destruct (Nat.eqb_spec (length matches) 1) as [?|_]; [lia|].
    unfold metrics.kendalltau. rewrite zip_map_same.
    pose proof (tau_pairs_monotone s _ Hsorted) as (Hc & Hy & Hn).
    cbv zeta in Hc, Hy, Hn. rewrite length_map in Hn.
    set (t := metrics.tau_pairs _) in *.
    rewrite Hc, Hy.
    assert (HT : (0 < metrics.untied_x t)%Z) by lia.
    destruct (Z.eqb_spec (metrics.untied_x t * metrics.untied_x t) 0)
      as [?|_]; [nia|].
    by apply round_tau_unit. }
  split; intros Hsorted.
  - apply (Hgen 1%Z); [by left|].
    refine (StronglySorted_fmap _ _ _ _ _ Hsorted).
    intros a b [? ?]. unfold metrics.sgn_pair. simpl.
    split; [|lia].
    rewrite !(proj2 (Z.sgn_pos_iff _)) by lia. done.
  - apply (Hgen (-1)%Z); [by right|].
    refine (StronglySorted_fmap _ _ _ _ _ Hsorted).
    intros a b [? ?]. unfold metrics.sgn_pair. simpl.
    split; [|lia].
    rewrite (proj2 (Z.sgn_pos_iff _)) by lia.
    rewrite (proj2 (Z.sgn_neg_iff _)) by lia. done.
Qed.

(** X16, witness: three matches in order, and three in reverse order. *)
Lemma kendall_tau_of_ordered_matches_witness :
  metrics.calculate_kendall_tau
    [Spec.exact_match "Intro" 0 1; Spec.exact_match "Method" 1 3;
     Spec.exact_match "Results" 4 5] 3
  = 1%Q
  ∧ metrics.calculate_kendall_tau
      [Spec.exact_match "Intro" 0 5; Spec.exact_match "Method" 1 3;
       Spec.exact_match "Results" 4 1] 3
    = (-1)%Q.
Proof.
  split.
  - apply (kendall_tau_of_ordered_matches
             [Spec.exact_match "Intro" 0 1; Spec.exact_match "Method" 1 3;
              Spec.exact_match "Results" 4 5] 3); [simpl; lia|].
    repeat (constructor; simpl; try lia).
  - apply (kendall_tau_of_ordered_matches
             [Spec.exact_match "Intro" 0 5; Spec.exact_match "Method" 1 3;
              Spec.exact_match "Results" 4 1] 3); [simpl; lia|].
    repeat (constructor; simpl; try lia).
Defined.

(** ** Precision, recall and F1 *)

(** The scores are computed in double precision: for one match, nine
    unmatched candidates and twenty-one unmatched references the value of
    F1 is the double next above 0.0625, which rounds to 0.063 and not, as
    the exact 1/16 would, to 0.062.  Without any match the scores whose
    divisor is zero are not a number, and F1 with them. *)
Example precision_recall_f1_doubles :
  metrics.calculate_precision_recall_f1 ((1, 9), (21, 0))%Z 3
  = metrics.mk_PRF (np.true_divide 1 10) (np.true_divide 45 1000)
      (np.true_divide 63 1000)
  ∧ metrics.calculate_precision_recall_f1 ((2, 1), (0, 0))%Z 3
    = metrics.mk_PRF (np.true_divide 667 1000) (np.true_divide 1 1)
        (np.true_divide 8 10)
  ∧ metrics.calculate_precision_recall_f1 ((0, 2), (0, 0))%Z 3
    = metrics.mk_PRF np.zero PrimFloat.nan PrimFloat.nan.
Proof. vm_compute. repeat split; reflexivity. Qed.

(** ** The metrics of a pair of presentations *)

Lemma match_elements_sublist
  (scorer : list string → list string → metrics.BertScore)
  (candidate_elements reference_elements : list string)
  (f1_threshold : Q) (decimals : nat) :
  match (metrics.match_elements scorer candidate_elements reference_elements
           f1_threshold decimals).2 with
  | Ok ms =>
      map pair_of ms
      `sublist_of` metrics.permutations (metrics.fromkeys candidate_elements)
                     (metrics.fromkeys reference_elements)
  | Raise e => e = IndexError
  end.
Proof.
  unfold metrics.match_elements. cbn [snd].
  set (perms := metrics.permutations _ _). set (bs := scorer _ _).
  pose proof (match_loop_pairs bs f1_threshold decimals 0 perms []) as Hloop.
  destruct (metrics.match_loop bs f1_threshold decimals 0 perms []) as [ms|e];
    [|done].
  destruct Hloop as (new & Heq & Hsub). simpl in Heq. by subst new.
Qed.

Lemma fromkeys_len_set (xs : list string) :
  Z.of_nat (length (metrics.fromkeys xs)) = metrics.len_set xs.
Proof.
  unfold metrics.len_set, metrics.fromkeys. f_equal.
  rewrite <- (size_list_to_set (C := gset string))
    by apply fromkeys_aux_NoDup.
  f_equal. apply set_eq. intros x.
  rewrite !elem_of_list_to_set, fromkeys_aux_elem_of, elem_of_nil. tauto.
Qed.

Lemma len_set_mono (xs ys : list string) :
  (∀ x, x ∈ xs → x ∈ ys) → (metrics.len_set xs ≤ metrics.len_set ys)%Z.
Proof.
  intros Hsub. unfold metrics.len_set. apply inj_le, subseteq_size.
  intros x. rewrite !elem_of_list_to_set. apply Hsub.
Qed.

Lemma len_set_nonneg (xs : list string) : (0 ≤ metrics.len_set xs)%Z.
Proof. unfold metrics.len_set. lia. Qed.

(** X18: with the scoring method ["rouge"], [calculate_metrics] returns
    what the ROUGE scorer says of the two lists printed as strings.  With
    any other method it matches the elements and, unless the matcher
    fails (with [IndexError]), reports a confusion matrix whose entries
    are counts: TP is the number of matches, at most the number of pairs
    of distinct candidates and references; FP and FN are not negative and
    at most the number of distinct candidates and of distinct references;
    TN is 0; the scores are those of that matrix, and the rank
    correlation lies between -1 and 1. *)
Theorem calculate_metrics_reports_counts (Rouge : Type)
  (bert : list string → list string → metrics.BertScore)
  (rouge : list string → list string → Rouge)
  (str_list : list string → string)
  (candidates references : list string) (f1_threshold : Q)
  (scoring_method : string) :
  match metrics.calculate_metrics Rouge bert rouge str_list candidates
          references f1_threshold scoring_method with
  | Ok (metrics.RougeScores _ scores) =>
      scoring_method = "rouge"
      ∧ scores = rouge [str_list candidates] [str_list references]
  | Ok (metrics.BertMetrics _ m) =>
      scoring_method ≠ "rouge"
      ∧ (metrics.match_elements bert candidates references f1_threshold 3).2
        = Ok (metrics.metrics_matches m)
      ∧ (let '((TP, FP), (FN, TN)) := metrics.metrics_confusion_matrix m in
         TP = Z.of_nat (length (metrics.metrics_matches m))
         ∧ (TP ≤ metrics.len_set candidates * metrics.len_set references)%Z
         ∧ (0 ≤ FP ≤ metrics.len_set candidates)%Z
         ∧ (0 ≤ FN ≤ metrics.len_set references)%Z
         ∧ TN = 0%Z)
      ∧ metrics.metrics_precision_recall_f1 m
        = metrics.calculate_precision_recall_f1
            (metrics.metrics_confusion_matrix m) 3
      ∧ (-1 <= metrics.metrics_kendall_tau m
         ∧ metrics.metrics_kendall_tau m <= 1)%Q
  | Raise e => scoring_method ≠ "rouge" ∧ e = IndexError
  end.
Proof.
  unfold metrics.calculate_metrics.
  destruct (String.eqb_spec scoring_method "rouge") as [->|Hm]; [done|].
  pose proof (match_elements_sublist bert candidates references f1_threshold 3)
    as Hsub.
  destruct (metrics.match_elements bert candidates references f1_threshold 3).2
    as [ms|e]; simpl; [|done].
  split; [done|]. split; [done|].
  split; [|split; [done|apply kendall_tau_range]].
  assert (Hin : ∀ m, m ∈ ms
    → metrics.element (metrics.candidate m) ∈ candidates
      ∧ metrics.element (metrics.reference m) ∈ references).
  { intros m Hm'. apply (list_elem_of_fmap_2 pair_of) in Hm'.
    apply (sublist_subseteq _ _ Hsub) in Hm'.
    apply permutations_lookup in Hm' as [Hc Hr].
    apply list_elem_of_lookup_2 in Hc, Hr.
    unfold metrics.fromkeys in Hc, Hr.
    apply fromkeys_aux_elem_of in Hc as [? _], Hr as [? _]. done. }
  split; [done|]. split.
  { rewrite <- !fromkeys_len_set, <- Nat2Z.inj_mul. apply inj_le.
    rewrite <- (length_map pair_of ms), <- permutations_length.
    by apply sublist_length. }
  pose proof (len_set_nonneg (map (fun m => metrics.element (metrics.candidate m)) ms)).
  pose proof (len_set_nonneg (map (fun m => metrics.element (metrics.reference m)) ms)).
  assert (metrics.len_set (map (fun m => metrics.element (metrics.candidate m)) ms)
          ≤ metrics.len_set candidates)%Z.
  { apply len_set_mono. intros x (m & -> & Hm')%list_elem_of_fmap.
    by apply Hin. }
  assert (metrics.len_set (map (fun m => metrics.element (metrics.reference m)) ms)
          ≤ metrics.len_set references)%Z.
  { apply len_set_mono. intros x (m & -> & Hm')%list_elem_of_fmap.
    by apply Hin. }
  lia.
Qed.

(** ** Scoring every prediction against every reference *)

Lemma truthy_nonempty (s : string) : Py.truthy s = true ↔ s ≠ "".
Proof.
  unfold Py.truthy. destruct (String.eqb_spec s ""); simpl; split; congruence.
Qed.

Lemma scoring_row_cases (Scores : Type)
  (bert rouge : list string → list string → Scores)
  (method pred : string) (references : list string)
  (row : gmap string Scores) :
  let scorer :=
    if String.eqb (Py.lower method) "bert" then Some bert
    else if String.eqb (Py.lower method) "rouge" then Some rouge
    else None in
  match metrics.scoring_row Scores bert rouge method pred references row with
  | Ok row' =>
      Forall (fun ref => ref ≠ "") references
      ∧ ∀ ref, row' !! ref
               = match scorer with
                 | Some score =>
                     if bool_decide (ref ∈ references)
                     then Some (score [pred] [ref]) else row !! ref
                 | None => row !! ref
                 end
  | Raise e => e = ValueError ∧ Exists (fun ref => ref = "") references
  end.
Proof.
  intros scorer. revert row.
  induction references as [|r refs IH]; intros row;
    cbn [metrics.scoring_row].
  - split; [constructor|]. intros ref. destruct scorer; [|done].
    rewrite bool_decide_eq_false_2; [done|apply not_elem_of_nil].
  - destruct (Py.truthy r) eqn:Hr; cbn [negb].
    2:{ split; [done|]. left. unfold Py.truthy in Hr.
        apply negb_false_iff in Hr. by apply String.eqb_eq. }
    apply truthy_nonempty in Hr.
    match goal with
    | |- context [metrics.scoring_row _ _ _ _ _ _ ?row1] =>
        set (row' := row1); specialize (IH row')
    end.
    destruct (metrics.scoring_row _ _ _ _ _ _ row') as [res|e].
    + destruct IH as [Hall Hlook]. split; [by constructor|].
      intros ref. rewrite Hlook. subst row' scorer.
      destruct (String.eqb (Py.lower method) "bert");
        [|destruct (String.eqb (Py.lower method) "rouge")]; [| |done].
      all: destruct (decide (ref ∈ refs)) as [Hin|Hin].
      all: try (rewrite !bool_decide_eq_true_2;
                [done|by apply list_elem_of_further|done]).
      all: rewrite (bool_decide_eq_false_2 (ref ∈ refs)) by done.
      all: destruct (decide (ref = r)) as [->|Hne].
      all: try (rewrite lookup_insert_eq, bool_decide_eq_true_2;
                [done|apply list_elem_of_here]).
      all: rewrite lookup_insert_ne by done.
      all: rewrite bool_decide_eq_false_2; [done|].
      all: rewrite elem_of_cons; tauto.
    + destruct IH as [-> Hex]. split; [done|by right].
Qed.

Lemma scoring_loop_cases (Scores : Type)
  (bert rouge : list string → list string → Scores)
  (method : string) (predictions references : list string)
  (scores : gmap string (gmap string Scores)) :
  let scorer :=
    if String.eqb (Py.lower method) "bert" then Some bert
    else if String.eqb (Py.lower method) "rouge" then Some rouge
    else None in
  match metrics.scoring_loop Scores bert rouge method predictions references
          scores with
  | Ok scores' =>
      Forall (fun pred => pred ≠ "") predictions
      ∧ (predictions = [] ∨ Forall (fun ref => ref ≠ "") references)
      ∧ ∀ pred,
          if bool_decide (pred ∈ predictions) then
            ∃ row, scores' !! pred = Some row
                   ∧ ∀ ref, row !! ref
                            = match scorer with
                              | Some score =>
                                  if bool_decide (ref ∈ references)
                                  then Some (score [pred] [ref]) else None
                              | None => None
                              end
          else scores' !! pred = scores !! pred
  | Raise e =>
      e = ValueError
      ∧ (Exists (fun pred => pred = "") predictions
         ∨ Exists (fun ref => ref = "") references)
  end.
Proof.
  intros scorer. revert scores.
  induction predictions as [|p preds IH]; intros scores;
    cbn [metrics.scoring_loop].
  - split; [constructor|]. split; [by left|]. intros pred.
    rewrite bool_decide_eq_false_2; [done|apply not_elem_of_nil].
  - destruct (Py.truthy p) eqn:Hp; cbn [negb].
    2:{ split; [done|]. left. left. unfold Py.truthy in Hp.
        apply negb_false_iff in Hp. by apply String.eqb_eq. }
    apply truthy_nonempty in Hp.
    pose proof (scoring_row_cases Scores bert rouge method p references ∅)
      as Hrow. cbv zeta in Hrow. fold scorer in Hrow.
    destruct (metrics.scoring_row _ _ _ _ _ _ ∅) as [row|e];
      cbn [mbind result_bind].
    2:{ destruct Hrow as [-> Hex]. split; [done|by right]. }
    destruct Hrow as [Hrefs Hrow].
    specialize (IH (<[p := row]> scores)).
    destruct (metrics.scoring_loop _ _ _ _ _ _ _) as [scores'|e].
    + destruct IH as (Hpreds & _ & Hlook).
      split; [by constructor|]. split; [by right|].
      intros pred. specialize (Hlook pred).
      destruct (decide (pred ∈ preds)) as [Hin|Hin].
      * rewrite bool_decide_eq_true_2 in Hlook by done.
        rewrite bool_decide_eq_true_2 by (by apply list_elem_of_further).
        exact Hlook.
      * rewrite bool_decide_eq_false_2 in Hlook by done.
        destruct (decide (pred = p)) as [->|Hne].
        -- rewrite bool_decide_eq_true_2 by apply list_elem_of_here.
           exists row. rewrite Hlook, lookup_insert_eq. split; [done|].
           intros ref. rewrite Hrow. destruct scorer; [|apply lookup_empty].
           case_bool_decide; [done|apply lookup_empty].
        -- rewrite bool_decide_eq_false_2
             by (rewrite elem_of_cons; tauto).
           by rewrite Hlook, lookup_insert_ne.
    + destruct IH as [-> [Hex|Hex]]; (split; [done|]);
        [left; by right|by right].
Qed.

(** X19: [scoring] fails, with [ValueError], exactly on an empty input:
    no prediction, no reference, an empty prediction or an empty
    reference.  Otherwise it returns a table with one row for each
    distinct prediction and, in each row, one score for each distinct
    reference, the one the scorer named by [method] (in any case of its
    letters) gives for that prediction and that reference alone; with a
    method that is neither BERT nor ROUGE the rows are empty. *)
Theorem scoring_table_or_ValueError (Scores : Type)
  (bert rouge : list string → list string → Scores)
  (predictions references : list string) (method : string) :
  let scorer :=
    if String.eqb (Py.lower method) "bert" then Some bert
    else if String.eqb (Py.lower method) "rouge" then Some rouge
    else None in
  match metrics.scoring Scores bert rouge predictions references method with
  | Ok scores =>
      predictions ≠ [] ∧ references ≠ []
      ∧ Forall (fun pred => pred ≠ "") predictions
      ∧ Forall (fun ref => ref ≠ "") references
      ∧ ∀ pred,
          if bool_decide (pred ∈ predictions) then
            ∃ row, scores !! pred = Some row
                   ∧ ∀ ref, row !! ref
                            = match scorer with
                              | Some score =>
                                  if bool_decide (ref ∈ references)
                                  then Some (score [pred] [ref]) else None
                              | None => None
                              end
          else scores !! pred = None
  | Raise e =>
      e = ValueError
      ∧ (predictions = [] ∨ references = []
         ∨ Exists (fun pred => pred = "") predictions
         ∨ Exists (fun ref => ref = "") references)
  end.
Proof.
  intros scorer. unfold metrics.scoring.
  destruct predictions as [|p preds]; [split; [done|by left]|].
  destruct references as [|r refs]; [split; [done|right; by left]|].
  pose proof (scoring_loop_cases Scores bert rouge method (p :: preds)
                (r :: refs) ∅) as Hloop.
  cbv zeta in Hloop. fold scorer in Hloop.
  destruct (metrics.scoring_loop _ _ _ _ _ _ _) as [scores|e].
  - destruct Hloop as (Hpreds & [?|Hrefs] & Hlook); [done|].
    repeat (split; [done|]). intros pred. specialize (Hlook pred).
    case_bool_decide; [done|]. by rewrite Hlook, lookup_empty.
  - destruct Hloop as [-> [?|?]]; (split; [done|]); tauto.
Qed.

(** ** The main file of a project *)

(** X20: [determine_main_tex_file] returns the first file of the list
    whose name ends in [.tex], that can be read, and whose text holds
    [\begin{document}] in any case of its letters; it returns [None]
    exactly when the list holds no such file.  A file that cannot be read
    is passed over. *)
Theorem determine_main_tex_file_first (fs : gmap string string)
  (files : list string) :
  let main (file : string) : bool :=
    Py.endswith ".tex" file
    && match fs !! file with
       | Some text => Py.re_search_ignorecase "\begin{document}" text
       | None => false
       end in
  match utils.determine_main_tex_file fs files with
  | Some file =>
      ∃ pre post,
        files = pre ++ file :: post
        ∧ main file = true
        ∧ Forall (fun f => main f = false) pre
  | None => Forall (fun f => main f = false) files
  end.
Proof.
  intros main. induction files as [|f files IH]; simpl; [constructor|].
  destruct (main f) eqn:Hf.
  - unfold main in Hf. apply andb_true_iff in Hf as [Hext Htext].
    rewrite Hext. destruct (fs !! f) as [text|] eqn:Hread; [|done].
    rewrite Htext. exists [], files. repeat split; [|constructor].
    unfold main. by rewrite Hext, Hread.
  - assert (Hskip :
      (if Py.endswith ".tex" f
       then match fs !! f with
            | Some text =>
                if Py.re_search_ignorecase "\begin{document}" text
                then Some f
                else utils.determine_main_tex_file fs files
            | None => utils.determine_main_tex_file fs files
            end
       else utils.determine_main_tex_file fs files)
      = utils.determine_main_tex_file fs files).
    { unfold main in Hf. destruct (Py.endswith ".tex" f); [|done].
      destruct (fs !! f) as [text|]; [|done]. simpl in Hf. by rewrite Hf. }
    rewrite Hskip.
    destruct (utils.determine_main_tex_file fs files) as [file|].
    + destruct IH as (pre & post & -> & Hmain & Hpre).
      exists (f :: pre), post. repeat split; [done|by constructor].
    + by constructor.
Qed.

(** ** Files by folder *)

Lemma folder_of_raises (parent_path file : string) (e : exn) :
  utils.folder_of parent_path file = Raise e → e = IndexError.
Proof.
  unfold utils.folder_of, getitem.
  destruct (_ !! 1); [done|]. by intros [= <-].
Qed.

Lemma group_loop_cases (parent_path : string) (files : list string)
  (folders : gmap string (list string)) :
  match utils.group_loop parent_path files folders with
  | Ok folders' =>
      Forall (fun file => ∃ folder, utils.folder_of parent_path file = Ok folder)
        files
      ∧ (∀ folder,
           default [] (folders' !! folder)
           = default [] (folders !! folder)
             ++ List.filter (in_folder parent_path folder) files)
      ∧ (∀ folder,
           is_Some (folders' !! folder)
           ↔ is_Some (folders !! folder)
             ∨ Exists (fun file => in_folder parent_path folder file = true)
                 files)
  | Raise e =>
      e = IndexError
      ∧ Exists (fun file => utils.folder_of parent_path file = Raise IndexError)
          files
  end.
Proof.
  revert folders. induction files as [|file rest IH]; intros folders;
    cbn [utils.group_loop].
  - split; [constructor|]. split.
    + intros folder. by rewrite app_nil_r.
    + intros folder. split; [by left|]. intros [?|Hex]; [done|].
      by apply Exists_nil in Hex.
  - destruct (utils.folder_of parent_path file) as [fd|e] eqn:Hfd;
      cbn [mbind result_bind].
    2:{ apply folder_of_raises in Hfd as Heq. subst e.
        split; [done|by left]. }
    set (folders1 := match folders !! fd with
                     | Some _ => folders
                     | None => <[fd := []]> folders
                     end).
    assert (H1 : folders1 !! fd = Some (default [] (folders !! fd))).
    { subst folders1. destruct (folders !! fd) as [l|] eqn:Hl; simpl.
      - done.
      - apply lookup_insert_eq. }
    assert (H1' : ∀ k, k ≠ fd → folders1 !! k = folders !! k).
    { intros k Hk. subst folders1. destruct (folders !! fd); [done|].
      by rewrite lookup_insert_ne. }
    rewrite H1.
    specialize (IH (<[fd := default [] (folders !! fd) ++ [file]]> folders1)).
    destruct (utils.group_loop parent_path rest _) as [folders'|e].
    + destruct IH as (Hall & Hgroups & Hkeys). split; [|split].
      * constructor; [eauto|done].
      * intros folder. rewrite Hgroups. cbn [List.filter].
        unfold in_folder at 2. rewrite Hfd.
        destruct (String.eqb_spec fd folder) as [->|Hne].
        -- rewrite lookup_insert_eq. simpl. by rewrite <- app_assoc.
        -- rewrite lookup_insert_ne by done. by rewrite H1'.
      * intros folder. rewrite Hkeys, Exists_cons.
        unfold in_folder at 2. rewrite Hfd.
        destruct (String.eqb_spec fd folder) as [->|Hne].
        -- rewrite lookup_insert_eq. split; [intros _; right; by left|].
           intros _. left. eauto.
        -- rewrite lookup_insert_ne by done. rewrite H1' by done.
           split; [tauto|]. intros [?|[?|?]]; [tauto|done|tauto].
    + destruct IH as [-> Hex]. split; [done|by right].
Qed.

(** X21: [group_files_by_folder] loses no file and invents none: the
    group of a folder holds, in the order of the input, exactly the files
    whose second path component (after the characters of [parent_path]
    are stripped from both ends of the path) is that folder, and a folder
    is a key exactly when some file falls into it.  The only failure is an
    [IndexError], raised at a file whose stripped path holds no slash. *)
Theorem group_files_by_folder_partitions (files : list string)
  (parent_path : string) :
  match utils.group_files_by_folder files parent_path with
  | Ok folders =>
      Forall (fun file => ∃ folder, utils.folder_of parent_path file = Ok folder)
        files
      ∧ (∀ folder,
           default [] (folders !! folder)
           = List.filter (in_folder parent_path folder) files)
      ∧ (∀ folder,
           is_Some (folders !! folder)
           ↔ Exists (fun file => in_folder parent_path folder file = true)
               files)
  | Raise e =>
      e = IndexError
      ∧ Exists (fun file => utils.folder_of parent_path file = Raise IndexError)
          files
  end.
Proof.
  unfold utils.group_files_by_folder.
  pose proof (group_loop_cases parent_path files ∅) as Hloop.
  destruct (utils.group_loop parent_path files ∅) as [folders|e]; [|done].
  destruct Hloop as (Hall & Hgroups & Hkeys). split; [done|]. split.
  - intros folder. by rewrite Hgroups, lookup_empty.
  - intros folder. rewrite Hkeys, lookup_empty. split; [|by right].
    intros [[? ?]|?]; done.
Qed.

(** ** Construction of a document *)

(** X22: a document is built from the source text when one is given and
    is not empty, without any look at the file path or the file system;
    otherwise from the file at the path, and what opening or reading that
    file raises is raised by the construction, unchanged; with neither a
    non-empty source nor a non-empty path the construction raises
    [ValueError].  A presentation is built exactly when its document is,
    and fails with the same exception: the deduplication pass itself
    never raises. *)
Theorem init_needs_source_or_filepath (parse : nat → string → TexNode)
  (fs : string → result string) (fuel : nat) (filepath source : option string) :
  let base := LatexBase.init parse fs fuel filepath source in
  let pres := LatexPresentation.init parse fs fuel filepath source in
  (if Py.truthy_opt source
   then ∃ src, source = Some src ∧ base = Ok (parse 0 src)
   else if Py.truthy_opt filepath
   then ∃ path,
          filepath = Some path
          ∧ match fs path with
            | Ok text =>
                base
                = LatexBase.resolve_imports parse fs fuel
                    (LatexBase.mk_file path text)
            | Raise e => base = Raise e
            end
   else base = Raise ValueError)
  ∧ match base with
    | Ok soup =>
        pres
        = LatexPresentation.remove_sequential_frames
            LatexPresentation.default_threshold soup
        ∧ ∃ soup', pres = Ok soup'
    | Raise e => pres = Raise e
    end.
Proof.
  intros base pres. split.
  - subst base. unfold LatexBase.init, Py.truthy_opt.
    destruct source as [src|], filepath as [path|];
      try destruct (Py.truthy src) eqn:Hsrc;
      try destruct (Py.truthy path) eqn:Hpath; eauto.
    all: exists path; split; [done|].
    all: unfold LatexBase.make_soup, LatexBase.open.
    all: by destruct (fs path).
  - subst pres. unfold LatexPresentation.init. fold base.
    destruct base as [soup|e]; cbn [mbind result_bind]; [|done].
    split; [done|]. rewrite remove_sequential_frames_doomed. eauto.
Qed.

(** ** The reference file of a candidate *)

Lemma append_cons (c : ascii) (s t : string) :
  String c s +:+ t = String c (s +:+ t).
Proof. reflexivity. Qed.

Lemma append_nil_l (t : string) : "" +:+ t = t.
Proof. reflexivity. Qed.

Lemma append_nil_r (t : string) : t +:+ "" = t.
Proof. induction t as [|c t IH]; [done|]. by rewrite append_cons, IH. Qed.

Lemma append_assoc (s t u : string) : (s +:+ t) +:+ u = s +:+ (t +:+ u).
Proof. induction s as [|c s IH]; [done|]. by rewrite !append_cons, IH. Qed.

Lemma replace_aux_skip_all (old new t : string) :
  Py.replace_aux old new (String.length t) t = "".
Proof. induction t as [|c t IH]; [done|]. exact IH. Qed.

Lemma prefix_cons_ne (c c0 : ascii) (old' s : string) :
  c ≠ c0 → String.prefix (String c0 old') (String c s) = false.
Proof.
  intros Hc. cbn [String.prefix]. destruct (ascii_dec c0 c); [congruence|done].
Qed.

Lemma prefix_refl (s t : string) : String.prefix s (s +:+ t) = true.
Proof.
  induction s as [|c s IH]; [by destruct t|].
  rewrite append_cons. cbn [String.prefix].
  destruct (ascii_dec c c); [exact IH|congruence].
Qed.

Lemma in_chars_cons_false (c0 c : ascii) (s : string) :
  Py.in_chars c0 (String c s) = false → c ≠ c0 ∧ Py.in_chars c0 s = false.
Proof.
  simpl. intros [Hc Hs]%orb_false_iff. split; [|done].
  apply Ascii.eqb_neq in Hc. congruence.
Qed.

(** Replacing [old] in [stem ++ old] where the first character of [old]
    does not occur in [stem] replaces the final occurrence only. *)
Lemma replace_suffix (c0 : ascii) (old' new stem : string) :
  Py.in_chars c0 stem = false
  → Py.replace (String c0 old') new (stem +:+ String c0 old') = stem +:+ new.
Proof.
  unfold Py.replace. induction stem as [|c stem IH]; intros Hstem.
  - rewrite append_nil_l. cbn [Py.replace_aux].
    pose proof (prefix_refl (String c0 old') "") as Hp.
    rewrite append_nil_r in Hp. rewrite Hp.
    change (String.length (String c0 old') - 1) with (String.length old' - 0).
    rewrite Nat.sub_0_r, replace_aux_skip_all. by rewrite append_nil_r.
  - apply in_chars_cons_false in Hstem as [Hc Hstem].
    rewrite !append_cons. cbn [Py.replace_aux].
    rewrite prefix_cons_ne by done. by rewrite IH.
Qed.

Lemma split_on_app_no_sep (sep : ascii) (name : string) :
  Py.in_chars sep name = false → Py.split_on sep name = [name].
Proof.
  induction name as [|c name IH]; [done|]. intros Hn.
  apply in_chars_cons_false in Hn as [Hc Hn]. simpl.
  rewrite (proj2 (Ascii.eqb_neq c sep) Hc), (IH Hn). done.
Qed.

Lemma split_on_app_sep (sep : ascii) (dir name : string) :
  Py.in_chars sep name = false
  → ∃ p pre, Py.split_on sep (dir +:+ String sep name) = p :: pre ++ [name].
Proof.
  intros Hn. induction dir as [|c dir (p & pre & IH)].
  - exists "", []. by rewrite append_nil_l, split_on_cons_sep, split_on_app_no_sep.
  - rewrite append_cons. cbn [Py.split_on]. rewrite IH.
    destruct (Ascii.eqb c sep).
    + by exists "", (p :: pre).
    + by exists (String c p), pre.
Qed.

Lemma basename_app (dir name : string) :
  Py.in_chars "/" name = false
  → Py.os_path_basename (dir +:+ String "/" name) = name.
Proof.
  intros Hn. unfold Py.os_path_basename.
  destruct (split_on_app_sep "/" dir name Hn) as (p & pre & ->).
  rewrite app_comm_cons. apply last_last.
Qed.

Lemma endswith_app (p s : string) : Py.endswith p (s +:+ p) = true.
Proof.
  induction s as [|c s IH].
  - rewrite append_nil_l. destruct p; simpl; [done|].
    by rewrite String.eqb_refl, Ascii.eqb_refl.
  - rewrite append_cons. cbn [Py.endswith]. rewrite IH. apply orb_true_r.
Qed.

Lemma rstrip_chars_all (chars t : string) :
  (∀ c, Py.in_chars c t = true → Py.in_chars c chars = true)
  → Py.rstrip_chars chars t = "".
Proof.
  induction t as [|c t IH]; [done|]. intros Hall. cbn [Py.rstrip_chars].
  rewrite IH.
  - rewrite (Hall c); [done|]. simpl. by rewrite Ascii.eqb_refl.
  - intros c' Hc'. apply Hall. simpl. rewrite Hc'. apply orb_true_r.
Qed.

Lemma rstrip_chars_app (chars stem t : string) (c : ascii) :
  last_char stem = Some c → Py.in_chars c chars = false
  → Py.rstrip_chars chars t = ""
  → Py.rstrip_chars chars (stem +:+ t) = stem.
Proof.
  intros Hlast Hc Ht. revert Hlast.
  induction stem as [|x stem IH]; [done|]. intros Hlast.
  rewrite append_cons. cbn [Py.rstrip_chars].
  destruct stem as [|y stem].
  - simpl in Hlast. injection Hlast as ->. rewrite append_nil_l.
    by rewrite Ht, Hc.
  - rewrite IH by exact Hlast. done.
Qed.

(** X23: for a candidate file [dir/stem-presentation-beamer.tex], or
    [dir/stem.tex], the reference file is
    [reference_folder/stem/presentation-latex/stem-presentation.tex],
    provided that the stem holds no slash, that it does not end with one
    of the characters of ["-presentation.tex"] (which are all stripped
    from the end of the folder name, not only that suffix), and that it
    holds no hyphen in the first case and no dot in the second.  A file
    whose name does not end in [.tex] has no reference file.  For
    [out/paper.tex], whose stem is made of such characters only, the
    folder name is stripped to nothing. *)
Theorem handle_metrics_reference_file_of_stem
  (dir stem reference_folder : string) (c : ascii) :
  Py.in_chars "/" stem = false
  → last_char stem = Some c
  → Py.in_chars c "-presentation.tex" = false
  → let expected :=
      Some (Py.os_path_join
              (Py.os_path_join reference_folder
                 (Py.os_path_join stem "presentation-latex"))
              (stem +:+ "-presentation.tex")) in
    (Py.in_chars "-" stem = false
     → metrics.handle_metrics_reference_file
         (dir +:+ "/" +:+ stem +:+ "-presentation-beamer.tex") reference_folder
       = expected)
    ∧ (Py.in_chars "." stem = false
       → Py.endswith "-presentation-beamer.tex" (dir +:+ "/" +:+ stem +:+ ".tex")
         = false
       → metrics.handle_metrics_reference_file
           (dir +:+ "/" +:+ stem +:+ ".tex") reference_folder
         = expected)
    ∧ (∀ file, Py.endswith ".tex" file = false
         → metrics.handle_metrics_reference_file file reference_folder = None)
    ∧ metrics.handle_metrics_reference_file "out/paper.tex" "refs"
      = Some "refs/presentation-latex/paper-presentation.tex".
Proof.
  intros Hslash Hlast Hc expected.
  assert (Hstrip :
    Py.rstrip_chars "-presentation.tex" (stem +:+ "-presentation.tex") = stem).
  { by apply (rstrip_chars_app _ _ _ c). }
  assert (Hin : ∀ suffix : string,
    Py.in_chars "/" suffix = false
    → Py.in_chars "/" (stem +:+ suffix) = false).
  { intros suffix Hs. clear -Hslash Hs.
    induction stem as [|y stem IH]; [done|].
    apply in_chars_cons_false in Hslash as [Hy Hslash].
    rewrite append_cons. cbn [Py.in_chars]. rewrite (IH Hslash).
    destruct (Ascii.eqb_spec "/" y); [congruence|done]. }
  split; [|split; [|split]].
  - intros Hhyphen. unfold metrics.handle_metrics_reference_file.
    assert (Hends : Py.endswith "-presentation-beamer.tex"
                      (dir +:+ "/" +:+ stem +:+ "-presentation-beamer.tex")
                    = true).
    { change (dir +:+ "/" +:+ stem +:+ "-presentation-beamer.tex")
        with (dir +:+ (String "/" stem +:+ "-presentation-beamer.tex")).
      rewrite <- append_assoc. apply endswith_app. }
    rewrite Hends.
    change (dir +:+ "/" +:+ stem +:+ "-presentation-beamer.tex")
      with (dir +:+ String "/" (stem +:+ "-presentation-beamer.tex")).
    rewrite basename_app by (by apply Hin).
    rewrite (replace_suffix "-" "presentation-beamer.tex") by done.
    by rewrite Hstrip.
  - intros Hdot Hbeamer. unfold metrics.handle_metrics_reference_file.
    rewrite Hbeamer.
    assert (Hends : Py.endswith ".tex" (dir +:+ "/" +:+ stem +:+ ".tex")
                    = true).
    { change (dir +:+ "/" +:+ stem +:+ ".tex")
        with (dir +:+ (String "/" stem +:+ ".tex")).
      rewrite <- append_assoc. apply endswith_app. }
    rewrite Hends.
    change (dir +:+ "/" +:+ stem +:+ ".tex")
      with (dir +:+ String "/" (stem +:+ ".tex")).
    rewrite basename_app by (by apply Hin).
    rewrite (replace_suffix "." "tex") by done.
    by rewrite Hstrip.
  - intros file Hfile. unfold metrics.handle_metrics_reference_file.
    rewrite Hfile.
    destruct (Py.endswith "-presentation-beamer.tex" file) eqn:Hb; [|done].
    exfalso. clear -Hfile Hb.
    induction file as [|x file IH].
    + done.
    + cbn [Py.endswith] in Hb.
      apply orb_true_iff in Hb as [Heq|Hb].
      * apply String.eqb_eq in Heq. rewrite <- Heq in Hfile. done.
      * cbn [Py.endswith] in Hfile.
        apply orb_false_iff in Hfile as [_ Hfile]. by apply IH.
  - vm_compute. reflexivity.
Qed.

(** X23, witness: a candidate named by an arXiv number, in both forms. *)
Lemma handle_metrics_reference_file_of_stem_witness :
  metrics.handle_metrics_reference_file
    "out/2401.01234-presentation-beamer.tex" "refs"
  = Some "refs/2401.01234/presentation-latex/2401.01234-presentation.tex"
  ∧ metrics.handle_metrics_reference_file "out/240101234.tex" "refs"
    = Some "refs/240101234/presentation-latex/240101234-presentation.tex"
  ∧ metrics.handle_metrics_reference_file "out/notes.txt" "refs" = None.
Proof.
  destruct (handle_metrics_reference_file_of_stem "out" "2401.01234" "refs" "4")
    as (Hbeamer & _ & Hother & _); [reflexivity..|].
  destruct (handle_metrics_reference_file_of_stem "out" "240101234" "refs" "4")
    as (_ & Htex & _ & _); [reflexivity..|].
  split; [|split].
  - exact (Hbeamer eq_refl).
  - exact (Htex eq_refl eq_refl).
  - apply Hother. reflexivity.
Defined.

(** ** The import resolver of the utilities *)

(** X24: in the tree [resolve] returns for a file, every [import],
    [include] and [input] directive, at any depth, has given way to the
    contents of the tree its file resolves to, spliced into the parent at
    the position of the directive -- the [input] directive too, which the
    resolver of the document class replaces by the resolved tree itself;
    the files are resolved by [resolve] itself.  The tree is returned as
    built: it is neither cleaned nor parsed again.  A file that is
    resolved holds no [subimport] directive: the sum of the two arguments
    of such a directive raises an exception. *)
Theorem resolve_splices_contents (parse : nat → string → TexNode)
  (fs : string → result string) (fuel : nat) (f : LatexBase.file)
  (soup' : TexNode) :
  utils_resolve.resolve parse fs (S fuel) f = Ok soup'
  → let cwd := Py.os_path_dirname (LatexBase.file_name f) in
    let resolves := resolved_by (utils_resolve.resolve parse fs fuel) fs in
    let soup := parse 0 (LatexBase.file_read f) in
    find_all "subimport" soup = []
    ∧ ∃ s2 s3,
        Spec.Spliced "import"
          (Spec.by_children (resolves Spec.import_path)) soup s2
        ∧ Spec.Spliced "include"
            (Spec.by_children (resolves Spec.import_path)) s2 s3
        ∧ Spec.Spliced "input"
            (Spec.by_children (resolves (Spec.input_path cwd))) s3 soup'.
Proof.
  intros Hr cwd resolves soup. cbn [utils_resolve.resolve] in Hr.
  fold cwd soup in Hr.
  match type of Hr with
  | mbind _ (LatexBase.replace_all _ ?f1 _) = _ =>
      pose proof (replace_all_failing "subimport" f1
                    (fun e => e = TypeError ∨ e = IndexError) soup) as H1;
      destruct (LatexBase.replace_all "subimport" f1 soup) as [s1|] eqn:E1;
      [|done]
  end.
  destruct H1 as [-> Hnone].
  { intros d _.
    apply (subimport_fails
             (fun path =>
                file ← LatexBase.open fs path;
                r ← utils_resolve.resolve parse fs fuel file;
                Ok (contents r))). }
  split; [exact Hnone|]. clear E1.
  cbn [mbind result_bind] in Hr.
  match type of Hr with
  | mbind _ (LatexBase.replace_all _ ?f2 _) = _ =>
      destruct (LatexBase.replace_all "import" f2 soup) as [s2|] eqn:E2;
      [|done]
  end.
  cbn [mbind result_bind] in Hr.
  match type of Hr with
  | mbind _ (LatexBase.replace_all _ ?f3 _) = _ =>
      destruct (LatexBase.replace_all "include" f3 s2) as [s3|] eqn:E3;
      [|done]
  end.
  cbn [mbind result_bind] in Hr.
  match type of Hr with
  | mbind _ (LatexBase.replace_all _ ?f4 _) = _ =>
      destruct (LatexBase.replace_all "input" f4 s3) as [s4|] eqn:E4;
      [|done]
  end.
  cbn [mbind result_bind] in Hr. injection Hr as <-.
  exists s2, s3.
  apply replace_all_spliced in E2, E3, E4.
  repeat split.
  - revert E2. apply Spliced_impl. intros d new Hd.
    unfold Spec.by_children, resolves, resolved_by, Spec.import_path.
    destruct (getitem (args d) 0) as [a0|]; simpl in *; [|done].
    destruct (LatexBase.arg_str a0) as [s|]; simpl in *; [|done].
    destruct (LatexBase.open fs (LatexBase.check_filename s)) as [file|]
      eqn:Ef; simpl in *; [|done].
    destruct (utils_resolve.resolve parse fs fuel file) as [r|] eqn:Er;
      simpl in *; [|done].
    injection Hd as <-. eauto 10.
  - revert E3. apply Spliced_impl. intros d new Hd.
    unfold Spec.by_children, resolves, resolved_by, Spec.import_path.
    destruct (getitem (args d) 0) as [a0|]; simpl in *; [|done].
    destruct (LatexBase.arg_str a0) as [s|]; simpl in *; [|done].
    destruct (LatexBase.open fs (LatexBase.check_filename s)) as [file|]
      eqn:Ef; simpl in *; [|done].
    destruct (utils_resolve.resolve parse fs fuel file) as [r|] eqn:Er;
      simpl in *; [|done].
    injection Hd as <-. eauto 10.
  - revert E4. apply Spliced_impl. intros d new Hd.
    unfold Spec.by_children, resolves, resolved_by, Spec.input_path.
    destruct (getitem (args d) 0) as [a0|]; simpl in *; [|done].
    destruct (LatexBase.arg_str a0) as [s|]; simpl in *; [|done].
    destruct (LatexBase.open fs
                (Py.os_path_join cwd (LatexBase.check_filename s)))
      as [file|] eqn:Ef; simpl in *; [|done].
    destruct (utils_resolve.resolve parse fs fuel file) as [r|] eqn:Er;
      simpl in *; [|done].
    injection Hd as <-. eauto 10.
Qed.

(** X24, witness: [src/main.tex] imports [c.tex] and inputs [b.tex]; both
    give way to the text of their file. *)
Lemma resolve_splices_contents_witness :
  let main := LatexBase.mk_file "src/main.tex" Examples.main_tex in
  let resolves :=
    resolved_by (utils_resolve.resolve Examples.toy_parse Examples.toy_fs 1)
      Examples.toy_fs in
  let soup := Examples.toy_parse 0 (LatexBase.file_read main) in
  find_all "subimport" soup = []
  ∧ ∃ s2 s3,
      Spec.Spliced "import"
        (Spec.by_children (resolves Spec.import_path)) soup s2
      ∧ Spec.Spliced "include"
          (Spec.by_children (resolves Spec.import_path)) s2 s3
      ∧ Spec.Spliced "input"
          (Spec.by_children
             (resolves
                (Spec.input_path
                   (Py.os_path_dirname (LatexBase.file_name main))))) s3
          (root [TexText "C"; TexText "B"]).
Proof.
  apply (resolve_splices_contents Examples.toy_parse Examples.toy_fs 1
           (LatexBase.mk_file "src/main.tex" Examples.main_tex)
           (root [TexText "C"; TexText "B"])).
  vm_compute. reflexivity.
Defined.

(** A file with a [subimport] directive, run through [resolve]. *)
Example resolve_subimport_TypeError :
  utils_resolve.resolve Examples.sub_parse Examples.sub_fs 2
    (LatexBase.mk_file "src/sub.tex" Examples.sub_tex)
  = Raise TypeError.
Proof. reflexivity. Qed.

(** ** Noise on a list of elements *)

Lemma swap_loop_permutes (choice2 : nat → nat → nat * nat)
  (count k : nat) (elements : list string) :
  (∀ k m, 2 ≤ m → (choice2 k m).1 < m ∧ (choice2 k m).2 < m)%nat
  → (count = 0 ∨ 2 ≤ length elements)%nat
  → ∃ swapped,
      noise.swap_loop choice2 count k elements = Ok swapped
      ∧ swapped ≡ₚ elements.
Proof.
  intros Hrng. revert k elements.
  induction count as [|count IH]; intros k elements Hlen;
    cbn [noise.swap_loop]; [eauto|].
  destruct Hlen as [?|Hlen]; [done|].
  unfold noise.rng_choice2.
  rewrite (proj2 (Nat.ltb_ge _ _) Hlen). cbn [mbind result_bind].
  destruct (Hrng k (length elements) Hlen) as [Hi Hj].
  destruct (choice2 k (length elements)) as [i j]. simpl in Hi, Hj.
  destruct (lookup_lt_is_Some_2 elements j Hj) as [x Hx].
  destruct (lookup_lt_is_Some_2 elements i Hi) as [y Hy].
  unfold getitem, noise.setitem. rewrite Hx, Hy. cbn [mbind result_bind].
  rewrite (proj2 (Nat.ltb_lt _ _) Hi). cbn [mbind result_bind].
  rewrite length_insert, (proj2 (Nat.ltb_lt _ _) Hj). cbn [mbind result_bind].
  pose proof (Permutation_insert_swap elements i j y x Hy Hx) as Hperm.
  destruct (IH (S k) (<[j:=y]> (<[i:=x]> elements))) as (swapped & Hs & Hp).
  { right. by rewrite !length_insert. }
  exists swapped. split; [done|]. by rewrite Hp.
Qed.

(** X25: provided the generator draws indices of the list, swapping [n]
    random pairs returns a rearrangement of the list freed of its
    duplicates: the same elements, each once; with [n] at least the number
    of distinct elements, or not positive, nothing is swapped. *)
Theorem swap_random_elements_permutes (choice2 : nat → nat → nat * nat)
  (elements : list string) (n : Z) :
  (∀ k m, 2 ≤ m → (choice2 k m).1 < m ∧ (choice2 k m).2 < m)%nat
  → ∃ swapped,
      noise.swap_random_elements choice2 elements n = Ok swapped
      ∧ swapped ≡ₚ metrics.fromkeys elements
      ∧ NoDup swapped
      ∧ ((Z.of_nat (length (metrics.fromkeys elements)) ≤ n ∨ n ≤ 0)%Z
         → swapped = metrics.fromkeys elements).
Proof.
  intros Hrng. unfold noise.swap_random_elements, noise.remove_duplicates.
  set (dedup := metrics.fromkeys elements).
  assert (Hnd : NoDup dedup) by apply fromkeys_aux_NoDup.
  destruct (Z.leb_spec (Z.of_nat (length dedup)) n) as [Hle|Hlt].
  { exists dedup. done. }
  destruct (swap_loop_permutes choice2 (Z.to_nat n) 0 dedup Hrng)
    as (swapped & Hs & Hp); [lia|].
  exists swapped. split; [done|]. split; [done|].
  split; [by rewrite Hp|].
  intros [?|Hn]; [lia|].
  replace (Z.to_nat n) with 0%nat in Hs by lia. simpl in Hs.
  by injection Hs.
Qed.

(** X25, witness: a generator that always draws the first two indices. *)
Lemma swap_random_elements_permutes_witness :
  ∃ swapped,
    noise.swap_random_elements (fun _ _ => (0, 1)) ["a"; "b"; "a"; "c"] 1
    = Ok swapped
    ∧ swapped ≡ₚ ["a"; "b"; "c"].
Proof.
  destruct (swap_random_elements_permutes (fun _ _ => (0, 1))
              ["a"; "b"; "a"; "c"] 1) as (swapped & Hs & Hp & _).
  { intros k m Hm. simpl. lia. }
  exists swapped. split; [exact Hs|exact Hp].
Defined.

Lemma remove_loop_sublist (choice : nat → nat → nat)
  (count k : nat) (elements : list string) :
  (∀ k m, 0 < m → choice k m < m)%nat
  → (count ≤ length elements)%nat
  → ∃ kept,
      noise.remove_loop choice count k elements = Ok kept
      ∧ kept `sublist_of` elements
      ∧ length kept = (length elements - count)%nat.
Proof.
  intros Hrng. revert k elements.
  induction count as [|count IH]; intros k elements Hlen;
    cbn [noise.remove_loop].
  { exists elements. repeat split; [done|lia]. }
  unfold noise.rng_choice.
  rewrite (proj2 (Nat.eqb_neq (length elements) 0)) by lia.
  cbn [mbind result_bind].
  pose proof (Hrng k (length elements) ltac:(lia)) as Hi.
  unfold noise.pop. rewrite (proj2 (Nat.ltb_lt _ _) Hi).
  cbn [mbind result_bind].
  assert (Hdel : length (base.delete (choice k (length elements)) elements)
                 = (length elements - 1)%nat)
    by (apply length_delete; by apply lookup_lt_is_Some_2).
  destruct (IH (S k) (base.delete (choice k (length elements)) elements))
    as (kept & Hk & Hsub & Hl); [lia|].
  exists kept. split; [done|]. split; [|lia].
  etrans; [exact Hsub|apply sublist_delete].
Qed.

(** X26: provided the generator draws indices of the list, removing [n]
    random elements returns a part of the list freed of its duplicates, in
    the order of the list: [n] elements fewer when [n] is not negative and
    below the number of distinct elements, and that list itself
    otherwise. *)
Theorem remove_random_elements_sublist (choice : nat → nat → nat)
  (elements : list string) (n : Z) :
  (∀ k m, 0 < m → choice k m < m)%nat
  → ∃ kept,
      noise.remove_random_elements choice elements n = Ok kept
      ∧ kept `sublist_of` metrics.fromkeys elements
      ∧ NoDup kept
      ∧ length kept
        = (if Z.leb (Z.of_nat (length (metrics.fromkeys elements))) n
           then length (metrics.fromkeys elements)
           else length (metrics.fromkeys elements) - Z.to_nat n)%nat.
Proof.
  intros Hrng. unfold noise.remove_random_elements, noise.remove_duplicates.
  set (dedup := metrics.fromkeys elements).
  assert (Hnd : NoDup dedup) by apply fromkeys_aux_NoDup.
  destruct (Z.leb_spec (Z.of_nat (length dedup)) n) as [Hle|Hlt].
  { exists dedup. done. }
  destruct (remove_loop_sublist choice (Z.to_nat n) 0 dedup Hrng)
    as (kept & Hk & Hsub & Hl); [lia|].
  exists kept. split; [done|]. split; [done|]. split; [|done].
  by eapply sublist_NoDup.
Qed.

(** X26, witness: a generator that always draws the first index. *)
Lemma remove_random_elements_sublist_witness :
  ∃ kept,
    noise.remove_random_elements (fun _ _ => 0) ["a"; "b"; "a"; "c"] 2
    = Ok kept
    ∧ kept `sublist_of` ["a"; "b"; "c"]
    ∧ length kept = 1.
Proof.
  destruct (remove_random_elements_sublist (fun _ _ => 0)
              ["a"; "b"; "a"; "c"] 2) as (kept & Hk & Hsub & _ & Hl).
  { intros k m Hm. exact Hm. }
  exists kept. split; [exact Hk|]. split; [exact Hsub|exact Hl].
Defined.

Lemma replace_loop_touched (choice : nat → nat → nat)
  (replacements : list string) (idxs : list nat)
  (count i : nat) (elements : list string) :
  (∀ k m, 0 < m → choice k m < m)%nat
  → replacements ≠ []
  → (i + count ≤ length idxs)%nat
  → Forall (fun idx => idx < length elements)%nat idxs
  → let touched := take count (drop i idxs) in
    ∃ replaced,
      noise.replace_loop choice count i idxs replacements elements
      = Ok replaced
      ∧ length replaced = length elements
      ∧ (∀ p, p ∉ touched → replaced !! p = elements !! p)
      ∧ (∀ p, p ∈ touched
           → ∃ v, v ∈ replacements ∧ replaced !! p = Some v).
Proof.
  intros Hrng Hne. revert i elements.
  induction count as [|count IH]; intros i elements Hlen Hidx touched;
    cbn [noise.replace_loop].
  { exists elements. split; [done|]. split; [done|]. split; [done|].
    intros p Hp. subst touched. rewrite take_0 in Hp.
    by apply elem_of_nil in Hp. }
  unfold noise.rng_choice.
  assert (Hm : (0 < length replacements)%nat)
    by (destruct replacements; [done|simpl; lia]).
  rewrite (proj2 (Nat.eqb_neq (length replacements) 0)) by lia.
  cbn [mbind result_bind].
  pose proof (Hrng i (length replacements) Hm) as Hr.
  destruct (lookup_lt_is_Some_2 replacements _ Hr) as [v Hv].
  destruct (lookup_lt_is_Some_2 idxs i ltac:(lia)) as [idx Hi].
  unfold getitem. rewrite Hv, Hi. cbn [mbind result_bind].
  assert (Hidx' : (idx < length elements)%nat).
  { rewrite List.Forall_forall in Hidx. apply Hidx.
    apply list_elem_of_In. by eapply list_elem_of_lookup_2. }
  unfold noise.setitem. rewrite (proj2 (Nat.ltb_lt _ _) Hidx').
  cbn [mbind result_bind].
  destruct (IH (S i) (<[idx:=v]> elements)) as (replaced & Hl & Hlen' & Hout & Hin).
  { lia. }
  { by rewrite length_insert. }
  assert (Ht : touched = idx :: take count (drop (S i) idxs)).
  { subst touched. by rewrite (drop_S _ _ _ Hi). }
  exists replaced. split; [done|]. rewrite length_insert in Hlen'.
  split; [done|]. rewrite Ht. split.
  - intros p Hp. apply not_elem_of_cons in Hp as [Hne' Hp].
    rewrite (Hout p Hp). by apply list_lookup_insert_ne.
  - intros p Hp.
    destruct (decide (p ∈ take count (drop (S i) idxs))) as [Hp'|Hp'].
    + by apply Hin.
    + apply elem_of_cons in Hp as [->|?]; [|done].
      exists v. split; [by eapply list_elem_of_lookup_2|].
      rewrite (Hout idx Hp'). by apply list_lookup_insert_eq.
Qed.

(** X27: provided the shuffle rearranges its array and the generator
    draws indices of the replacements, replacing [n] random elements
    returns the list freed of its duplicates with its first [n] elements
    (all of them when [n] is larger, none when [n] is not positive)
    overwritten by elements of the replacements, whatever the shuffle: the
    length and the elements after the first [n] are unchanged.  Without
    any replacement it fails with [ValueError], unless there is nothing to
    replace. *)
Theorem replace_random_elements_overwrites_first
  (choice : nat → nat → nat) (shuffle : list nat → list nat)
  (elements replacements : list string) (n : Z) :
  (∀ k m, 0 < m → choice k m < m)%nat
  → (∀ idxs, shuffle idxs ≡ₚ idxs)
  → let dedup := metrics.fromkeys elements in
    let count := Nat.min (length dedup) (Z.to_nat n) in
    match metrics.fromkeys replacements with
    | [] =>
        noise.replace_random_elements choice shuffle elements replacements n
        = if Nat.eqb count 0 then Ok dedup else Raise ValueError
    | _ :: _ =>
        ∃ replaced,
          noise.replace_random_elements choice shuffle elements replacements n
          = Ok replaced
          ∧ length replaced = length dedup
          ∧ drop count replaced = drop count dedup
          ∧ Forall (fun v => v ∈ replacements) (take count replaced)
    end.
Proof.
  intros Hrng Hshuffle dedup count.
  unfold noise.replace_random_elements, noise.remove_duplicates.
  fold dedup.
  assert (Hcount : Z.to_nat (if Z.leb (Z.of_nat (length dedup)) n
                             then Z.of_nat (length dedup) else n)
                   = count).
  { subst count. destruct (Z.leb_spec (Z.of_nat (length dedup)) n); lia. }
  rewrite Hcount.
  set (idxs := shuffle (seq 0 count)).
  assert (Hperm : idxs ≡ₚ seq 0 count) by apply Hshuffle.
  assert (Hlen : length idxs = count) by (by rewrite Hperm, length_seq).
  assert (Hmem : ∀ p, p ∈ idxs ↔ (p < count)%nat).
  { intros p. rewrite Hperm, elem_of_seq. lia. }
  destruct (metrics.fromkeys replacements) as [|r0 rs] eqn:Hrep.
  - destruct count as [|count']; [done|]. reflexivity.
  - destruct (replace_loop_touched choice (r0 :: rs) idxs count 0 dedup Hrng)
      as (replaced & Hr & Hl & Hout & Hin); [done|lia| |].
    { apply List.Forall_forall. intros idx Hidx%list_elem_of_In.
      apply Hmem in Hidx. subst count. lia. }
    rewrite drop_0, <- Hlen, firstn_all in Hout, Hin.
    exists replaced. split; [done|]. split; [done|]. split.
    + apply list_eq. intros p. rewrite !lookup_drop. apply Hout.
      rewrite Hmem. lia.
    + apply List.Forall_forall. intros v Hv%list_elem_of_In.
      apply list_elem_of_lookup_1 in Hv as (p & Hp).
      apply lookup_take_Some in Hp as [Hp Hlt].
      destruct (Hin p) as (v' & Hv' & Hp'); [by apply Hmem|].
      rewrite Hp in Hp'. injection Hp' as ->.
      assert (v' ∈ metrics.fromkeys replacements) by (by rewrite Hrep).
      unfold metrics.fromkeys in *.
      by apply fromkeys_aux_elem_of in H as [? _].
Qed.

(** X27, witness: a shuffle that reverses its array and a generator that
    always draws the first replacement. *)
Lemma replace_random_elements_overwrites_first_witness :
  ∃ replaced,
    noise.replace_random_elements (fun _ _ => 0) (@rev nat)
      ["a"; "b"; "a"; "c"] ["x"; "y"] 2
    = Ok replaced
    ∧ length replaced = 3
    ∧ drop 2 replaced = ["c"]
    ∧ Forall (fun v => v ∈ ["x"; "y"]) (take 2 replaced).
Proof.
  apply (replace_random_elements_overwrites_first (fun _ _ => 0) (@rev nat)
           ["a"; "b"; "a"; "c"] ["x"; "y"] 2).
  - intros k m Hm. exact Hm.
  - intros idxs. symmetry. apply Permutation_rev.
Defined.

(** ** Cleaning twice *)

Lemma in_chars_lstrip (c : ascii) (s : string) :
  Py.in_chars c s = false → Py.in_chars c (Py.lstrip s) = false.
Proof.
  induction s as [|x s IH]; [done|]. intros Hs. cbn [Py.lstrip].
  destruct (Py.isspace x); [|done].
  cbn [Py.in_chars] in Hs. apply orb_false_iff in Hs as [_ Hs]. by apply IH.
Qed.

Lemma in_chars_rstrip (c : ascii) (s : string) :
  Py.in_chars c s = false → Py.in_chars c (Py.rstrip s) = false.
Proof.
  induction s as [|x s IH]; [done|]. intros Hs.
  cbn [Py.in_chars] in Hs. apply orb_false_iff in Hs as [Hx Hs].
  specialize (IH Hs). cbn [Py.rstrip].
  destruct (Py.rstrip s) as [|y r].
  - destruct (Py.isspace x); [done|]. cbn [Py.in_chars]. by rewrite Hx.
  - cbn [Py.in_chars] in *. by rewrite Hx, IH.
Qed.

Lemma in_chars_re_sub_spaces (c : ascii) (b : bool) (s : string) :
  Py.in_chars c s = false → Py.in_chars c (Py.re_sub_spaces_aux b s) = false.
Proof.
  revert b. induction s as [|x s IH]; intros b Hs; [done|].
  cbn [Py.in_chars] in Hs. apply orb_false_iff in Hs as [Hx Hs].
  cbn [Py.re_sub_spaces_aux].
  destruct (Ascii.eqb_spec x " ") as [->|Hne].
  - destruct b; [by apply IH|]. cbn [Py.in_chars]. rewrite Hx. by apply IH.
  - cbn [Py.in_chars]. rewrite Hx. by apply IH.
Qed.

Lemma split_on_parts (sep : ascii) (s : string) :
  Forall (fun p => Py.in_chars sep p = false) (Py.split_on sep s).
Proof.
  induction s as [|x s IH]; [by repeat constructor|].
  cbn [Py.split_on]. destruct (Ascii.eqb_spec x sep) as [->|Hne].
  - by constructor.
  - assert (Hx : Ascii.eqb sep x = false)
      by (destruct (Ascii.eqb_spec sep x); [congruence|done]).
    destruct (Py.split_on sep s) as [|p ps].
    + constructor; [|constructor]. cbn [Py.in_chars]. by rewrite Hx.
    + inversion IH as [|? ? Hp Hps]; subst. constructor; [|done].
      cbn [Py.in_chars]. by rewrite Hp, Hx.
Qed.

Lemma split_on_app_part (sep : ascii) (p t : string) :
  Py.in_chars sep p = false
  → Py.split_on sep (p +:+ String sep t) = p :: Py.split_on sep t.
Proof.
  induction p as [|x p IH]; intros Hp.
  - by rewrite append_nil_l, split_on_cons_sep.
  - apply in_chars_cons_false in Hp as [Hx Hp].
    rewrite append_cons. cbn [Py.split_on].
    rewrite (proj2 (Ascii.eqb_neq x sep) Hx), (IH Hp). done.
Qed.

Lemma split_on_join (sep : ascii) (parts : list string) :
  parts ≠ []
  → Forall (fun p => Py.in_chars sep p = false) parts
  → Py.split_on sep (Py.join (String sep "") parts) = parts.
Proof.
  intros Hne Hall. unfold Py.join.
  induction Hall as [|p parts Hp Hall IH]; [done|].
  destruct parts as [|q parts].
  - simpl. by apply split_on_app_no_sep.
  - change (String.concat (String sep "") (p :: q :: parts))
      with (p +:+ String sep (String.concat (String sep "") (q :: parts))).
    rewrite split_on_app_part by done. by rewrite IH.
Qed.

Lemma re_sub_spaces_idemp (s : string) :
  Py.re_sub_spaces_aux true (Py.re_sub_spaces_aux true s)
  = Py.re_sub_spaces_aux true s
  ∧ Py.re_sub_spaces_aux false (Py.re_sub_spaces_aux false s)
    = Py.re_sub_spaces_aux false s
  ∧ Py.re_sub_spaces_aux false (Py.re_sub_spaces_aux true s)
    = Py.re_sub_spaces_aux true s.
Proof.
  induction s as [|x s (IHt & IHf & IHft)]; [done|].
  cbn [Py.re_sub_spaces_aux].
  destruct (Ascii.eqb_spec x " ") as [->|Hne].
  - split; [done|]. split; [|done].
    cbn [Py.re_sub_spaces_aux]. rewrite Ascii.eqb_refl. by rewrite IHt.
  - cbn [Py.re_sub_spaces_aux].
    rewrite (proj2 (Ascii.eqb_neq x " ") Hne). by rewrite IHf.
Qed.

Lemma re_sub_spaces_first (b : bool) (s : string) (c : ascii) :
  first_char s = Some c → c ≠ " "%char
  → first_char (Py.re_sub_spaces_aux b s) = Some c.
Proof.
  destruct s as [|x s]; [done|]. simpl. intros [= ->] Hc.
  by rewrite (proj2 (Ascii.eqb_neq c " ") Hc).
Qed.

Lemma re_sub_spaces_last (b : bool) (s : string) (c : ascii) :
  last_char s = Some c → c ≠ " "%char
  → last_char (Py.re_sub_spaces_aux b s) = Some c.
Proof.
  intros Hlast Hc. revert b Hlast.
  induction s as [|x s IH]; intros b Hlast; [done|].
  destruct s as [|y s].
  - simpl in Hlast. injection Hlast as ->. simpl.
    by rewrite (proj2 (Ascii.eqb_neq c " ") Hc).
  - assert (Hl : last_char (String y s) = Some c) by exact Hlast.
    remember (String y s) as t eqn:Ht. clear Hlast.
    cbn [Py.re_sub_spaces_aux].
    assert (Hne : ∀ b', Py.re_sub_spaces_aux b' t ≠ "").
    { intros b' He. pose proof (IH b' Hl) as Hc'. by rewrite He in Hc'. }
    destruct (Ascii.eqb x " "); [destruct b|].
    + by apply IH.
    + specialize (IH true Hl). specialize (Hne true).
      destruct (Py.re_sub_spaces_aux true t); [done|exact IH].
    + specialize (IH false Hl). specialize (Hne false).
      destruct (Py.re_sub_spaces_aux false t); [done|exact IH].
Qed.

Lemma lstrip_id (s : string) (c : ascii) :
  first_char s = Some c → Py.isspace c = false → Py.lstrip s = s.
Proof. destruct s as [|x s]; [done|]. simpl. intros [= ->] ->. done. Qed.

Lemma rstrip_id (s : string) (c : ascii) :
  last_char s = Some c → Py.isspace c = false → Py.rstrip s = s.
Proof.
  intros Hlast Hc. revert Hlast. induction s as [|x s IH]; [done|].
  destruct s as [|y s].
  - simpl. intros [= ->]. by rewrite Hc.
  - intros Hlast. remember (String y s) as t eqn:Ht.
    cbn [Py.rstrip]. rewrite IH by (by subst t). by subst t.
Qed.

Lemma last_char_Some (s : string) : s ≠ "" → ∃ c, last_char s = Some c.
Proof.
  induction s as [|x s IH]; [done|]. intros _.
  destruct s as [|y s]; [by exists x|]. by apply IH.
Qed.

(** A cleaned line: not blank, stripped, runs of spaces collapsed, and
    without line break when the line it comes from has none. *)
Lemma normalize_line_fixed (x : string) :
  Spec.blank_line x = false
  → let line := Spec.normalize_line x in
    Spec.blank_line line = false
    ∧ Spec.normalize_line line = line
    ∧ (Py.in_chars Py.newline x = false
       → Py.in_chars Py.newline line = false).
Proof.
  intros Hx line. subst line.
  rewrite <- (re_sub_spaces_strip x Hx).
  assert (Hne : Py.strip x ≠ "").
  { apply String.eqb_neq. by rewrite strip_blank. }
  unfold Py.strip in *.
  destruct (Py.lstrip x) as [|c1 t] eqn:Hl; [done|].
  assert (Hc1 : Py.isspace c1 = false)
    by (apply (lstrip_first x); by rewrite Hl).
  pose proof (rstrip_first (String c1 t) c1 eq_refl Hc1) as Hfirst.
  destruct (last_char_Some _ Hne) as [c2 Hlast].
  assert (Hc2 : Py.isspace c2 = false) by (by apply (rstrip_last (String c1 t))).
  set (s := Py.rstrip (String c1 t)) in *.
  pose proof (re_sub_spaces_first false s c1 Hfirst (isspace_space _ Hc1))
    as Hf'.
  pose proof (re_sub_spaces_last false s c2 Hlast (isspace_space _ Hc2))
    as Hl'.
  unfold Py.re_sub_spaces.
  set (line := Py.re_sub_spaces_aux false s) in *.
  assert (Hblank : Spec.blank_line line = false).
  { destruct line as [|y line']; [done|]. simpl in Hf'. injection Hf' as ->.
    simpl. by rewrite Hc1. }
  split; [done|]. split.
  - rewrite <- (re_sub_spaces_strip line Hblank). unfold Py.strip.
    rewrite (lstrip_id line c1 Hf' Hc1), (rstrip_id line c2 Hl' Hc2).
    unfold Py.re_sub_spaces. subst line.
    by destruct (re_sub_spaces_idemp s) as (_ & -> & _).
  - intros Hnl. subst line s. apply in_chars_re_sub_spaces.
    rewrite <- Hl. by apply in_chars_rstrip, in_chars_lstrip.
Qed.

(** X28: cleaning a cleaned text drops the lines that begin with the
    comment marker -- which are those that were indented comment lines in
    the original -- and changes nothing else; so cleaning is idempotent on
    every text whose cleaned lines do not begin with the marker. *)
Theorem clean_texfile_twice (texfile : string) :
  let lines :=
    map Spec.normalize_line
      (List.filter Spec.kept_line (Py.split_on Py.newline texfile)) in
  utils.clean_texfile (utils.clean_texfile texfile)
  = Py.join Py.nl
      (List.filter (fun line => negb (Py.startswith "%" line)) lines)
  ∧ (if forallb (fun line => negb (Py.startswith "%" line)) lines
     then utils.clean_texfile (utils.clean_texfile texfile)
          = utils.clean_texfile texfile
     else True).
Proof.
  intros lines.
  assert (Hclean : utils.clean_texfile texfile = Py.join Py.nl lines).
  { unfold utils.clean_texfile. by rewrite clean_lines. }
  assert (Hlines : Forall (fun line =>
            Spec.blank_line line = false
            ∧ Spec.normalize_line line = line
            ∧ Py.in_chars Py.newline line = false) lines).
  { subst lines. apply List.Forall_forall. intros line Hin.
    apply in_map_iff in Hin as (x & <- & Hx).
    apply filter_In in Hx as [Hx Hkept].
    unfold Spec.kept_line in Hkept.
    apply andb_true_iff in Hkept as [_ Hb]. apply negb_true_iff in Hb.
    destruct (normalize_line_fixed x Hb) as (H1 & H2 & H3).
    repeat split; [done..|]. apply H3.
    pose proof (split_on_parts Py.newline texfile) as Hparts.
    rewrite List.Forall_forall in Hparts. by apply Hparts. }
  assert (Htwice : utils.clean_texfile (utils.clean_texfile texfile)
    = Py.join Py.nl
        (List.filter (fun line => negb (Py.startswith "%" line)) lines)).
  { rewrite Hclean. unfold utils.clean_texfile at 1. rewrite clean_lines.
    destruct lines as [|l0 ls] eqn:Hl; [done|].
    rewrite split_on_join; [|done|].
    2:{ eapply List.Forall_impl; [|exact Hlines]. by intros ? (_ & _ & ?). }
    f_equal. clear Hl Hclean.
    induction Hlines as [|line rest (Hb & Hn & _) _ IH]; [done|].
    cbn [List.filter]. unfold Spec.kept_line at 1.
    rewrite Hb, andb_true_r, <- startswith_comment.
    destruct (Py.startswith "%" line); cbn [negb map]; [done|].
    by rewrite Hn, IH. }
  split; [exact Htwice|].
  destruct (forallb _ lines) eqn:Hall; [|done].
  rewrite Htwice, Hclean. f_equal.
  rewrite forallb_forall in Hall. clear -Hall.
  induction lines as [|line rest IH]; [done|]. cbn [List.filter].
  rewrite (Hall line) by (by left). f_equal. apply IH.
  intros x Hx. apply Hall. by right.
Qed.
